(** * pumpdotfun-sdk scripts: batching, retry, lookup-table polling and
      Jito bundling

    A shallow embedding of the helper functions and submission loops of the
    TypeScript scripts (batchArray, retryTransaction, retryAsync,
    fetchLookupTable, fetchAndValidateALT, bundle, bull_dozer,
    onBundleResult, the tip-account selection and the sweep / sell loops),
    with the properties the design document states about them.

    Conventions.
    - A JavaScript array is a [list]; an index or a count is a [nat].
    - An [async] function is a state-passing function over the state [W] of
      the outside world (ledger node, relay, clock); it ends in a
      [Completion]: a returned value or a thrown value.
    - Everything the scripts import from a library (the RPC connection, the
      relay client, transaction serialisation, [Math.random]) is a variable
      of the section that uses it. *)

From Stdlib Require Import String Ascii.
From Stdlib Require Import List Arith Lia Bool ZArith QArith Qround.
From Stdlib Require Import DecimalString.
Import ListNotations.
Local Open Scope string_scope.
Local Open Scope list_scope.
Local Open Scope nat_scope.

Set Implicit Arguments.

(* ================================================================= *)
(** ** JavaScript values and completions *)

(** What a [catch] clause can receive: an [Error] instance with its message,
    or some other thrown value (a string, a plain object), for which
    [instanceof Error] is false and [.message] is [undefined]. *)
Inductive Thrown : Type :=
| ErrorObj (message : string)
| OtherValue (shown : string).

Definition instanceof_Error (error : Thrown) : bool :=
  match error with
  | ErrorObj _ => true
  | OtherValue _ => false
  end.

(** [`${error.message}`] in a template string. *)
Definition message_of (error : Thrown) : string :=
  match error with
  | ErrorObj m => m
  | OtherValue _ => "undefined"
  end.

Inductive Completion (A : Type) : Type :=
| Return (value : A)
| Throw (error : Thrown).

Arguments Return {A} value.
Arguments Throw {A} error.

Definition is_Return {A} (c : Completion A) : bool :=
  match c with Return _ => true | Throw _ => false end.

Definition is_Throw {A} (c : Completion A) : bool :=
  match c with Return _ => false | Throw _ => true end.

(** An async computation over the world state [W]. *)
Definition Async (W A : Type) : Type := W -> Completion A * W.

Definition ret {W A} (a : A) : Async W A := fun w => (Return a, w).

Definition throw {W A} (e : Thrown) : Async W A := fun w => (Throw e, w).

(** [await]: run [m]; a thrown value propagates. *)
Definition bind {W A B} (m : Async W A) (k : A -> Async W B) : Async W B :=
  fun w =>
    match m w with
    | (Return a, w') => k a w'
    | (Throw e, w') => (Throw e, w')
    end.

(** [try { m } catch (error) { handler error }]. *)
Definition try_catch {W A} (m : Async W A) (handler : Thrown -> Async W A)
  : Async W A :=
  fun w =>
    match m w with
    | (Return a, w') => (Return a, w')
    | (Throw e, w') => handler e w'
    end.

Declare Scope async_scope.
Delimit Scope async_scope with async.
Notation "x <- m ;; k" := (bind m (fun x => k))
  (at level 61, m at next level, right associativity) : async_scope.
Notation "m ;;; k" := (bind m (fun _ => k))
  (at level 61, right associativity) : async_scope.

(** Observation of a primitive: the same primitive over a world that also
    keeps the list of the calls made so far, oldest first.  The models below
    are run on it to count and inspect the calls they make. *)
Definition observed {W A} (fn : Async W A) : Async (W * list (Completion A)) A :=
  fun wl =>
    let '(r, w') := fn (fst wl) in (r, (w', snd wl ++ [r])).

Definition observed_arg {W X A} (fn : X -> Async W A)
  : X -> Async (W * list X) A :=
  fun x wl =>
    let '(r, w') := fn x (fst wl) in (r, (w', snd wl ++ [x])).

(** A primitive that does not touch the observation log. *)
Definition unobserved {W L A} (fn : Async W A) : Async (W * L) A :=
  fun wl => let '(r, w') := fn (fst wl) in (r, (w', snd wl)).

(* ================================================================= *)
(** ** batchArray (index.ts, the sweep, sell and buy scripts) *)

Section BatchArray.
Variable T : Type.

(** [array.slice(start, end)] for [0 <= start <= end]. *)
Definition slice (array : list T) (start stop : nat) : list T :=
  firstn (stop - start) (skipn start array).

(** [for (let i = 0; i < array.length; i += batchSize)
       batches.push(array.slice(i, i + batchSize));]
    The loop does not terminate when [batchSize] is 0 and the array is not
    empty: [None] stands for a run that exhausts its fuel. *)
Fixpoint batchArray_loop (fuel : nat) (array : list T) (batchSize i : nat)
         (batches : list (list T)) : option (list (list T)) :=
  if i <? length array then
    match fuel with
    | 0 => None
    | S fuel' =>
        batchArray_loop fuel' array batchSize (i + batchSize)
                        (batches ++ [slice array i (i + batchSize)])
    end
  else Some batches.

Definition batchArray (array : list T) (batchSize : nat)
  : option (list (list T)) :=
  batchArray_loop (length array) array batchSize 0 [].

(** Every chunk is full, except that the last one may be shorter (and is
    not empty). *)
Fixpoint full_but_last (batchSize : nat) (batches : list (list T)) : Prop :=
  match batches with
  | [] => True
  | b :: rest =>
      match rest with
      | [] => 0 < length b <= batchSize
      | _ :: _ => length b = batchSize /\ full_but_last batchSize rest
      end
  end.

End BatchArray.

(** Number of iterations [batchArray]'s loop still makes when its loop
    variable is [i]: [ceil ((len - i) / batchSize)]. *)
Definition chunks_left (len batchSize i : nat) : nat :=
  (len - i + batchSize - 1) / batchSize.

(* ================================================================= *)
(** ** Ledger data (the part of @solana/web3.js the scripts use) *)

(** A public key in its base58 text form. *)
Definition PublicKey : Type := string.

Record Keypair : Type := {
  publicKey : PublicKey;
  secretKey : string
}.

Record AddressLookupTableAccount : Type := {
  key : PublicKey;
  addresses : list PublicKey
}.

Inductive TransactionInstruction : Type :=
| SystemProgram_transfer (fromPubkey toPubkey : PublicKey) (lamports : Z)
| ProgramInstruction (programId : PublicKey) (data : string).

(** [new VersionedTransaction(new TransactionMessage({...})
      .compileToV0Message(tables))] followed by [sign(signers)]: what the
    message was compiled from and who signed it.  Compiling and signing are
    taken to succeed. *)
Record VersionedTransaction : Type := {
  payerKey : PublicKey;
  instructions : list TransactionInstruction;
  recentBlockhash : string;
  addressLookupTableAccounts : list AddressLookupTableAccount;
  signers : list Keypair
}.

(** The RPC methods of [Connection] that the modelled code calls. *)
Record Connection (W : Type) : Type := {
  getAddressLookupTable : PublicKey -> Async W (option AddressLookupTableAccount);
  getLatestBlockhash : string -> Async W string;
  getBalance : PublicKey -> Async W Z;
  sendTransaction : VersionedTransaction -> Async W string;
  confirmTransaction : string -> string -> Async W unit;
  simulateTransaction : VersionedTransaction -> Async W (list string)
}.

(** [await new Promise((resolve) => setTimeout(resolve, ms))]: the world moves
    on by [ms] milliseconds. *)
Definition wait {W} (sleep : nat -> W -> W) (ms : nat) : Async W unit :=
  fun w => (Return tt, sleep ms w).

(* ================================================================= *)
(** ** Retry wrappers *)

(** [haystack.includes(needle)]. *)
Fixpoint includes (haystack needle : string) : bool :=
  if String.prefix needle haystack then true
  else
    match haystack with
    | EmptyString => false
    | String _ rest => includes rest needle
    end.

(** The test of retryTransaction's catch clause, without its attempt bound:
    [error instanceof Error && error.message.includes("not a recent slot")]. *)
Definition is_expired_slot (error : Thrown) : bool :=
  match error with
  | ErrorObj message => includes message "not a recent slot"
  | OtherValue _ => false
  end.

Section Retry.
Variable W : Type.

(** index.ts, retryTransaction: the body of
    [for (let attempt = 1; attempt <= retries; attempt++)] over the attempt
    numbers still to run, and the [throw] after the loop. *)
Fixpoint retryTransaction_from (transactionFn : Async W string)
         (retries : nat) (attempts : list nat) : Async W string :=
  match attempts with
  | [] => throw (ErrorObj "Transaction failed after all retries.")
  | attempt :: later =>
      try_catch transactionFn
        (fun error =>
           if is_expired_slot error && (attempt <? retries)
           then retryTransaction_from transactionFn retries later
           else throw error)
  end.

Definition retryTransaction (transactionFn : Async W string) (retries : nat)
  : Async W string :=
  retryTransaction_from transactionFn retries (seq 1 retries).

Variable sleep : nat -> W -> W.

(** The sell script's retryAsync: the body of
    [for (let i = 0; i < retries; i++)] over the indices still to run.  A
    run that leaves the loop reaches the end of the function and returns
    [undefined], here [None].  ([retries - 1] is only compared when the
    body runs, that is when [retries >= 1].) *)
Fixpoint retryAsync_from (A : Type) (fn : Async W A) (retries delayMs : nat)
         (indices : list nat) : Async W (option A) :=
  match indices with
  | [] => ret None
  | i :: later =>
      try_catch (bind fn (fun a => ret (Some a)))
        (fun error =>
           if i =? retries - 1
           then throw (ErrorObj ("Exceeded maximum retries for operation: "
                                   ++ message_of error))
           else bind (wait sleep delayMs)
                     (fun _ => retryAsync_from fn retries delayMs later))
  end.

Definition retryAsync (A : Type) (fn : Async W A) (retries delayMs : nat)
  : Async W (option A) :=
  retryAsync_from fn retries delayMs (seq 0 retries).

(* --------------------------------------------------------------- *)
(** ** Waiting for a lookup table to become resolvable *)

(** fetchLookupTable of the one-to-many and sweep scripts: one poll per
    index; a poll that throws is logged and counts as unsuccessful. *)
Fixpoint fetchLookupTable_from (connection : Connection W)
         (lookupTableAddress : PublicKey) (delayMs : nat)
         (indices : list nat) : Async W AddressLookupTableAccount :=
  match indices with
  | [] => throw (ErrorObj
            "Failed to fetch the Address Lookup Table account after retries.")
  | i :: later =>
      bind (try_catch (getAddressLookupTable connection lookupTableAddress)
                      (fun error => ret None))
        (fun lookupTable_value =>
           match lookupTable_value with
           | Some value => ret value
           | None =>
               bind (wait sleep delayMs)
                 (fun _ => fetchLookupTable_from connection
                             lookupTableAddress delayMs later)
           end)
  end.

Definition fetchLookupTable (connection : Connection W)
           (lookupTableAddress : PublicKey) (retries delayMs : nat)
  : Async W AddressLookupTableAccount :=
  fetchLookupTable_from connection lookupTableAddress delayMs (seq 0 retries).

(** index.ts, fetchAndValidateALT: the same loop over attempts 1..retries;
    it returns nothing on success. *)
Fixpoint fetchAndValidateALT_from (connection : Connection W)
         (altAddress : PublicKey) (delayMs : nat)
         (attempts : list nat) : Async W unit :=
  match attempts with
  | [] => throw (ErrorObj
            ("Failed to fetch or validate ALT at address " ++ altAddress))
  | attempt :: later =>
      bind (try_catch (getAddressLookupTable connection altAddress)
                      (fun error => ret None))
        (fun lookupTable_value =>
           match lookupTable_value with
           | Some _ => ret tt
           | None =>
               bind (wait sleep delayMs)
                 (fun _ => fetchAndValidateALT_from connection
                             altAddress delayMs later)
           end)
  end.

Definition fetchAndValidateALT (connection : Connection W)
           (altAddress : PublicKey) (retries delayMs : nat) : Async W unit :=
  fetchAndValidateALT_from connection altAddress delayMs (seq 1 retries).

End Retry.

(* ================================================================= *)
(** ** Observing the calls a model makes *)

(** The outcome of a run and the calls it made, for a run over a world with
    an observation log. *)
Definition outcome {W L A} (run : Completion A * (W * L)) : Completion A :=
  fst run.

Definition calls {W L A} (run : Completion A * (W * L)) : L :=
  snd (snd run).

Definition sleep_unobserved {W L} (sleep : nat -> W -> W)
  : nat -> W * L -> W * L :=
  fun ms wl => (sleep ms (fst wl), snd wl).

(** A connection whose lookup-table polls are logged with their results. *)
Definition polls_observed {W} (connection : Connection W)
  : Connection (W * list (Completion (option AddressLookupTableAccount))) :=
  {| getAddressLookupTable := fun a => observed (getAddressLookupTable connection a);
     getLatestBlockhash := fun c => unobserved (getLatestBlockhash connection c);
     getBalance := fun a => unobserved (getBalance connection a);
     sendTransaction := fun t => unobserved (sendTransaction connection t);
     confirmTransaction := fun s b => unobserved (confirmTransaction connection s b);
     simulateTransaction := fun t => unobserved (simulateTransaction connection t) |}.

(** A connection that logs every transaction handed to [sendTransaction]. *)
Definition sends_observed {W} (connection : Connection W)
  : Connection (W * list VersionedTransaction) :=
  {| getAddressLookupTable := fun a => unobserved (getAddressLookupTable connection a);
     getLatestBlockhash := fun c => unobserved (getLatestBlockhash connection c);
     getBalance := fun a => unobserved (getBalance connection a);
     sendTransaction := observed_arg (sendTransaction connection);
     confirmTransaction := fun s b => unobserved (confirmTransaction connection s b);
     simulateTransaction := fun t => unobserved (simulateTransaction connection t) |}.

(** A failed attempt that retryTransaction's catch clause classifies as
    recoverable. *)
Definition recoverable_failure (r : Completion string) : Prop :=
  exists e, r = Throw e /\ is_expired_slot e = true.

(** A poll that did not find the table: the RPC answered without a value, or
    it threw. *)
Definition unsuccessful_poll (r : Completion (option AddressLookupTableAccount))
  : Prop :=
  match r with
  | Return (Some _) => False
  | Return None => True
  | Throw _ => True
  end.

(* ================================================================= *)
(** ** Jito bundling (the jito-ts searcher path) *)

(** A message of the relay's result stream: [result.accepted] (with the slot)
    and [result.rejected] (with the reason) are present or absent. *)
Record BundleResult : Type := {
  bundleId : string;
  accepted : option nat;
  rejected : option string
}.

(** What the subscription of onBundleResult receives before its 30000 ms timer
    fires: a call of the result callback or of the error callback. *)
Inductive StreamEvent : Type :=
| onResult (result : BundleResult)
| onStreamError (e : Thrown).

(** The variables that onBundleResult's closures share, and the value its
    promise was resolved with, if it was. *)
Record ResultPromise : Type := {
  first : nat;
  isResolved : bool;
  settled : option nat
}.

(** [resolve(v)]: only the first call settles a promise. *)
Definition resolve (v : nat) (old : option nat) : option nat :=
  match old with
  | Some v0 => Some v0
  | None => Some v
  end.

Definition onBundleResult_start : ResultPromise :=
  {| first := 0; isResolved := false; settled := None |}.

(** The two callbacks handed to [c.onBundleResult]. *)
Definition onBundleResult_callback (p : ResultPromise) (ev : StreamEvent)
  : ResultPromise :=
  match ev with
  | onResult result =>
      if isResolved p then p
      else
        match accepted result with
        | Some _ =>
            {| first := first p + 1;
               isResolved := true;
               settled := resolve (first p + 1) (settled p) |}
        | None =>
            match rejected result with
            | Some _ => p
            | None => p
            end
        end
  | onStreamError _ => p
  end.

(** The [setTimeout] callback: [resolve(first); isResolved = true]. *)
Definition onBundleResult_timeout (p : ResultPromise) : ResultPromise :=
  {| first := first p;
     isResolved := true;
     settled := resolve (first p) (settled p) |}.

(** The value of the promise of onBundleResult, given the callbacks that ran
    before the timer fired.  An acceptance among them settles the promise at
    once; otherwise the timer settles it.  (Callbacks that run after the
    promise has settled return at [if (isResolved)], and a settled promise
    keeps its value.) *)
Definition onBundleResult (before_timeout : list StreamEvent) : nat :=
  let p := onBundleResult_timeout
             (fold_left onBundleResult_callback before_timeout
                        onBundleResult_start) in
  match settled p with
  | Some v => v
  | None => first p
  end.

(** jito-ts's [Bundle]: the transactions it holds and its limit. *)
Record Bundle : Type := {
  transactions : list VersionedTransaction;
  transactionLimit : nat
}.

(** The relay client ([SearcherClient] of jito-ts), the [Bundle] methods and
    the other library calls of the bundling module. *)
Record SearcherClient (W : Type) : Type := {
  getTipAccounts : Async W (list string);
  sendBundle : Bundle -> Async W string;
  (** the callbacks delivered after subscribing and before the 30000 ms
      timer fires *)
  bundleResultStream : W -> list StreamEvent * W
}.

Record JitoLibrary (W : Type) : Type := {
  (** [searcherClient(BLOCKENGINE_URL, ...)] *)
  searcherClient : Async W (SearcherClient W);
  (** the bundle object after [bund.addTransactions(...txs)]; the script
      ignores what the call returns *)
  addTransactions : Bundle -> list VersionedTransaction -> Bundle;
  (** [bund.addTipTx(keypair, fee, tipAccount, blockhash)]: a bundle or an
      Error value *)
  addTipTx : Bundle -> Keypair -> Z -> PublicKey -> string -> Bundle + Thrown;
  (** [new PublicKey(value)], which throws on [undefined] or on text that is
      not a key *)
  new_PublicKey : option string -> Completion PublicKey;
  Math_random : W -> Q * W;
  JITO_FEE : Z
}.

(** [array[index]] for an integer index. *)
Definition js_index {A} (array : list A) (index : Z) : option A :=
  if (index <? 0)%Z then None else nth_error array (Z.to_nat index).

(** [Math.floor(random * n)]. *)
Definition floor_scaled (random : Q) (n : nat) : Z :=
  Qfloor (random * inject_Z (Z.of_nat n)).

(** build_bundle's choice:
    [accounts[Math.min(Math.floor(Math.random() * accounts.length), 3)]]. *)
Definition build_bundle_tipAccount (accounts : list string) (random : Q)
  : option string :=
  js_index accounts (Z.min (floor_scaled random (length accounts)) 3).

(** jitoWithAxios: the hard-coded list and
    [tipAccounts[Math.floor(tipAccounts.length * Math.random())]]. *)
Definition tipAccounts : list string :=
  [ "Cw8CFyM9FkoMi7K7Crf6HNQqf4uEMzpKw6QNghXLvLkY";
    "DttWaMuVvTiduZRnguLF7jNxTgiMBZ1hyAumKUiL2KRL";
    "96gYZGLnJYVFmbjzopPSU6QiEV5fGqZNyN9nmNhvrZU5";
    "3AVi9Tg9Uo68tJfuvoKvqKNWKkC5wPdSSdeBnizKZ6jT";
    "HFqU5x63VTqvQss8hp11i4wVV8bD44PvwucfZ2bU7gRe";
    "ADaUMid9yfUytqMBgopwjb2DTLSokTSzL1zt6iGPaS49";
    "ADuUkR4vqLUMWXxW9gh6D6L8pMSawimctcNZ5pGwDcEt";
    "DfXygSm4jCyNCybVYYK6DwvWqjKee8pbDmJGcLWNDXjh" ].

Definition jitoWithAxios_jitoFeeWallet (random : Q) : option string :=
  js_index tipAccounts
           (Qfloor (inject_Z (Z.of_nat (length tipAccounts)) * random)).

Definition lift {W A} (c : Completion A) : Async W A := fun w => (c, w).

Section Bundling.
Variable W : Type.
Variable connection : Connection W.
Variable jito : JitoLibrary W.

Definition build_bundle (search : SearcherClient W)
           (bundleTransactionLimit : nat)
           (txs : list VersionedTransaction) (keypair : Keypair)
  : Async W Bundle :=
  try_catch
    (bind (getTipAccounts search) (fun accounts =>
     bind (fun w => let '(r, w') := Math_random jito w in (Return r, w'))
          (fun random =>
     let _tipAccount := build_bundle_tipAccount accounts random in
     bind (lift (new_PublicKey jito _tipAccount)) (fun tipAccount =>
     let bund := {| transactions := [];
                    transactionLimit := bundleTransactionLimit |} in
     bind (getLatestBlockhash connection "processed") (fun resp_blockhash =>
     let bund := addTransactions jito bund txs in
     match addTipTx jito bund keypair (JITO_FEE jito) tipAccount
                    resp_blockhash with
     | inr maybeBundle_error => throw maybeBundle_error
     | inl maybeBundle =>
         bind (sendBundle search maybeBundle) (fun _ => ret maybeBundle)
     end)))))
    (fun error => throw error).

(** [await onBundleResult(search)]: subscribe, let the 30 s pass, read the
    promise. *)
Definition await_onBundleResult (c : SearcherClient W) : Async W nat :=
  fun w =>
    let '(before_timeout, w') := bundleResultStream c w in
    (Return (onBundleResult before_timeout), w').

(** bull_dozer.  The bundle that build_bundle returns is an object, so the
    branch [if (maybeBundle) ... else return false] always takes its first
    arm. *)
Definition bull_dozer (txs : list VersionedTransaction) (keypair : Keypair)
  : Async W bool :=
  try_catch
    (let bundleTransactionLimit := 5 in
     bind (searcherClient jito) (fun search =>
     bind (build_bundle search bundleTransactionLimit txs keypair)
          (fun maybeBundle =>
     bind (await_onBundleResult search) (fun bundleResult =>
     if 0 <? bundleResult then ret true else ret false))))
    (fun error => ret false).

(** [Math.ceil(n / 5)] for a length [n]. *)
Definition Math_ceil_div5 (n : nat) : nat := (n + 4) / 5.

(** The inner loop of [bundle]:
    [for (let j = downIndex; j < upperIndex; j++) if (txs[j]) newTxs.push(txs[j])]. *)
Definition bundle_newTxs (txs : list VersionedTransaction) (i : nat)
  : list VersionedTransaction :=
  let upperIndex := (i + 1) * 5 in
  let downIndex := i * 5 in
  fold_left
    (fun newTxs j =>
       match nth_error txs j with
       | Some tx => newTxs ++ [tx]
       | None => newTxs
       end)
    (seq downIndex (upperIndex - downIndex)) [].

(** The outer loop of [bundle] over the sub-bundle numbers still to submit,
    for a given submission function. *)
Fixpoint bundle_loop (W' : Type)
         (submit : list VersionedTransaction -> Keypair -> Async W' bool)
         (txs : list VersionedTransaction) (keypair : Keypair)
         (indices : list nat) (successNum : nat) : Async W' nat :=
  match indices with
  | [] => ret successNum
  | i :: later =>
      bind (submit (bundle_newTxs txs i) keypair) (fun success =>
      bundle_loop submit txs keypair later
                  (if success then successNum + 1 else successNum))
  end.

Definition bundle_with (W' : Type)
           (submit : list VersionedTransaction -> Keypair -> Async W' bool)
           (txs : list VersionedTransaction) (keypair : Keypair)
  : Async W' bool :=
  try_catch
    (let txNum := Math_ceil_div5 (length txs) in
     bind (bundle_loop submit txs keypair (seq 0 txNum) 0) (fun successNum =>
     ret (successNum =? txNum)))
    (fun error => ret false).

(** [bundle] itself submits through bull_dozer. *)
Definition bundle (txs : list VersionedTransaction) (keypair : Keypair)
  : Async W bool :=
  bundle_with bull_dozer txs keypair.

End Bundling.

(** A call of a function of two arguments, logged with its first argument and
    its result. *)
Definition observed_call {W X Y A} (fn : X -> Y -> Async W A)
  : X -> Y -> Async (W * list (X * Completion A)) A :=
  fun x y wl =>
    let '(r, w') := fn x y (fst wl) in (r, (w', snd wl ++ [(x, r)])).

(** A result callback that carries no acceptance: a rejection, a message in
    an unknown state, or a stream error. *)
Definition no_acceptance (ev : StreamEvent) : Prop :=
  match ev with
  | onResult result => accepted result = None
  | onStreamError _ => True
  end.

Definition count_true (results : list bool) : nat :=
  length (filter (fun b : bool => b) results).

(* ----------------------------------------------------------------- *)
(** *** A relay to run the bundling code on *)

(** The two [Bundle] methods as jito-ts implements them: both refuse, with an
    Error value, to go over the transaction limit. *)
Definition jito_ts_addTransactions (bund : Bundle)
           (txs : list VersionedTransaction) : Bundle :=
  if transactionLimit bund <? length (transactions bund) + length txs
  then bund
  else {| transactions := transactions bund ++ txs;
          transactionLimit := transactionLimit bund |}.

Definition jito_ts_addTipTx (bund : Bundle) (keypair : Keypair) (tip : Z)
           (tipAccount : PublicKey) (blockhash : string) : Bundle + Thrown :=
  if transactionLimit bund <? length (transactions bund) + 1
  then inr (ErrorObj "exceeds transaction limit")
  else inl {| transactions :=
                transactions bund ++
                [ {| payerKey := publicKey keypair;
                     instructions :=
                       [SystemProgram_transfer (publicKey keypair) tipAccount tip];
                     recentBlockhash := blockhash;
                     addressLookupTableAccounts := [];
                     signers := [keypair] |} ];
              transactionLimit := transactionLimit bund |}.

(** A node that answers every request, over a world without state. *)
Definition quiet_connection : Connection unit :=
  {| getAddressLookupTable := fun _ => ret None;
     getLatestBlockhash := fun _ => ret "blockhash";
     getBalance := fun _ => ret 0%Z;
     sendTransaction := fun _ => ret "signature";
     confirmTransaction := fun _ _ => ret tt;
     simulateTransaction := fun _ => ret [] |}.

(** A relay that publishes the eight tip accounts, takes every bundle and
    then delivers the given callbacks before the timer fires. *)
Definition relay_delivering (stream : list StreamEvent) : JitoLibrary unit :=
  {| searcherClient :=
       ret {| getTipAccounts := ret tipAccounts;
              sendBundle := fun _ => ret "bundle-id";
              bundleResultStream := fun w => (stream, w) |};
     addTransactions := jito_ts_addTransactions;
     addTipTx := jito_ts_addTipTx;
     new_PublicKey :=
       fun value =>
         match value with
         | Some text => Return text
         | None => Throw (ErrorObj "Invalid public key input")
         end;
     Math_random := fun w => (0%Q, w);
     JITO_FEE := 1000%Z |}.

Definition payer_keypair : Keypair :=
  {| publicKey := "payer"; secretKey := "payer-secret" |}.

Definition rejection_message : BundleResult :=
  {| bundleId := "bundle-id";
     accepted := None;
     rejected := Some "simulation failure" |}.

Definition acceptance_message : BundleResult :=
  {| bundleId := "bundle-id";
     accepted := Some 1;
     rejected := None |}.

(* ================================================================= *)
(** ** The many-to-one sweep script *)

Definition MAX_WALLETS_PER_TRANSACTION : nat := 6.
Definition RENT_EXEMPT_MINIMUM : Z := 2039280.
Definition TRANSACTION_FEE : Z := 5000.
(** [null]: send all that is available. *)
Definition SEND_FIXED_AMOUNT : option Z := None.

(** The wallet a transfer instruction takes the funds from. *)
Definition fromPubkey_of (instruction : TransactionInstruction)
  : option PublicKey :=
  match instruction with
  | SystemProgram_transfer fromPubkey _ _ => Some fromPubkey
  | ProgramInstruction _ _ => None
  end.

(** [batchArray] as the scripts call it, with the batch sizes 4 and 6: with a
    positive batch size it always returns. *)
Definition batches_of {T} (array : list T) (batchSize : nat) : list (list T) :=
  match batchArray array batchSize with
  | Some batches => batches
  | None => []
  end.

(** [s] is [l] with some elements left out, the order kept. *)
Inductive subsequence {A : Type} : list A -> list A -> Prop :=
| subsequence_nil : forall l, subsequence [] l
| subsequence_take : forall x s l, subsequence s l -> subsequence (x :: s) (x :: l)
| subsequence_skip : forall x s l, subsequence s l -> subsequence s (x :: l).

Section Sweep.
Variable W : Type.
(** [transaction.serialize()], from the ledger library. *)
Variable serialize : VersionedTransaction -> list Byte.byte.

(** The amount chosen in step 2 for a wallet with enough balance. *)
Definition sweep_transferAmount (balance : Z) : Z :=
  match SEND_FIXED_AMOUNT with
  | Some fixed =>
      if negb (fixed =? 0)%Z
         && (fixed + RENT_EXEMPT_MINIMUM + TRANSACTION_FEE <=? balance)%Z
      then fixed
      else (balance - RENT_EXEMPT_MINIMUM - TRANSACTION_FEE)%Z
  | None => (balance - RENT_EXEMPT_MINIMUM - TRANSACTION_FEE)%Z
  end.

(** Step 2: [for (const wallet of wallets) { try { ... } catch { ... } }],
    with the two arrays the loop pushes to. *)
Fixpoint sweep_prepare (connection : Connection W)
         (destinationWallet : Keypair) (wallets : list Keypair)
         (transferInstructions : list TransactionInstruction)
         (signers : list Keypair)
  : Async W (list TransactionInstruction * list Keypair) :=
  match wallets with
  | [] => ret (transferInstructions, signers)
  | wallet :: later =>
      bind
        (try_catch
           (bind (getBalance connection (publicKey wallet)) (fun balance =>
            if (balance <=? RENT_EXEMPT_MINIMUM + TRANSACTION_FEE)%Z
            then ret (transferInstructions, signers)
            else
              let transferAmount := sweep_transferAmount balance in
              let transferInstruction :=
                SystemProgram_transfer (publicKey wallet)
                                       (publicKey destinationWallet)
                                       transferAmount in
              ret (transferInstructions ++ [transferInstruction],
                   signers ++ [wallet])))
           (fun error => ret (transferInstructions, signers)))
        (fun arrays =>
           sweep_prepare connection destinationWallet later
                         (fst arrays) (snd arrays))
  end.

(** simulateAndGetLogs: it only logs, and catches what the simulation
    throws. *)
Definition simulateAndGetLogs (connection : Connection W)
           (transaction : VersionedTransaction) : Async W unit :=
  try_catch
    (bind (simulateTransaction connection transaction) (fun logs => ret tt))
    (fun error => ret tt).

(** Step 3, the body of
    [for (let i = 0; i < instructionBatches.length; i++)] over the indices
    still to run.  Spreading [signerBatches[i]] throws a TypeError when the
    entry is missing. *)
Fixpoint sweep_send (connection : Connection W) (payerWallet : Keypair)
         (lookupTableAccount : AddressLookupTableAccount)
         (instructionBatches : list (list TransactionInstruction))
         (signerBatches : list (list Keypair))
         (indices : list nat) : Async W unit :=
  match indices with
  | [] => ret tt
  | i :: later =>
      match nth_error instructionBatches i, nth_error signerBatches i with
      | Some batchInstructions, Some batchSigners =>
          bind (getLatestBlockhash connection "finalized")
               (fun batchBlockhash =>
          let batchTransaction :=
            {| payerKey := publicKey payerWallet;
               instructions := batchInstructions;
               recentBlockhash := batchBlockhash;
               addressLookupTableAccounts := [lookupTableAccount];
               signers := payerWallet :: batchSigners |} in
          let transactionSize := length (serialize batchTransaction) in
          if 1232 <? transactionSize
          then sweep_send connection payerWallet lookupTableAccount
                          instructionBatches signerBatches later
          else
            bind (try_catch
                    (bind (sendTransaction connection batchTransaction)
                          (fun batchSignature => ret tt))
                    (fun error =>
                       simulateAndGetLogs connection batchTransaction))
                 (fun _ =>
            sweep_send connection payerWallet lookupTableAccount
                       instructionBatches signerBatches later))
      | _, _ => throw (ErrorObj "TypeError: undefined is not iterable")
      end
  end.

(** Steps 2 and 3 of the script, after the lookup table has been fetched. *)
Definition sweep (connection : Connection W)
           (payerWallet destinationWallet : Keypair)
           (wallets : list Keypair)
           (lookupTableAccount : AddressLookupTableAccount) : Async W unit :=
  bind (sweep_prepare connection destinationWallet wallets [] [])
       (fun arrays =>
  let transferInstructions := fst arrays in
  let signers := snd arrays in
  if length transferInstructions =? 0 then ret tt
  else
    let instructionBatches :=
      batches_of transferInstructions MAX_WALLETS_PER_TRANSACTION in
    let signerBatches := batches_of signers MAX_WALLETS_PER_TRANSACTION in
    sweep_send connection payerWallet lookupTableAccount
               instructionBatches signerBatches
               (seq 0 (length instructionBatches))).

(* --------------------------------------------------------------- *)
(** ** The bundled sell script *)

Definition MAX_WALLETS_PER_TX : nat := 4.

(** What the sell script takes from its own helper module and from the
    SDK: the token balance of a wallet ([null] when there is no account)
    and the sell instructions for a balance. *)
Record SellTools : Type := {
  getSPLBalance : PublicKey -> PublicKey -> Async W (option Q);
  getSellInstructionsByTokenAmount :
    PublicKey -> PublicKey -> Q -> Async W (list TransactionInstruction)
}.

Variable sleep : nat -> W -> W.

(** The inner loop [for (const wallet of batch)], with the two arrays it
    pushes to.  Nothing is caught here. *)
Fixpoint sell_collect (connection : Connection W) (sdk : SellTools)
         (splTokenMint : PublicKey) (batch : list Keypair)
         (instructions : list TransactionInstruction)
         (validSigners : list Keypair)
  : Async W (list TransactionInstruction * list Keypair) :=
  match batch with
  | [] => ret (instructions, validSigners)
  | wallet :: later =>
      bind (getSPLBalance sdk splTokenMint (publicKey wallet))
           (fun balance =>
      match balance with
      | None =>
          sell_collect connection sdk splTokenMint later
                       instructions validSigners
      | Some amount =>
          if Qeq_bool amount 0
          then sell_collect connection sdk splTokenMint later
                            instructions validSigners
          else
            bind (getSellInstructionsByTokenAmount sdk (publicKey wallet)
                    splTokenMint amount)
                 (fun sellInstructions =>
            sell_collect connection sdk splTokenMint later
                         (instructions ++ sellInstructions)
                         (validSigners ++ [wallet]))
      end)
  end.

(** The confirmation that the script retries five times, two seconds
    apart. *)
Definition sell_confirm (connection : Connection W) (txSignature : string)
  : Async W unit :=
  bind (getLatestBlockhash connection "confirmed") (fun latestBlockhash =>
  confirmTransaction connection txSignature latestBlockhash).

(** The [try { send; confirm with retries } catch { log }] block that ends
    an iteration of step 6. *)
Definition sell_submit (connection : Connection W)
           (transaction : VersionedTransaction) : Async W unit :=
  try_catch
    (bind (sendTransaction connection transaction) (fun txSignature =>
     bind (retryAsync sleep (sell_confirm connection txSignature) 5 2000)
          (fun _ => ret tt)))
    (fun error => ret tt).

(** Step 6: [for (const batch of walletBatches)]. *)
Fixpoint sell_send (connection : Connection W) (sdk : SellTools)
         (splTokenMint : PublicKey) (altAuthority : Keypair)
         (lookupTableAccount : AddressLookupTableAccount)
         (walletBatches : list (list Keypair)) : Async W unit :=
  match walletBatches with
  | [] => ret tt
  | batch :: later =>
      bind (sell_collect connection sdk splTokenMint batch [] [])
           (fun arrays =>
      let instructions_ := fst arrays in
      let validSigners := snd arrays in
      if length instructions_ =? 0
      then sell_send connection sdk splTokenMint altAuthority
                     lookupTableAccount later
      else
        bind (getLatestBlockhash connection "confirmed") (fun blockhash =>
        let transaction :=
          {| payerKey := publicKey altAuthority;
             instructions := instructions_;
             recentBlockhash := blockhash;
             addressLookupTableAccounts := [lookupTableAccount];
             signers := altAuthority :: validSigners |} in
        let size := length (serialize transaction) in
        if 1200 <? size
        then sell_send connection sdk splTokenMint altAuthority
                       lookupTableAccount later
        else
          bind (sell_submit connection transaction)
               (fun _ =>
          sell_send connection sdk splTokenMint altAuthority
                    lookupTableAccount later)))
  end.

Definition sell (connection : Connection W) (sdk : SellTools)
           (splTokenMint : PublicKey) (sellerWallets : list Keypair)
           (altAuthority : Keypair)
           (lookupTableAccount : AddressLookupTableAccount) : Async W unit :=
  sell_send connection sdk splTokenMint altAuthority lookupTableAccount
            (batches_of sellerWallets MAX_WALLETS_PER_TX).

End Sweep.

Definition sell_tools_unobserved {W L} (sdk : SellTools W)
  : SellTools (W * L) :=
  {| getSPLBalance := fun m a => unobserved (getSPLBalance sdk m a);
     getSellInstructionsByTokenAmount :=
       fun a m q => unobserved (getSellInstructionsByTokenAmount sdk a m q) |}.

(** A computation over an observed world that leaves the log as it found
    it. *)
Definition keeps_log {W L A} (m : Async (W * L) A) : Prop :=
  forall w log, snd (snd (m (w, log))) = log.

(** The signer that a transfer instruction needs is among the signers. *)
Definition sources_sign (transaction : VersionedTransaction) : Prop :=
  forall instruction,
    In instruction (instructions transaction) ->
    exists signer,
      In signer (signers transaction) /\
      fromPubkey_of instruction = Some (publicKey signer).

(** What the sweep script sends: a whole instruction batch, signed by the
    payer and by the signer batch of the same index, and within the size
    limit. *)
Definition sweep_whole_batch
           (serialize : VersionedTransaction -> list Byte.byte)
           (payerWallet : Keypair)
           (instructionBatches : list (list TransactionInstruction))
           (signerBatches : list (list Keypair))
           (tx : VersionedTransaction) : Prop :=
  length (serialize tx) <= 1232 /\
  exists i batchSigners,
    nth_error instructionBatches i = Some (instructions tx) /\
    nth_error signerBatches i = Some batchSigners /\
    signers tx = payerWallet :: batchSigners.

(* ----------------------------------------------------------------- *)
(** *** Operations to run the retry wrappers on *)

(** The world is the number of calls made so far. *)
Definition stale_slot_error : Thrown :=
  ErrorObj "failed to send transaction: 301 is not a recent slot".

Definition always_stale : Async nat string :=
  fun n => (Throw stale_slot_error, S n).

Definition always_broke : Async nat string :=
  fun n => (Throw (ErrorObj "insufficient funds for rent"), S n).

(** Fails with a stale slot until [k] calls have been made, then succeeds. *)
Definition stale_until (k : nat) : Async nat string :=
  fun n => if n <? k then (Throw stale_slot_error, S n)
           else (Return "signature", S n).

Definition no_sleep (ms : nat) (n : nat) : nat := n.

(* ================================================================= *)
(** ** Further definitions for the properties of the rest of the code *)

(** A result callback that carries an acceptance. *)
Definition is_acceptance (ev : StreamEvent) : bool :=
  match ev with
  | onResult result =>
      match accepted result with
      | Some _ => true
      | None => false
      end
  | onStreamError _ => false
  end.

(** The error fetchAndValidateALT throws when it gives up. *)
Definition fetchAndValidateALT_error (altAddress : PublicKey) : Thrown :=
  ErrorObj ("Failed to fetch or validate ALT at address " ++ altAddress).

(** getRandomPayer of the sweep and one-to-many scripts:
    [payers[Math.floor(Math.random() * payers.length)]]. *)
Definition getRandomPayer (payers : list Keypair) (random : Q) : option Keypair :=
  js_index payers (floor_scaled random (length payers)).

(** What step 2 of the sweep script produces for a wallet it does not skip:
    a transfer, to the destination, of all of the reported balance but the
    rent-exempt minimum and the fee. *)
Definition sweep_transfer_of {W} (connection : Connection W)
           (destinationWallet : Keypair)
           (instruction : TransactionInstruction) (signer : Keypair) : Prop :=
  exists balance w0 w1,
    getBalance connection (publicKey signer) w0 = (Return balance, w1) /\
    (RENT_EXEMPT_MINIMUM + TRANSACTION_FEE < balance)%Z /\
    instruction = SystemProgram_transfer (publicKey signer)
                                         (publicKey destinationWallet)
                                         (balance - RENT_EXEMPT_MINIMUM
                                          - TRANSACTION_FEE)%Z.

(** Values to run the sweep and sell loops on. *)
Definition sample_lookup_table : AddressLookupTableAccount :=
  {| key := "table"; addresses := ["launcher-1"; "launcher-2"] |}.

Definition launcher_1 : Keypair :=
  {| publicKey := "launcher-1"; secretKey := "secret-1" |}.

Definition launcher_2 : Keypair :=
  {| publicKey := "launcher-2"; secretKey := "secret-2" |}.

Definition no_bytes (tx : VersionedTransaction) : list Byte.byte := [].

(** What the sell script sends: a transaction paid by the lookup-table
    authority, with at least one instruction, signed by the authority
    followed by wallets of one wallet batch, in the order of the batch. *)
Definition sell_transaction_shape (altAuthority : Keypair)
           (walletBatches : list (list Keypair))
           (tx : VersionedTransaction) : Prop :=
  payerKey tx = publicKey altAuthority /\
  instructions tx <> [] /\
  exists batch validSigners,
    In batch walletBatches /\
    subsequence validSigners batch /\
    signers tx = altAuthority :: validSigners.

(* ================================================================= *)
(** ** index.ts: the launcher buy loop (step 4 of main) *)

Definition TRANSACTION_BATCH_SIZE : nat := 4.

(** What the buy loop takes from config.json and from the SDK.
    [launcherSolAmounts] is the config's map from a public key to an amount
    ([None] for an absent key or [null]); [lamports_of] is
    [BigInt(solAmount * LAMPORTS_PER_SOL)], which throws a RangeError when the
    product is not an integer. *)
Record BuyTools (W : Type) : Type := {
  launcherSolAmounts : PublicKey -> option Q;
  lamports_of : Q -> Completion Z;
  getBuyInstructionsBySolAmount :
    PublicKey -> PublicKey -> Z -> Async W (list TransactionInstruction)
}.

Definition buy_tools_unobserved {W L} (sdk : BuyTools W) : BuyTools (W * L) :=
  {| launcherSolAmounts := launcherSolAmounts sdk;
     lamports_of := lamports_of sdk;
     getBuyInstructionsBySolAmount :=
       fun a m z => unobserved (getBuyInstructionsBySolAmount sdk a m z) |}.

(** [launcherSolAmounts[key] || 0]. *)
Definition buy_solAmount {W} (sdk : BuyTools W) (launcher : Keypair) : Q :=
  match launcherSolAmounts sdk (publicKey launcher) with
  | Some amount => if Qeq_bool amount 0 then 0%Q else amount
  | None => 0%Q
  end.

Section BuyLoop.
Variable W : Type.

(** [for (const launcher of batch)], with the two arrays it pushes to. *)
Fixpoint buy_collect (sdk : BuyTools W) (mint : Keypair)
         (batch : list Keypair)
         (transactionInstructions : list TransactionInstruction)
         (signers_ : list Keypair)
  : Async W (list TransactionInstruction * list Keypair) :=
  match batch with
  | [] => ret (transactionInstructions, signers_)
  | launcher :: later =>
      let solAmount := buy_solAmount sdk launcher in
      bind (lift (lamports_of sdk solAmount)) (fun lamportsAmount =>
      bind (getBuyInstructionsBySolAmount sdk (publicKey launcher)
              (publicKey mint) lamportsAmount)
           (fun buyIx_instructions =>
      buy_collect sdk mint later
                  (transactionInstructions ++ buyIx_instructions)
                  (signers_ ++ [launcher])))
  end.

(** [for (let batchIndex = 0; batchIndex < launcherBatches.length; ...)]: the
    message is compiled without a lookup table, the transaction is sent
    without a look at its size, and a failed send is only logged.  The
    connection was created with the commitment "confirmed". *)
Fixpoint buy_send (connection : Connection W) (sdk : BuyTools W)
         (devBag mint : Keypair) (launcherBatches : list (list Keypair))
  : Async W unit :=
  match launcherBatches with
  | [] => ret tt
  | batch :: later =>
      bind (buy_collect sdk mint batch [] [devBag]) (fun arrays =>
      bind (getLatestBlockhash connection "confirmed") (fun blockhash =>
      let transaction :=
        {| payerKey := publicKey devBag;
           instructions := fst arrays;
           recentBlockhash := blockhash;
           addressLookupTableAccounts := [];
           signers := snd arrays |} in
      bind (try_catch
              (bind (sendTransaction connection transaction)
                    (fun txSignature => ret tt))
              (fun error => ret tt))
           (fun _ => buy_send connection sdk devBag mint later)))
  end.

Definition buy (connection : Connection W) (sdk : BuyTools W)
           (devBag mint : Keypair) (launcherWallets : list Keypair)
  : Async W unit :=
  buy_send connection sdk devBag mint
           (batches_of launcherWallets TRANSACTION_BATCH_SIZE).

End BuyLoop.

(* ================================================================= *)
(** ** The one-to-many script: building the transactions (step 3) *)

(** [AMOUNT_TO_SEND_SOL * 1e9] with [AMOUNT_TO_SEND_SOL = 0.01]; the double
    product is exactly ten million. *)
Definition AMOUNT_TO_SEND_LAMPORTS : Z := 10000000.

(** [recipients.map((recipient) => SystemProgram.transfer({...}))]. *)
Definition oneToMany_transferInstructions (sourceWallet : Keypair)
           (recipients : list PublicKey) : list TransactionInstruction :=
  map (fun recipient =>
         SystemProgram_transfer (publicKey sourceWallet) recipient
                                AMOUNT_TO_SEND_LAMPORTS)
      recipients.

(** The transaction built from one slice of the instructions. *)
Definition oneToMany_transaction (payerWallet sourceWallet : Keypair)
           (lookupTableAccount : AddressLookupTableAccount)
           (blockhash : string)
           (batchInstructions : list TransactionInstruction)
  : VersionedTransaction :=
  {| payerKey := publicKey payerWallet;
     instructions := batchInstructions;
     recentBlockhash := blockhash;
     addressLookupTableAccounts := [lookupTableAccount];
     signers := [payerWallet; sourceWallet] |}.

(** [for (let i = 0; i < transferInstructions.length; i += batchSize)] with
    the array of transactions it pushes to; [None] when the fuel runs out. *)
Fixpoint oneToMany_loop (fuel : nat) (payerWallet sourceWallet : Keypair)
         (lookupTableAccount : AddressLookupTableAccount) (blockhash : string)
         (transferInstructions : list TransactionInstruction)
         (batchSize i : nat) (transactions_ : list VersionedTransaction)
  : option (list VersionedTransaction) :=
  if i <? length transferInstructions then
    match fuel with
    | 0 => None
    | S fuel' =>
        let batchInstructions :=
          slice transferInstructions i (i + batchSize) in
        oneToMany_loop fuel' payerWallet sourceWallet lookupTableAccount
          blockhash transferInstructions batchSize (i + batchSize)
          (transactions_ ++
             [oneToMany_transaction payerWallet sourceWallet
                lookupTableAccount blockhash batchInstructions])
    end
  else Some transactions_.

Definition oneToMany_transactions (payerWallet sourceWallet : Keypair)
           (lookupTableAccount : AddressLookupTableAccount) (blockhash : string)
           (recipients : list PublicKey) : option (list VersionedTransaction) :=
  let transferInstructions :=
    oneToMany_transferInstructions sourceWallet recipients in
  let batchSize := 5 in
  oneToMany_loop (length transferInstructions) payerWallet sourceWallet
                 lookupTableAccount blockhash transferInstructions batchSize 0 [].

(* ================================================================= *)
(** ** jitoWithAxios: submission over the relay's JSON-RPC endpoint *)

(** What jitoWithAxios calls besides the connection.  [post_sendBundle]
    posts the "sendBundle" request and reads [response.data?.result];
    [post_getBundleStatuses] posts "getBundleStatuses" and reads
    [response.data.result?.value?.[0]]; [confirm_tip] is
    [confirmTransaction] on the tip transaction, giving
    [confirmation.value.err]; [base58_serialize] is
    [base58.encode(tx.serialize())]. *)
Record JitoAxios (W : Type) : Type := {
  axios_random : W -> Q * W;
  axios_JITO_FEE : Z;
  base58_serialize : VersionedTransaction -> string;
  post_sendBundle : list string -> Async W (option string);
  post_getBundleStatuses : string -> Async W (option string);
  confirm_tip : VersionedTransaction -> string -> Async W (option string)
}.

(** The object jitoWithAxios returns; [bundleStatus] is present only when the
    status was asked for, and may then be [undefined] or [null]. *)
Record JitoResult : Type := {
  confirmed : bool;
  result_bundleId : option string;
  bundleStatus : option (option string)
}.

Definition jito_not_confirmed : JitoResult :=
  {| confirmed := false; result_bundleId := None; bundleStatus := None |}.

(** A bundle id that passes [if (!bundleId)]: present and not empty. *)
Definition truthy_string (value : option string) : option string :=
  match value with
  | Some text => if String.eqb text "" then None else Some text
  | None => None
  end.

(** [!confirmation.value.err]. *)
Definition no_error (err : option string) : bool :=
  match err with
  | Some _ => false
  | None => true
  end.

Section JitoWithAxios.
Variable W : Type.
Variable connection : Connection W.
Variable relay : JitoAxios W.

(** getBundleStatuses: the status, or [null] when the request throws. *)
Definition getBundleStatuses (bundleId_ : string) : Async W (option string) :=
  try_catch (post_getBundleStatuses relay bundleId_) (fun error => ret None).

Definition jitoFeeTx_of (payer : Keypair) (jitoFeeWallet : PublicKey)
           (blockhash : string) : VersionedTransaction :=
  {| payerKey := publicKey payer;
     instructions :=
       [SystemProgram_transfer (publicKey payer) jitoFeeWallet
                               (axios_JITO_FEE relay)];
     recentBlockhash := blockhash;
     addressLookupTableAccounts := [];
     signers := [payer] |}.

(** jitoWithAxios.  The fee wallet is chosen before the [try]; every entry of
    the hard-coded list is the text of a key, so [new PublicKey] only throws
    on [undefined].  [getLatestBlockhash()] is called without a commitment,
    written here as the empty text. *)
Definition jitoWithAxios (transactions_ : list VersionedTransaction)
           (payer : Keypair) (checkBundleStatus : bool) : Async W JitoResult :=
  bind (fun w => let '(r, w') := axios_random relay w in (Return r, w'))
       (fun random =>
  bind (lift (match jitoWithAxios_jitoFeeWallet random with
              | Some text => Return text
              | None => Throw (ErrorObj "Invalid public key input")
              end))
       (fun jitoFeeWallet =>
  try_catch
    (bind (getLatestBlockhash connection "") (fun latestBlockhash =>
     let jitoFeeTx := jitoFeeTx_of payer jitoFeeWallet latestBlockhash in
     let serializedTransactions :=
       [base58_serialize relay jitoFeeTx]
         ++ map (base58_serialize relay) transactions_ in
     bind (post_sendBundle relay serializedTransactions) (fun response_result =>
     match truthy_string response_result with
     | None => ret jito_not_confirmed
     | Some bundleId_ =>
         bind (confirm_tip relay jitoFeeTx latestBlockhash) (fun err =>
         if checkBundleStatus
         then
           bind (getBundleStatuses bundleId_) (fun status =>
           ret {| confirmed := no_error err;
                  result_bundleId := Some bundleId_;
                  bundleStatus := Some status |})
         else
           ret {| confirmed := no_error err;
                  result_bundleId := Some bundleId_;
                  bundleStatus := None |})
     end)))
    (fun error => ret jito_not_confirmed))).

End JitoWithAxios.

(** A relay endpoint that logs the payload of every "sendBundle" request and
    every tip transaction it is asked to confirm. *)
Inductive AxiosCall : Type :=
| posted (payload : list string)
| confirming (tipTx : VersionedTransaction).

Definition axios_observed {W} (relay : JitoAxios W)
  : JitoAxios (W * list AxiosCall) :=
  {| axios_random := fun wl => let '(r, w') := axios_random relay (fst wl) in
                               (r, (w', snd wl));
     axios_JITO_FEE := axios_JITO_FEE relay;
     base58_serialize := base58_serialize relay;
     post_sendBundle :=
       fun payload wl =>
         let '(r, w') := post_sendBundle relay payload (fst wl) in
         (r, (w', snd wl ++ [posted payload]));
     post_getBundleStatuses :=
       fun id => unobserved (post_getBundleStatuses relay id);
     confirm_tip :=
       fun tx blockhash wl =>
         let '(r, w') := confirm_tip relay tx blockhash (fst wl) in
         (r, (w', snd wl ++ [confirming tx])) |}.

Definition connection_unobserved {W L} (connection : Connection W)
  : Connection (W * L) :=
  {| getAddressLookupTable := fun a => unobserved (getAddressLookupTable connection a);
     getLatestBlockhash := fun c => unobserved (getLatestBlockhash connection c);
     getBalance := fun a => unobserved (getBalance connection a);
     sendTransaction := fun t => unobserved (sendTransaction connection t);
     confirmTransaction := fun s b => unobserved (confirmTransaction connection s b);
     simulateTransaction := fun t => unobserved (simulateTransaction connection t) |}.

(** A relay for examples: the draw is one half, every bundle gets the id
    "bundle-id" and the tip transaction confirms without error. *)
Definition relay_accepting : JitoAxios unit :=
  {| axios_random := fun w => (1 # 2, w);
     axios_JITO_FEE := 1000000;
     base58_serialize := fun tx => recentBlockhash tx;
     post_sendBundle := fun _ => ret (Some "bundle-id");
     post_getBundleStatuses := fun _ => ret (Some "Landed");
     confirm_tip := fun _ _ => ret None |}.

(* ================================================================= *)
(** ** The create-and-buy script: its sendTransaction helper and buy loop *)

Definition MAX_TRANSACTION_SIZE : nat := 1232.

(** [`${n}`] for a size. *)
Definition decimal (n : nat) : string :=
  NilZero.string_of_uint (Nat.to_uint n).

(** What the buy loop takes from the configuration file and from the SDK:
    the configured amounts, [BigInt(solAmount * LAMPORTS_PER_SOL)], which
    throws on a product that is not an integer, and [getBuyInstructions]. *)
Record CreateAndBuyTools (W : Type) : Type := {
  launcherWalletSolAmounts : PublicKey -> option Q;
  to_lamports : Q -> Completion Z;
  getBuyInstructions :
    PublicKey -> PublicKey -> PublicKey -> Z -> Z
    -> Async W (list TransactionInstruction)
}.

Definition createAndBuy_tools_unobserved {W L} (sdk : CreateAndBuyTools W)
  : CreateAndBuyTools (W * L) :=
  {| launcherWalletSolAmounts := launcherWalletSolAmounts sdk;
     to_lamports := to_lamports sdk;
     getBuyInstructions :=
       fun a m f x y => unobserved (getBuyInstructions sdk a m f x y) |}.

(** [config.launcherWalletSolAmounts[key] || 0.05]. *)
Definition createAndBuy_solAmount {W} (sdk : CreateAndBuyTools W)
           (launcher : Keypair) : Q :=
  match launcherWalletSolAmounts sdk (publicKey launcher) with
  | Some amount => if Qeq_bool amount 0 then (5 # 100)%Q else amount
  | None => (5 # 100)%Q
  end.

(** The transaction the helper builds and signs with [[payer, ...signers]]. *)
Definition helper_transaction (payer : Keypair)
           (instructions_ : list TransactionInstruction)
           (lookupTableAccount : list AddressLookupTableAccount)
           (signers_ : list Keypair) (blockhash : string)
  : VersionedTransaction :=
  {| payerKey := publicKey payer;
     instructions := instructions_;
     recentBlockhash := blockhash;
     addressLookupTableAccounts := lookupTableAccount;
     signers := payer :: signers_ |}.

Section CreateAndBuy.
Variable W : Type.
Variable connection : Connection W.
Variable serialize : VersionedTransaction -> list Byte.byte.

(** The script's own sendTransaction; [getLatestBlockhash()] is called
    without a commitment, and an absent [lookupTableAccount] is the empty
    list. *)
Definition sendTransaction_helper (payer : Keypair)
           (instructions_ : list TransactionInstruction)
           (lookupTableAccount : list AddressLookupTableAccount)
           (signers_ : list Keypair) : Async W string :=
  bind (getLatestBlockhash connection "") (fun blockhash =>
  let transaction :=
    helper_transaction payer instructions_ lookupTableAccount signers_
                       blockhash in
  let serializedSize := length (serialize transaction) in
  if MAX_TRANSACTION_SIZE <? serializedSize
  then throw (ErrorObj ("Transaction size (" ++ decimal serializedSize
                          ++ " bytes) exceeds the limit."))
  else bind (sendTransaction connection transaction)
            (fun signature => ret signature)).

(** The script's fetchLookupTable: one request, no retry. *)
Definition fetchLookupTable_once (lookupTableAddress : PublicKey)
  : Async W AddressLookupTableAccount :=
  bind (getAddressLookupTable connection lookupTableAddress)
       (fun lookupTableAccount_value =>
          match lookupTableAccount_value with
          | Some value => ret value
          | None => throw (ErrorObj ("Failed to fetch ALT: "
                                       ++ lookupTableAddress))
          end).

(** Step 4, [for (const launcher of launcherWallets)]: nothing in the body
    is inside a [try]. *)
Fixpoint createAndBuy_buys (sdk : CreateAndBuyTools W)
         (devBag mint : Keypair) (feeRecipient lookupTableAddress : PublicKey)
         (launcherWallets : list Keypair) : Async W unit :=
  match launcherWallets with
  | [] => ret tt
  | launcher :: later =>
      let solAmount := createAndBuy_solAmount sdk launcher in
      bind (lift (to_lamports sdk solAmount)) (fun lamportsAmount =>
      bind (getBuyInstructions sdk (publicKey launcher) (publicKey mint)
              feeRecipient lamportsAmount lamportsAmount)
           (fun buyInstructions_instructions =>
      bind (fetchLookupTable_once lookupTableAddress) (fun table =>
      bind (sendTransaction_helper devBag buyInstructions_instructions
              [table] [launcher]) (fun _ =>
      createAndBuy_buys sdk devBag mint feeRecipient lookupTableAddress
                        later))))
  end.

End CreateAndBuy.

(* ================================================================= *)
(** ** The bonding-curve script: the retry loop of one launcher *)

(** [sdk.buy(...)] reduced to [buyResults.success], and [printSPLBalance]
    of the utility module. *)
Record BondingTools (W : Type) : Type := {
  sdk_buy : Keypair -> PublicKey -> Z -> Z -> Async W bool;
  printSPLBalance : PublicKey -> PublicKey -> Async W unit
}.

(** How one pass through the body of the retry loop ends: at a [break],
    with the value [success] has then, or at the end of the body. *)
Inductive LoopControl : Type :=
| loop_break (success : bool)
| loop_continue.

(** [SLIPPAGE_BASIS_POINTS + BigInt(retry * 100)]. *)
Definition dynamicSlippage_of (retry : nat) : Z :=
  (100 + Z.of_nat (retry * 100))%Z.

Section BondingRetry.
Variable W : Type.
Variable connection : Connection W.
Variable sdk : BondingTools W.

(** [for (let retry = 0; retry < 3; retry++)] over the values of [retry]
    still to run; the result is the value of [success] after the loop. *)
Fixpoint bonding_retry (launcher mint : Keypair) (lamportsAmount : Z)
         (retries : list nat) : Async W bool :=
  match retries with
  | [] => ret false
  | retry :: later =>
      let dynamicSlippage := dynamicSlippage_of retry in
      bind (try_catch
              (bind (getBalance connection (publicKey launcher))
                    (fun walletBalance =>
               if (walletBalance <? lamportsAmount)%Z
               then ret (loop_break false)
               else
                 bind (sdk_buy sdk launcher (publicKey mint) lamportsAmount
                               dynamicSlippage) (fun buyResults_success =>
                 if buyResults_success
                 then bind (printSPLBalance sdk (publicKey mint)
                                            (publicKey launcher))
                           (fun _ => ret (loop_break true))
                 else ret loop_continue)))
              (fun e => ret loop_continue))
           (fun control =>
              match control with
              | loop_break success => ret success
              | loop_continue => bonding_retry launcher mint lamportsAmount later
              end)
  end.

Definition bonding_buy (launcher mint : Keypair) (lamportsAmount : Z)
  : Async W bool :=
  bonding_retry launcher mint lamportsAmount (seq 0 3).

End BondingRetry.

(** The SDK with its buys logged: the slippage asked for and the result. *)
Definition buys_observed {W} (sdk : BondingTools W)
  : BondingTools (W * list (Z * Completion bool)) :=
  {| sdk_buy :=
       fun buyer mint amount slippage wl =>
         let '(r, w') := sdk_buy sdk buyer mint amount slippage (fst wl) in
         (r, (w', snd wl ++ [(slippage, r)]));
     printSPLBalance :=
       fun mint owner => unobserved (printSPLBalance sdk mint owner) |}.

(** Tools for examples: every buy succeeds, and the balance print fails. *)
Definition sdk_print_fails : BondingTools unit :=
  {| sdk_buy := fun _ _ _ _ => ret true;
     printSPLBalance := fun _ _ => throw (ErrorObj "could not find account") |}.

(* ================================================================= *)
(** ** The wallet console: updateConfig *)

Section UpdateConfig.
(** The values of [config.launcherWalletSolAmounts] as parsed from JSON,
    with JavaScript's truthiness and with [null]. *)
Variable V : Type.
Variable truthy : V -> bool.
Variable null : V.
(** [inherited key]: [key] names a property of [Object.prototype]; reading
    it from an object without an own property of that name gives a function
    or an object, which is truthy. *)
Variable inherited : string -> bool.

(** The own properties of an object, a name occurring at most once. *)
Definition JsObject : Type := list (string * V).

Fixpoint own (object : JsObject) (key : string) : option V :=
  match object with
  | [] => None
  | (name, value) :: rest =>
      if String.eqb name key then Some value else own rest key
  end.

(** [object[key] = value]: an own property keeps its place, a new one goes
    last. *)
Fixpoint assign (object : JsObject) (key : string) (value : V) : JsObject :=
  match object with
  | [] => [(key, value)]
  | (name, old) :: rest =>
      if String.eqb name key then (name, value) :: rest
      else (name, old) :: assign rest key value
  end.

(** [delete object[key]]. *)
Definition delete (object : JsObject) (key : string) : JsObject :=
  filter (fun property => negb (String.eqb (fst property) key)) object.

(** [!object[key]]. *)
Definition lacks (object : JsObject) (key : string) : bool :=
  match own object key with
  | Some value => negb (truthy value)
  | None => negb (inherited key)
  end.

(** [launchers.forEach(...)], on the public keys of launchers.json, which
    holds them as text. *)
Definition updateConfig_fill (launchers : list string) (amounts : JsObject)
  : JsObject :=
  fold_left (fun object publicKey_ =>
               if lacks object publicKey_
               then assign object publicKey_ null
               else object)
            launchers amounts.

(** [for (const publicKey in launcherWalletSolAmounts)]: the names are those
    the object has when the loop starts; the body deletes only the name it
    is visiting. *)
Definition updateConfig_prune (launchers : list string) (amounts : JsObject)
  : JsObject :=
  fold_left (fun object publicKey_ =>
               if existsb (String.eqb publicKey_) launchers
               then object
               else delete object publicKey_)
            (map fst amounts) amounts.

(** The [launcherWalletSolAmounts] that updateConfig writes back. *)
Definition updateConfig_amounts (launchers : list string)
           (amounts : JsObject) : JsObject :=
  updateConfig_prune launchers (updateConfig_fill launchers amounts).

(** What updateConfig leaves under a launcher's key. *)
Definition kept_amount (key : string) (before : option V) : option V :=
  match before with
  | Some value => Some (if truthy value then value else null)
  | None => if inherited key then None else Some null
  end.

End UpdateConfig.

(* ================================================================= *)
(** ** raydiumSwapTokens *)

(** A JavaScript number as far as the comparisons of the validation go. *)
Inductive JsNumber : Type :=
| finite (value : Q)
| NaN
| Infinity
| NegInfinity.

(** [x <= 0]. *)
Definition le_zero (x : JsNumber) : bool :=
  match x with
  | finite value => Qle_bool value 0
  | NaN => false
  | Infinity => false
  | NegInfinity => true
  end.

(** [x > 100]. *)
Definition gt_hundred (x : JsNumber) : bool :=
  match x with
  | finite value => negb (Qle_bool value 100)
  | NaN => false
  | Infinity => true
  | NegInfinity => false
  end.

(** [!text] for a string. *)
Definition is_empty (text : string) : bool := String.eqb text "".

(** What raydiumSwapTokens takes from the libraries, over the pools [Pool]
    and the transactions [Tx] of the Raydium SDK: [open_wallet] is
    [new Connection(rpcEndpoint, "confirmed")] followed by
    [Keypair.fromSecretKey(bs58.decode(privateKey))]; [amountOutMin_of] is
    [Math.floor((1 - slippage / 100) * pool.outputTokenAmount)]; an absent
    pool or transaction is [None]. *)
Record RaydiumTools (W Pool Tx : Type) : Type := {
  open_wallet : string -> string -> Completion Keypair;
  Raydium_load : Keypair -> Async W unit;
  fetchPoolByMints : string -> string -> Async W (option Pool);
  amountOutMin_of : JsNumber -> Pool -> JsNumber;
  buildSwapTransaction :
    Pool -> JsNumber -> JsNumber -> PublicKey -> Async W (option Tx);
  swap_sendTransaction : Tx -> Keypair -> Async W string
}.

Record SwapParams : Type := {
  rpcEndpoint : string;
  privateKey : string;
  inputMint : string;
  outputMint : string;
  amountIn : JsNumber;
  slippage : JsNumber
}.

Definition invalid_parameters : string :=
  "Invalid parameters: Ensure all required fields are provided and valid.".

Definition invalid_slippage : string :=
  "Invalid slippage: Slippage must be between 0 and 100.".

Section RaydiumSwap.
Variables W Pool Tx : Type.
Variable raydium : RaydiumTools W Pool Tx.

Definition raydiumSwapTokens (params : SwapParams) : Async W string :=
  if is_empty (rpcEndpoint params) || is_empty (privateKey params)
     || is_empty (inputMint params) || is_empty (outputMint params)
     || le_zero (amountIn params)
  then throw (ErrorObj invalid_parameters)
  else if le_zero (slippage params) || gt_hundred (slippage params)
  then throw (ErrorObj invalid_slippage)
  else
    try_catch
      (bind (lift (open_wallet raydium (rpcEndpoint params)
                               (privateKey params))) (fun wallet =>
       bind (Raydium_load raydium wallet) (fun _ =>
       bind (fetchPoolByMints raydium (inputMint params) (outputMint params))
            (fun pool_ =>
       match pool_ with
       | None => throw (ErrorObj "No pool found for the given token pair.")
       | Some pool =>
           let amountOutMin :=
             amountOutMin_of raydium (slippage params) pool in
           bind (buildSwapTransaction raydium pool (amountIn params)
                   amountOutMin (publicKey wallet)) (fun transaction_ =>
           match transaction_ with
           | None => throw (ErrorObj "Failed to build swap transaction.")
           | Some transaction =>
               bind (swap_sendTransaction raydium transaction wallet)
                    (fun signature => ret signature)
           end)
       end))))
      (fun err =>
         throw (ErrorObj ("Raydium Swap failed: " ++ message_of err))).

End RaydiumSwap.

(** The tools with every request logged: loading the SDK, the pool query,
    building and sending. *)
Inductive RaydiumCall (Tx : Type) : Type :=
| loaded
| pool_queried
| built
| sent (transaction : Tx) (result : Completion string).

Arguments loaded {Tx}.
Arguments pool_queried {Tx}.
Arguments built {Tx}.

Definition raydium_observed {W Pool Tx} (raydium : RaydiumTools W Pool Tx)
  : RaydiumTools (W * list (RaydiumCall Tx)) Pool Tx :=
  {| open_wallet := open_wallet raydium;
     Raydium_load :=
       fun wallet wl =>
         let '(r, w') := Raydium_load raydium wallet (fst wl) in
         (r, (w', snd wl ++ [loaded]));
     fetchPoolByMints :=
       fun mint1 mint2 wl =>
         let '(r, w') := fetchPoolByMints raydium mint1 mint2 (fst wl) in
         (r, (w', snd wl ++ [pool_queried]));
     amountOutMin_of := amountOutMin_of raydium;
     buildSwapTransaction :=
       fun pool a m owner wl =>
         let '(r, w') := buildSwapTransaction raydium pool a m owner (fst wl) in
         (r, (w', snd wl ++ [built]));
     swap_sendTransaction :=
       fun transaction wallet wl =>
         let '(r, w') :=
           swap_sendTransaction raydium transaction wallet (fst wl) in
         (r, (w', snd wl ++ [sent transaction r])) |}.

(** The requests of a log that are sends. *)
Fixpoint sends_of {Tx} (log : list (RaydiumCall Tx))
  : list (Tx * Completion string) :=
  match log with
  | [] => []
  | sent transaction result :: rest => (transaction, result) :: sends_of rest
  | _ :: rest => sends_of rest
  end.

(* ================================================================= *)
(** ** The bundles handed to the relay *)

(** The relay client with the bundles given to [sendBundle] logged. *)
Definition client_bundles_observed {W} (search : SearcherClient W)
  : SearcherClient (W * list Bundle) :=
  {| getTipAccounts := unobserved (getTipAccounts search);
     sendBundle := observed_arg (sendBundle search);
     bundleResultStream :=
       fun wl => let '(events, w') := bundleResultStream search (fst wl) in
                 (events, (w', snd wl)) |}.

Definition bundles_observed {W} (jito : JitoLibrary W)
  : JitoLibrary (W * list Bundle) :=
  {| searcherClient :=
       fun wl =>
         let '(r, w') := searcherClient jito (fst wl) in
         (match r with
          | Return search => Return (client_bundles_observed search)
          | Throw e => Throw e
          end, (w', snd wl));
     addTransactions := addTransactions jito;
     addTipTx := addTipTx jito;
     new_PublicKey := new_PublicKey jito;
     Math_random := fun wl => let '(r, w') := Math_random jito (fst wl) in
                              (r, (w', snd wl));
     JITO_FEE := JITO_FEE jito |}.

(* ================================================================= *)
(** * Properties *)

(* ================================================================= *)
(** ** batchArray partitions its input *)

Section BatchArrayFacts.
Variable T : Type.
Implicit Types (array : list T) (batches : list (list T)).

Lemma slice_length array i n :
  length (slice array i (i + n)) = Nat.min n (length array - i).
Proof.
  unfold slice. replace (i + n - i) with n by lia.
  now rewrite length_firstn, length_skipn.
Qed.

Lemma slice_skipn array i n :
  slice array i (i + n) ++ skipn (i + n) array = skipn i array.
Proof.
  unfold slice. replace (i + n - i) with n by lia.
  rewrite (Nat.add_comm i n), <- skipn_skipn.
  apply firstn_skipn.
Qed.

Lemma chunks_left_done len batchSize i :
  0 < batchSize -> len <= i -> chunks_left len batchSize i = 0.
Proof.
  intros Hb Hi. unfold chunks_left.
  apply Nat.div_small. lia.
Qed.

Lemma chunks_left_step len batchSize i :
  0 < batchSize -> i < len ->
  chunks_left len batchSize i = S (chunks_left len batchSize (i + batchSize)).
Proof.
  intros Hb Hi. unfold chunks_left.
  destruct (le_lt_dec (i + batchSize) len) as [Hfull | Hshort].
  - replace (len - i + batchSize - 1)
      with ((len - (i + batchSize) + batchSize - 1) + 1 * batchSize) by lia.
    rewrite Nat.div_add by lia. lia.
  - replace (len - (i + batchSize) + batchSize - 1) with (batchSize - 1) by lia.
    rewrite (Nat.div_small (batchSize - 1)) by lia.
    symmetry. apply (Nat.div_unique _ _ 1 (len - i - 1)); lia.
Qed.

Lemma full_but_last_cons batchSize b batches :
  0 < length b <= batchSize ->
  (batches <> [] -> length b = batchSize) ->
  full_but_last batchSize batches ->
  full_but_last batchSize (b :: batches).
Proof.
  intros Hb Hfull Hrest. destruct batches as [| c rest]; simpl.
  - exact Hb.
  - split; [apply Hfull; discriminate | exact Hrest].
Qed.

Lemma full_but_last_nth batchSize batches :
  0 < batchSize ->
  full_but_last batchSize batches ->
  forall k b, nth_error batches k = Some b ->
    0 < length b <= batchSize /\
    (S k < length batches -> length b = batchSize).
Proof.
  intros Hpos. induction batches as [| c rest IH]; intros Hf k b Hk.
  - destruct k; discriminate.
  - destruct rest as [| d rest'].
    + destruct k as [| k]; simpl in Hk.
      * injection Hk as <-. simpl in *. split; [exact Hf | lia].
      * destruct k; discriminate.
    + destruct Hf as [Hc Hf]. destruct k as [| k]; simpl in Hk.
      * injection Hk as <-. split; [lia | auto].
      * destruct (IH Hf k b Hk) as [H1 H2]. split; [exact H1 |].
        intros Hlt. apply H2. simpl in *. lia.
Qed.

(** Loop invariant: started at [i] with enough fuel, the loop appends to
    the accumulator a list of chunks that covers [array] from [i] on. *)
Lemma batchArray_loop_spec batchSize array :
  0 < batchSize ->
  forall fuel i acc,
    length array - i <= fuel ->
    exists rest,
      batchArray_loop fuel array batchSize i acc = Some (acc ++ rest) /\
      concat rest = skipn i array /\
      length rest = chunks_left (length array) batchSize i /\
      full_but_last batchSize rest.
Proof.
  intros Hb. induction fuel as [| fuel IH]; intros i acc Hfuel.
  - exists []. simpl.
    assert (Hi : length array <= i) by lia.
    apply Nat.ltb_ge in Hi as Hi'. rewrite Hi'.
    rewrite app_nil_r, skipn_all2 by exact Hi.
    rewrite chunks_left_done by assumption. auto.
  - simpl. destruct (Nat.ltb_spec i (length array)) as [Hlt | Hge].
    + destruct (IH (i + batchSize) (acc ++ [slice array i (i + batchSize)]))
        as (rest & Hrun & Hcat & Hlen & Hfull); [lia |].
      exists (slice array i (i + batchSize) :: rest).
      rewrite Hrun, <- app_assoc. cbn [concat length app].
      rewrite Hcat, slice_skipn, Hlen.
      rewrite (chunks_left_step (len := length array) (i := i)) by assumption.
      split; [reflexivity | split; [reflexivity | split; [reflexivity |]]].
      apply full_but_last_cons; [rewrite slice_length; lia | | exact Hfull].
      intros Hne. rewrite slice_length.
      destruct (le_lt_dec (length array) (i + batchSize)) as [Hdone | Hmore]; [| lia].
      rewrite chunks_left_done in Hlen by assumption.
      destruct rest; [congruence | discriminate].
    + exists []. rewrite app_nil_r, skipn_all2 by exact Hge.
      rewrite chunks_left_done by assumption. simpl. auto.
Qed.

Lemma batchArray_spec array batchSize :
  0 < batchSize ->
  exists batches,
    batchArray array batchSize = Some batches /\
    concat batches = array /\
    length batches = (length array + batchSize - 1) / batchSize /\
    full_but_last batchSize batches.
Proof.
  intros Hb.
  destruct (@batchArray_loop_spec batchSize array Hb (length array) 0 [])
    as (rest & Hrun & Hcat & Hlen & Hfull); [lia |].
  exists rest. unfold batchArray. rewrite Hrun. simpl.
  unfold chunks_left in Hlen. rewrite Nat.sub_0_r in Hlen. auto.
Qed.

(** C3. For every array and every positive batch size, [batchArray]
    returns a list of chunks whose concatenation is the array itself (the
    order is kept), with [ceil (n / batchSize)] chunks, every chunk but the
    last of exactly [batchSize] elements and the last one of between 1 and
    [batchSize] elements; twelve elements in batches of five give three
    chunks of sizes 5, 5 and 2. *)
Theorem batchArray_partition array batchSize :
  0 < batchSize ->
  exists batches,
    batchArray array batchSize = Some batches /\
    concat batches = array /\
    length batches = (length array + batchSize - 1) / batchSize /\
    (forall k b, nth_error batches k = Some b ->
       0 < length b <= batchSize /\
       (S k < length batches -> length b = batchSize)) /\
    (length array = 12 -> batchSize = 5 -> map (@length T) batches = [5; 5; 2]).
Proof.
  intros Hb.
  destruct (@batchArray_spec array batchSize Hb) as (batches & Hrun & Hcat & Hlen & Hfull).
  exists batches.
  split; [exact Hrun | split; [exact Hcat | split; [exact Hlen | split]]].
  - intros k b Hk. eapply full_but_last_nth; eassumption.
  - intros H12 H5. subst batchSize. rewrite H12 in Hlen.
    change ((12 + 5 - 1) / 5) with 3 in Hlen.
    destruct batches as [| b1 [| b2 [| b3 [| b4 rest]]]]; try discriminate.
    simpl in Hfull. destruct Hfull as (H1 & H2 & _).
    assert (Hsum : length (concat [b1; b2; b3]) = 12) by now rewrite Hcat.
    simpl in Hsum. rewrite !length_app in Hsum. simpl in Hsum.
    simpl. repeat f_equal; lia.
Qed.

End BatchArrayFacts.

Lemma batchArray_partition_witness :
  0 < 5 /\
  exists batches,
    batchArray [1;2;3;4;5;6;7;8;9;10;11;12] 5 = Some batches /\
    map (@length nat) batches = [5; 5; 2].
Proof.
  split; [lia |].
  destruct (@batchArray_partition nat [1;2;3;4;5;6;7;8;9;10;11;12] 5)
    as (batches & Hrun & _ & _ & _ & Hsizes); [lia |].
  exists batches. split; [exact Hrun | apply Hsizes; reflexivity].
Defined.

(* ================================================================= *)
(** ** The retry wrappers *)

Section RetryFacts.
Variable W : Type.

(** What [includes] computes: the needle occurs somewhere in the haystack. *)
Lemma prefix_app (p s : string) :
  String.prefix p s = true <-> exists post, s = (p ++ post)%string.
Proof.
  revert s. induction p as [| c p IH]; intros s.
  - split; [intros _; now exists s | intros _; now destruct s].
  - destruct s as [| d s]; simpl.
    + split; [discriminate | intros [post H]; discriminate].
    + destruct (Ascii.ascii_dec c d) as [-> | Hne].
      * rewrite IH. split; intros [post H]; exists post; congruence.
      * split; [discriminate | intros [post H]; congruence].
Qed.

Lemma includes_unfold (haystack needle : string) :
  includes haystack needle =
  if String.prefix needle haystack then true
  else match haystack with
       | EmptyString => false
       | String _ rest => includes rest needle
       end.
Proof. destruct haystack; reflexivity. Qed.

Lemma includes_spec (haystack needle : string) :
  includes haystack needle = true <->
  exists pre post, haystack = (pre ++ needle ++ post)%string.
Proof.
  induction haystack as [| c rest IH]; rewrite includes_unfold.
  - destruct (String.prefix needle "") eqn:Hp.
    + apply prefix_app in Hp as [post Hp].
      split; [intros _; now exists ""%string, post | reflexivity].
    + split; [discriminate |].
      intros ([| c pre] & post & H).
      * assert (String.prefix needle "" = true)
          by (apply prefix_app; now exists post).
        congruence.
      * discriminate.
  - destruct (String.prefix needle (String c rest)) eqn:Hp.
    + apply prefix_app in Hp as [post Hp].
      split; [intros _; now exists ""%string, post | reflexivity].
    + rewrite IH. split.
      * intros (pre & post & ->). now exists (String c pre), post.
      * intros ([| d pre] & post & H).
        -- assert (String.prefix needle (String c rest) = true)
             by (apply prefix_app; now exists post).
           congruence.
        -- simpl in H. injection H as _ ->. now exists pre, post.
Qed.

(** Logging the calls changes neither the result nor the world. *)
Lemma retryTransaction_from_observed (fn : Async W string) (retries : nat) :
  forall attempts w log,
    outcome (retryTransaction_from (observed fn) retries attempts (w, log))
    = fst (retryTransaction_from fn retries attempts w) /\
    fst (snd (retryTransaction_from (observed fn) retries attempts (w, log)))
    = snd (retryTransaction_from fn retries attempts w).
Proof.
  induction attempts as [| attempt later IH]; intros w log;
    [split; reflexivity |].
  cbn [retryTransaction_from]. unfold try_catch, observed. cbn [fst snd].
  destruct (fn w) as [[v | e] w1]; [split; reflexivity |].
  destruct (is_expired_slot e && (attempt <? retries));
    [apply IH | split; reflexivity].
Qed.

(** The calls made and the result, for a run of retryTransaction's loop
    over the attempts [a, a+1, ..., retries]. *)
Lemma retryTransaction_from_trace (fn : Async W string) (retries : nat) :
  forall n a w log0,
    a + n = S retries ->
    exists tr,
      calls (retryTransaction_from (observed fn) retries (seq a n) (w, log0))
        = log0 ++ tr /\
      length tr <= n /\
      Forall (fun r => exists w0, fst (fn w0) = r) tr /\
      ((n = 0 /\ tr = [] /\
        outcome (retryTransaction_from (observed fn) retries (seq a n) (w, log0))
          = Throw (ErrorObj "Transaction failed after all retries."))
       \/
       exists pre last,
         tr = pre ++ [last] /\
         Forall recoverable_failure pre /\
         outcome (retryTransaction_from (observed fn) retries (seq a n) (w, log0))
           = last /\
         (forall e, last = Throw e ->
                    is_expired_slot e = false \/ length tr = n)).
Proof.
  induction n as [| n IH]; intros a w log0 Ha.
  - exists []. simpl. rewrite app_nil_r.
    split; [reflexivity | split; [lia | split; [constructor | left; auto]]].
  - cbn [seq retryTransaction_from].
    unfold try_catch at 1 2 3. unfold observed at 1 3 5. cbn [fst snd].
    destruct (fn w) as [[v | e] w1] eqn:Hfn.
    + exists [Return v]. cbn. split; [reflexivity | split; [lia |]].
      split; [constructor; [exists w; now rewrite Hfn | constructor] |].
      right. exists [], (Return v). repeat split; auto. discriminate.
    + destruct (is_expired_slot e && (a <? retries)) eqn:Hretry.
      * apply andb_true_iff in Hretry as [Hexp Hlt].
        apply Nat.ltb_lt in Hlt.
        destruct (IH (S a) w1 (log0 ++ [Throw e]))
          as (tr & Hcalls & Hlen & Hfrom & Hcases); [lia |].
        exists (Throw e :: tr). rewrite Hcalls, <- app_assoc.
        split; [reflexivity | split; [simpl; lia |]].
        split; [constructor; [exists w; now rewrite Hfn | exact Hfrom] |].
        destruct Hcases as [(Hn & _) | (pre & last & -> & Hpre & Hout & Hlast)];
          [lia |].
        right. exists (Throw e :: pre), last.
        split; [reflexivity | split; [| split; [exact Hout |]]].
        -- constructor; [now exists e | exact Hpre].
        -- intros e' He'. destruct (Hlast e' He') as [Hf | Hl]; [now left |].
           right. simpl in *. lia.
      * exists [Throw e]. cbn. split; [reflexivity | split; [lia |]].
        split; [constructor; [exists w; now rewrite Hfn | constructor] |].
        right. exists [], (Throw e). repeat split; auto.
        intros e' [= <-].
        apply andb_false_iff in Hretry as [Hexp | Hlt]; [now left |].
        apply Nat.ltb_ge in Hlt. right. lia.
Qed.

Lemma nth_error_snoc (A : Type) (pre : list A) (last : A) k r :
  nth_error (pre ++ [last]) k = Some r ->
  (k < length pre /\ nth_error pre k = Some r) \/
  (k = length pre /\ r = last).
Proof.
  intros Hk. destruct (Nat.lt_ge_cases k (length pre)) as [Hlt | Hge].
  - left. now rewrite nth_error_app1 in Hk.
  - right. rewrite nth_error_app2 in Hk by exact Hge.
    destruct (k - length pre) as [| j] eqn:Hj; simpl in Hk.
    + split; [lia | congruence].
    + destruct j; discriminate.
Qed.

Lemma Forall_nth_error (A : Type) (P : A -> Prop) (l : list A) k r :
  Forall P l -> nth_error l k = Some r -> P r.
Proof.
  intros Hall Hk. rewrite Forall_forall in Hall.
  apply Hall. eapply nth_error_In; eassumption.
Qed.

(** C5. retryTransaction classifies a failure as recoverable exactly when
    the thrown value is an Error whose message contains "not a recent
    slot".  In every run (logging the calls does not change the result) it
    calls the operation at most [retries] times; a
    recoverable failure on attempt [k+1 < retries] is followed by another
    attempt; any other failure, and any failure on attempt [retries], is
    the last call of the run and is what the wrapper throws. *)
Theorem retryTransaction_classifies_failures
        (fn : Async W string) (retries : nat) (w : W) :
  let run := retryTransaction (observed fn) retries (w, []) in
  outcome run = fst (retryTransaction fn retries w) /\
  (forall m, is_expired_slot (ErrorObj m) = true <->
             exists pre post, m = (pre ++ "not a recent slot" ++ post)%string) /\
  (forall v, is_expired_slot (OtherValue v) = false) /\
  length (calls run) <= retries /\
  (forall k e, nth_error (calls run) k = Some (Throw e) ->
               is_expired_slot e = true -> S k < retries ->
               S k < length (calls run)) /\
  (forall k e, nth_error (calls run) k = Some (Throw e) ->
               is_expired_slot e = false \/ S k = retries ->
               S k = length (calls run) /\ outcome run = Throw e).
Proof.
  intros run.
  split; [apply retryTransaction_from_observed |].
  split; [intros m; apply includes_spec |].
  split; [reflexivity |].
  destruct (@retryTransaction_from_trace fn retries retries 1 w [])
    as (tr & Hcalls & Hlen & _ & Hcases); [reflexivity |].
  fold (retryTransaction (observed fn) retries) in Hcalls, Hcases.
  fold run in Hcalls, Hcases. simpl in Hcalls. rewrite Hcalls.
  split; [exact Hlen |].
  destruct Hcases as [(_ & -> & _) | (pre & last & -> & Hpre & Hout & Hlast)].
  - split; intros [| k] e Hk; discriminate.
  - rewrite length_app in *. simpl in *. split.
    + intros k e Hk Hexp Hlt.
      apply nth_error_snoc in Hk as [[Hin _] | [-> Hk]]; [lia |].
      destruct (Hlast e (eq_sym Hk)); [congruence | lia].
    + intros k e Hk Hfatal.
      apply nth_error_snoc in Hk as [[Hin Hk] | [-> Hk]].
      * destruct (@Forall_nth_error _ recoverable_failure pre k _ Hpre Hk)
          as (e' & [= <-] & Hexp).
        destruct Hfatal; [congruence | lia].
      * split; [lia | congruence].
Qed.

(** X4. When every call of the operation fails with a recoverable error,
    retryTransaction calls it exactly [retries] times and then throws, for
    every [retries], zero included. *)
Lemma retryTransaction_exhausts (fn : Async W string) (retries : nat) (w : W) :
  (forall w0, recoverable_failure (fst (fn w0))) ->
  let run := retryTransaction (observed fn) retries (w, []) in
  length (calls run) = retries /\ exists e, outcome run = Throw e.
Proof.
  intros Hfail run.
  destruct (@retryTransaction_from_trace fn retries retries 1 w [])
    as (tr & Hcalls & Hlen & Hfrom & Hcases); [reflexivity |].
  fold (retryTransaction (observed fn) retries) in Hcalls, Hcases.
  fold run in Hcalls, Hcases. simpl in Hcalls. rewrite Hcalls.
  destruct Hcases as [(-> & -> & Hout) | (pre & last & -> & Hpre & Hout & Hlast)].
  - split; [reflexivity | eauto].
  - apply Forall_app in Hfrom as [_ Hl].
    apply Forall_inv in Hl as (w0 & Hw0).
    destruct (Hfail w0) as (e & He & Hexp). rewrite Hw0 in He.
    split; [| exists e; congruence].
    destruct (Hlast e He); [congruence | assumption].
Qed.

Variable sleep : nat -> W -> W.

(** One iteration of retryAsync's loop on an observed operation. *)
Lemma retryAsync_from_step (A : Type) (fn : Async W A) (retries delayMs : nat)
      i later w log0 :
  retryAsync_from (sleep_unobserved sleep) (observed fn) retries delayMs
                  (i :: later) (w, log0)
  = match fn w with
    | (Return v, w1) => (Return (Some v), (w1, log0 ++ [Return v]))
    | (Throw e, w1) =>
        if i =? retries - 1
        then (Throw (ErrorObj ("Exceeded maximum retries for operation: "
                                 ++ message_of e)),
              (w1, log0 ++ [Throw e]))
        else retryAsync_from (sleep_unobserved sleep) (observed fn)
                             retries delayMs later
                             (sleep delayMs w1, log0 ++ [Throw e])
    end.
Proof.
  cbn [retryAsync_from]. unfold try_catch, bind, observed. cbn [fst snd].
  destruct (fn w) as [[v | e] w1]; [reflexivity |].
  destruct (i =? retries - 1); reflexivity.
Qed.

Lemma retryAsync_from_observed (A : Type) (fn : Async W A) (retries delayMs : nat) :
  forall indices w log,
    outcome (retryAsync_from (sleep_unobserved sleep) (observed fn)
                             retries delayMs indices (w, log))
    = fst (retryAsync_from sleep fn retries delayMs indices w) /\
    fst (snd (retryAsync_from (sleep_unobserved sleep) (observed fn)
                              retries delayMs indices (w, log)))
    = snd (retryAsync_from sleep fn retries delayMs indices w).
Proof.
  induction indices as [| i later IH]; intros w log; [split; reflexivity |].
  rewrite retryAsync_from_step. cbn [retryAsync_from].
  unfold try_catch, bind, wait. 
  destruct (fn w) as [[v | e] w1]; [split; reflexivity |].
  destruct (i =? retries - 1); [split; reflexivity | apply IH].
Qed.

(** The calls made and the result, for a run of retryAsync's loop over
    the indices [a, a+1, ..., retries - 1]. *)
Lemma retryAsync_from_trace (A : Type) (fn : Async W A) (retries delayMs : nat) :
  forall n a w log0,
    a + n = retries ->
    exists tr,
      calls (retryAsync_from (sleep_unobserved sleep) (observed fn)
                             retries delayMs (seq a n) (w, log0))
        = log0 ++ tr /\
      length tr <= n /\
      Forall (fun r => exists w0, fst (fn w0) = r) tr /\
      ((n = 0 /\ tr = [] /\
        outcome (retryAsync_from (sleep_unobserved sleep) (observed fn)
                                 retries delayMs (seq a n) (w, log0))
          = Return None)
       \/
       exists pre last,
         tr = pre ++ [last] /\
         Forall (fun r => is_Throw r = true) pre /\
         match last with
         | Return v =>
             outcome (retryAsync_from (sleep_unobserved sleep) (observed fn)
                                      retries delayMs (seq a n) (w, log0))
               = Return (Some v)
         | Throw e =>
             length tr = n /\
             outcome (retryAsync_from (sleep_unobserved sleep) (observed fn)
                                      retries delayMs (seq a n) (w, log0))
               = Throw (ErrorObj ("Exceeded maximum retries for operation: "
                                    ++ message_of e))
         end).
Proof.
  induction n as [| n IH]; intros a w log0 Ha.
  - exists []. simpl. rewrite app_nil_r.
    split; [reflexivity | split; [lia | split; [constructor | left; auto]]].
  - cbn [seq]. rewrite retryAsync_from_step.
    destruct (fn w) as [[v | e] w1] eqn:Hfn.
    + exists [Return v].
      split; [reflexivity | split; [simpl; lia |]].
      split; [constructor; [exists w; now rewrite Hfn | constructor] |].
      right. exists [], (Return v).
      split; [reflexivity | split; [constructor | reflexivity]].
    + destruct (a =? retries - 1) eqn:Hlast.
      * apply Nat.eqb_eq in Hlast.
        exists [Throw e].
        split; [reflexivity | split; [simpl; lia |]].
        split; [constructor; [exists w; now rewrite Hfn | constructor] |].
        right. exists [], (Throw e).
        split; [reflexivity | split; [constructor | split; [simpl; lia |]]].
        reflexivity.
      * apply Nat.eqb_neq in Hlast.
        destruct (IH (S a) (sleep delayMs w1) (log0 ++ [Throw e]))
          as (tr & Hcalls & Hlen & Hfrom & Hcases); [lia |].
        exists (Throw e :: tr). rewrite Hcalls, <- app_assoc.
        split; [reflexivity | split; [simpl; lia |]].
        split; [constructor; [exists w; now rewrite Hfn | exact Hfrom] |].
        destruct Hcases as [(Hn & _) | (pre & last & -> & Hpre & Hout)];
          [lia |].
        right. exists (Throw e :: pre), last.
        split; [reflexivity | split; [constructor; [reflexivity | exact Hpre] |]].
        destruct last as [v | e']; [exact Hout |].
        destruct Hout as [Hl Hout]. split; [simpl in *; lia | exact Hout].
Qed.



End RetryFacts.

(* ================================================================= *)
(** ** Waiting for the lookup table *)

Section LookupTableFacts.
Variable W : Type.
Variable sleep : nat -> W -> W.
Variable connection : Connection W.
Variable lookupTableAddress : PublicKey.

Let poll := getAddressLookupTable connection lookupTableAddress.
Let timeout_error :=
  ErrorObj "Failed to fetch the Address Lookup Table account after retries.".

(** One iteration of fetchLookupTable's loop on an observed connection. *)
Lemma fetchLookupTable_from_step delayMs i later w log0 :
  fetchLookupTable_from (sleep_unobserved sleep) (polls_observed connection)
                        lookupTableAddress delayMs (i :: later) (w, log0)
  = match poll w with
    | (Return (Some value), w1) =>
        (Return value, (w1, log0 ++ [Return (Some value)]))
    | (r, w1) =>
        fetchLookupTable_from (sleep_unobserved sleep)
                              (polls_observed connection)
                              lookupTableAddress delayMs later
                              (sleep delayMs w1, log0 ++ [r])
    end.
Proof.
  cbn [fetchLookupTable_from]. unfold try_catch, bind, polls_observed, observed.
  cbn [getAddressLookupTable fst snd]. unfold poll.
  destruct (getAddressLookupTable connection lookupTableAddress w)
    as [[[value |] | e] w1]; reflexivity.
Qed.

Lemma fetchLookupTable_from_observed delayMs :
  forall indices w log,
    outcome (fetchLookupTable_from (sleep_unobserved sleep)
               (polls_observed connection) lookupTableAddress delayMs
               indices (w, log))
    = fst (fetchLookupTable_from sleep connection lookupTableAddress delayMs
                                 indices w) /\
    fst (snd (fetchLookupTable_from (sleep_unobserved sleep)
                (polls_observed connection) lookupTableAddress delayMs
                indices (w, log)))
    = snd (fetchLookupTable_from sleep connection lookupTableAddress delayMs
                                 indices w).
Proof.
  induction indices as [| i later IH]; intros w log; [split; reflexivity |].
  rewrite fetchLookupTable_from_step. cbn [fetchLookupTable_from].
  unfold try_catch, bind, wait, poll.
  destruct (getAddressLookupTable connection lookupTableAddress w)
    as [[[value |] | e] w1]; [split; reflexivity | apply IH | apply IH].
Qed.

(** The polls made and the result, for a run of the loop over any list of
    indices. *)
Lemma fetchLookupTable_from_trace delayMs :
  forall indices w log0,
    exists tr,
      calls (fetchLookupTable_from (sleep_unobserved sleep)
               (polls_observed connection) lookupTableAddress delayMs
               indices (w, log0))
        = log0 ++ tr /\
      ((Forall unsuccessful_poll tr /\ length tr = length indices /\
        outcome (fetchLookupTable_from (sleep_unobserved sleep)
                   (polls_observed connection) lookupTableAddress delayMs
                   indices (w, log0))
          = Throw timeout_error)
       \/
       exists pre value,
         tr = pre ++ [Return (Some value)] /\
         Forall unsuccessful_poll pre /\
         length tr <= length indices /\
         outcome (fetchLookupTable_from (sleep_unobserved sleep)
                    (polls_observed connection) lookupTableAddress delayMs
                    indices (w, log0))
           = Return value).
Proof.
  induction indices as [| i later IH]; intros w log0.
  - exists []. rewrite app_nil_r. split; [reflexivity |].
    left. split; [constructor | split; reflexivity].
  - rewrite fetchLookupTable_from_step.
    destruct (poll w) as [[[value |] | e] w1].
    + exists [Return (Some value)]. split; [reflexivity |].
      right. exists [], value.
      split; [reflexivity | split; [constructor | split; [simpl; lia | reflexivity]]].
    + destruct (IH (sleep delayMs w1) (log0 ++ [Return None]))
        as (tr & Hcalls & Hcases).
      exists (Return None :: tr). rewrite Hcalls, <- app_assoc.
      split; [reflexivity |].
      destruct Hcases as [(Hall & Hlen & Hout)
                         | (pre & value & -> & Hpre & Hlen & Hout)].
      * left. split; [constructor; [exact I | exact Hall] |].
        split; [simpl; lia | exact Hout].
      * right. exists (Return None :: pre), value.
        split; [reflexivity | split; [constructor; [exact I | exact Hpre] |]].
        split; [simpl in *; lia | exact Hout].
    + destruct (IH (sleep delayMs w1) (log0 ++ [Throw e]))
        as (tr & Hcalls & Hcases).
      exists (Throw e :: tr). rewrite Hcalls, <- app_assoc.
      split; [reflexivity |].
      destruct Hcases as [(Hall & Hlen & Hout)
                         | (pre & value & -> & Hpre & Hlen & Hout)].
      * left. split; [constructor; [exact I | exact Hall] |].
        split; [simpl; lia | exact Hout].
      * right. exists (Throw e :: pre), value.
        split; [reflexivity | split; [constructor; [exact I | exact Hpre] |]].
        split; [simpl in *; lia | exact Hout].
Qed.

Lemma unsuccessful_not_found (l : list (Completion (option AddressLookupTableAccount)))
      k value :
  Forall unsuccessful_poll l -> nth_error l k <> Some (Return (Some value)).
Proof.
  intros Hall Hk.
  exact (@Forall_nth_error _ unsuccessful_poll l k _ Hall Hk).
Qed.

(** C6. fetchLookupTable (whose result does not change when its polls are
    logged) polls the table at most [retries] times.  It
    returns a snapshot exactly when its last poll found that snapshot and
    every poll before it was unsuccessful, so a poll that finds the table
    ends the loop at once; it throws exactly when it made [retries] polls
    and all of them were unsuccessful, and the error is then the
    fetch-failure error of the function. *)
Theorem fetchLookupTable_polls_until_active (retries delayMs : nat) (w : W) :
  let run := fetchLookupTable (sleep_unobserved sleep)
               (polls_observed connection) lookupTableAddress
               retries delayMs (w, []) in
  outcome run
  = fst (fetchLookupTable sleep connection lookupTableAddress retries delayMs w) /\
  length (calls run) <= retries /\
  (forall value,
      outcome run = Return value <->
      exists pre, calls run = pre ++ [Return (Some value)] /\
                  Forall unsuccessful_poll pre) /\
  (forall k value,
      nth_error (calls run) k = Some (Return (Some value)) ->
      S k = length (calls run) /\ outcome run = Return value) /\
  (forall e,
      outcome run = Throw e <->
      e = timeout_error /\ length (calls run) = retries /\
      Forall unsuccessful_poll (calls run)).
Proof.
  intros run.
  split; [apply fetchLookupTable_from_observed |].
  destruct (fetchLookupTable_from_trace delayMs (seq 0 retries) w [])
    as (tr & Hcalls & Hcases).
  fold (fetchLookupTable (sleep_unobserved sleep) (polls_observed connection)
          lookupTableAddress retries delayMs (w, [])) in Hcalls, Hcases.
  fold run in Hcalls, Hcases. simpl in Hcalls. rewrite Hcalls.
  rewrite length_seq in Hcases.
  destruct Hcases as [(Hall & Hlen & Hout)
                     | (pre & value & -> & Hpre & Hlen & Hout)].
  - split; [lia |]. rewrite Hout. split; [| split].
    + intros value. split; [discriminate |].
      intros (pre & -> & _). apply Forall_app in Hall as [_ Hl].
      apply Forall_inv in Hl. contradiction.
    + intros k value Hk. now apply unsuccessful_not_found in Hk.
    + intros e. split; [intros [= <-]; auto | intros (-> & _); reflexivity].
  - split; [exact Hlen |]. rewrite Hout. split; [| split].
    + intros v. split.
      * intros [= <-]. now exists pre.
      * intros (pre' & Heq & _). apply app_inj_tail in Heq as [_ Heq].
        congruence.
    + intros k v Hk. apply nth_error_snoc in Hk as [[_ Hk] | [-> Hk]].
      * now apply unsuccessful_not_found in Hk.
      * rewrite length_app. simpl. split; [lia | congruence].
    + intros e. split; [discriminate |].
      intros (_ & _ & Hall). apply Forall_app in Hall as [_ Hl].
      apply Forall_inv in Hl. contradiction.
Qed.

(** index.ts, fetchAndValidateALT runs the same loop: it succeeds exactly
    when fetchLookupTable does, after the same polls, and otherwise throws
    its own error. *)
Lemma fetchAndValidateALT_from_as_fetchLookupTable (c : Connection W) delayMs :
  forall attempts indices w,
    length attempts = length indices ->
    fetchAndValidateALT_from sleep c lookupTableAddress delayMs attempts w
    = match fetchLookupTable_from sleep c lookupTableAddress delayMs indices w with
      | (Return _, w') => (Return tt, w')
      | (Throw _, w') =>
          (Throw (ErrorObj ("Failed to fetch or validate ALT at address "
                              ++ lookupTableAddress)), w')
      end.
Proof.
  induction attempts as [| a attempts IH]; intros [| i indices] w Hlen;
    try discriminate.
  - reflexivity.
  - cbn [fetchAndValidateALT_from fetchLookupTable_from].
    unfold try_catch, bind, ret, wait.
    destruct (getAddressLookupTable c lookupTableAddress w) as [[[value |] | e] w1];
      try reflexivity; apply IH; simpl in Hlen; lia.
Qed.

End LookupTableFacts.

(* ================================================================= *)
(** ** The relay's result stream *)

Lemma callbacks_without_acceptance (events : list StreamEvent) :
  Forall no_acceptance events ->
  forall p, fold_left onBundleResult_callback events p = p.
Proof.
  induction 1 as [| ev events Hev _ IH]; intros p; [reflexivity |].
  simpl. replace (onBundleResult_callback p ev) with p; [apply IH |].
  destruct ev as [result | e]; simpl in *; [| reflexivity].
  rewrite Hev. destruct (isResolved p), (rejected result); reflexivity.
Qed.

Lemma onBundleResult_no_acceptance (events : list StreamEvent) :
  Forall no_acceptance events -> onBundleResult events = 0.
Proof.
  intros Hev. unfold onBundleResult.
  now rewrite callbacks_without_acceptance.
Qed.

Section BundlingFacts.
Variable W : Type.
Variable connection : Connection W.
Variable jito : JitoLibrary W.

(** bull_dozer catches everything: it always returns a boolean. *)
Lemma bull_dozer_returns txs keypair w :
  exists success w', bull_dozer connection jito txs keypair w = (Return success, w').
Proof.
  unfold bull_dozer, try_catch.
  match goal with |- context [match ?body w with _ => _ end] =>
    destruct (body w) as [[success | e] w'] end; unfold ret; eauto.
Qed.

(** C2, as the code has it.  When no acceptance arrives before the 30 s
    timer fires, the promise of onBundleResult resolves to 0, whether the
    relay stayed silent or sent rejections, and bull_dozer returns false:
    the caller gets the same answer for a timeout as for a rejection. *)
Theorem bull_dozer_without_acceptance_returns_false txs keypair w :
  (forall w0 search w1,
      searcherClient jito w0 = (Return search, w1) ->
      forall w2, Forall no_acceptance (fst (bundleResultStream search w2))) ->
  (forall events, Forall no_acceptance events -> onBundleResult events = 0) /\
  fst (bull_dozer connection jito txs keypair w) = Return false.
Proof.
  intros Hquiet. split; [exact onBundleResult_no_acceptance |].
  unfold bull_dozer, try_catch, bind.
  destruct (searcherClient jito w) as [[search | e] w1] eqn:Hsearch;
    [| reflexivity].
  destruct (build_bundle connection jito search 5 txs keypair w1)
    as [[maybeBundle | e] w2]; [| reflexivity].
  unfold await_onBundleResult.
  specialize (Hquiet w search w1 Hsearch w2).
  destruct (bundleResultStream search w2) as [events w3]. simpl in Hquiet.
  rewrite (onBundleResult_no_acceptance Hquiet). reflexivity.
Qed.

End BundlingFacts.

Lemma bull_dozer_without_acceptance_witness :
  fst (bull_dozer quiet_connection
                  (relay_delivering [onResult rejection_message])
                  [] payer_keypair tt) = Return false.
Proof.
  apply (@bull_dozer_without_acceptance_returns_false
           unit quiet_connection (relay_delivering [onResult rejection_message])
           [] payer_keypair tt).
  intros w0 search w1 [= <-] w2. simpl.
  constructor; [reflexivity | constructor].
Defined.

(** C2 as stated fails: a relay that stays silent until the timeout and a
    relay that answers with a rejection give bull_dozer's caller the same
    value, [false], so the two outcomes are not reported distinctly. *)
Lemma timeout_not_distinct_from_rejection :
  let timed_out :=
    fst (bull_dozer quiet_connection (relay_delivering [])
                    [] payer_keypair tt) in
  let rejected :=
    fst (bull_dozer quiet_connection
                    (relay_delivering [onResult rejection_message])
                    [] payer_keypair tt) in
  let accepted :=
    fst (bull_dozer quiet_connection
                    (relay_delivering [onResult acceptance_message])
                    [] payer_keypair tt) in
  accepted = Return true /\
  timed_out = Return false /\
  rejected = Return false /\
  ~ timed_out <> rejected.
Proof.
  vm_compute. repeat split. intros H. now apply H.
Qed.

(* ================================================================= *)
(** ** Splitting into sub-bundles *)

Lemma skipn_nth_error_cons (A : Type) (l : list A) j x :
  nth_error l j = Some x -> skipn j l = x :: skipn (S j) l.
Proof.
  revert j. induction l as [| y l IH]; intros [| j] Hj; try discriminate.
  - now injection Hj as ->.
  - simpl in Hj. now apply IH.
Qed.

Lemma firstn_plus (A : Type) (a b : nat) (l : list A) :
  firstn (a + b) l = firstn a l ++ firstn b (skipn a l).
Proof.
  revert l. induction a as [| a IH]; intros [| x l]; simpl;
    try reflexivity.
  - now rewrite firstn_nil.
  - now rewrite IH.
Qed.

(** The inner loop of [bundle] copies the slice [txs.slice(5*i, 5*i + 5)]. *)
Lemma pick_present_slice (txs : list VersionedTransaction) :
  forall n j newTxs,
    fold_left
      (fun newTxs j =>
         match nth_error txs j with
         | Some tx => newTxs ++ [tx]
         | None => newTxs
         end)
      (seq j n) newTxs
    = newTxs ++ firstn n (skipn j txs).
Proof.
  induction n as [| n IH]; intros j newTxs.
  - simpl. now rewrite app_nil_r.
  - cbn [seq fold_left]. rewrite IH.
    destruct (nth_error txs j) as [tx |] eqn:Hj.
    + rewrite (@skipn_nth_error_cons _ txs j tx Hj). simpl.
      now rewrite <- app_assoc.
    + apply nth_error_None in Hj.
      rewrite !skipn_all2 by lia. now rewrite !firstn_nil.
Qed.

Lemma bundle_newTxs_slice (txs : list VersionedTransaction) (i : nat) :
  bundle_newTxs txs i = slice txs (i * 5) (i * 5 + 5).
Proof.
  unfold bundle_newTxs, slice. rewrite pick_present_slice. simpl.
  f_equal. lia.
Qed.

Lemma sub_bundles_concat (txs : list VersionedTransaction) :
  forall n a,
    concat (map (bundle_newTxs txs) (seq a n))
    = firstn (n * 5) (skipn (a * 5) txs).
Proof.
  induction n as [| n IH]; intros a; [reflexivity |].
  cbn [seq map concat]. rewrite IH, bundle_newTxs_slice. unfold slice.
  replace (a * 5 + 5 - a * 5) with 5 by lia.
  replace (S n * 5) with (5 + n * 5) by lia.
  rewrite firstn_plus, skipn_skipn. reflexivity.
Qed.

Lemma count_true_all (results : list bool) :
  (count_true results =? length results) = forallb (fun b : bool => b) results.
Proof.
  assert (Hle : forall l, count_true l <= length l).
  { intros l. unfold count_true. apply filter_length_le. }
  induction results as [| [|] results IH]; [reflexivity | |].
  - exact IH.
  - unfold count_true in *. simpl. apply Nat.eqb_neq.
    specialize (Hle results). unfold count_true in Hle. lia.
Qed.

Section SubBundleFacts.
Variable W : Type.
Variable submit : list VersionedTransaction -> Keypair -> Async W bool.
Hypothesis submit_returns :
  forall txs keypair w, exists success w',
      submit txs keypair w = (Return success, w').
Variable txs : list VersionedTransaction.
Variable keypair : Keypair.

(** One iteration of the outer loop on an observed submission function. *)
Lemma bundle_loop_step i later successNum w log0 :
  bundle_loop (observed_call submit) txs keypair (i :: later) successNum
              (w, log0)
  = match submit (bundle_newTxs txs i) keypair w with
    | (Return success, w1) =>
        bundle_loop (observed_call submit) txs keypair later
                    (if success then successNum + 1 else successNum)
                    (w1, log0 ++ [(bundle_newTxs txs i, Return success)])
    | (Throw e, w1) =>
        (Throw e, (w1, log0 ++ [(bundle_newTxs txs i, Throw e)]))
    end.
Proof.
  cbn [bundle_loop]. unfold bind, observed_call. cbn [fst snd].
  destruct (submit (bundle_newTxs txs i) keypair w) as [[success | e] w1];
    reflexivity.
Qed.

(** The submissions made and the count returned by the outer loop. *)
Lemma bundle_loop_trace :
  forall indices successNum w log0,
    exists results,
      length results = length indices /\
      calls (bundle_loop (observed_call submit) txs keypair indices
                         successNum (w, log0))
        = log0 ++ combine (map (bundle_newTxs txs) indices)
                          (map Return results) /\
      outcome (bundle_loop (observed_call submit) txs keypair indices
                           successNum (w, log0))
        = Return (successNum + count_true results).
Proof.
  induction indices as [| i later IH]; intros successNum w log0.
  - exists []. simpl. rewrite app_nil_r, Nat.add_0_r. auto.
  - rewrite bundle_loop_step.
    destruct (submit_returns (bundle_newTxs txs i) keypair w)
      as (success & w1 & ->).
    destruct (IH (if success then successNum + 1 else successNum) w1
                 (log0 ++ [(bundle_newTxs txs i, Return success)]))
      as (results & Hlen & Hcalls & Hout).
    exists (success :: results). rewrite Hcalls, Hout, <- app_assoc.
    split; [simpl; lia | split; [reflexivity |]].
    f_equal. unfold count_true. destruct success; simpl; lia.
Qed.

Lemma bundle_with_trace w :
  exists results,
    length results = Math_ceil_div5 (length txs) /\
    calls (bundle_with (observed_call submit) txs keypair (w, []))
      = combine (map (bundle_newTxs txs) (seq 0 (Math_ceil_div5 (length txs))))
                (map Return results) /\
    outcome (bundle_with (observed_call submit) txs keypair (w, []))
      = Return (forallb (fun b : bool => b) results).
Proof.
  destruct (bundle_loop_trace (seq 0 (Math_ceil_div5 (length txs))) 0 w [])
    as (results & Hlen & Hcalls & Hout).
  rewrite length_seq in Hlen.
  exists results. split; [exact Hlen |].
  unfold bundle_with, try_catch, bind, outcome, calls in *.
  destruct (bundle_loop (observed_call submit) txs keypair
              (seq 0 (Math_ceil_div5 (length txs))) 0 (w, []))
    as [[successNum | e] [w' log]]; simpl in *; [| discriminate].
  split; [exact Hcalls |].
  injection Hout as ->. unfold ret. simpl.
  now rewrite <- Hlen, count_true_all.
Qed.

End SubBundleFacts.

Lemma map_fst_combine_same (A B : Type) (l : list A) (l' : list B) :
  length l = length l' -> map fst (combine l l') = l.
Proof.
  revert l'. induction l as [| x l IH]; intros [| y l'] Hlen;
    try discriminate; [reflexivity |].
  simpl. f_equal. apply IH. simpl in Hlen. lia.
Qed.

Lemma map_snd_combine_same (A B : Type) (l : list A) (l' : list B) :
  length l = length l' -> map snd (combine l l') = l'.
Proof.
  revert l'. induction l as [| x l IH]; intros [| y l'] Hlen;
    try discriminate; [reflexivity |].
  simpl. f_equal. apply IH. simpl in Hlen. lia.
Qed.

Lemma Math_ceil_div5_bounds (n : nat) :
  n <= Math_ceil_div5 n * 5 < n + 5.
Proof.
  unfold Math_ceil_div5.
  pose proof (Nat.div_mod_eq (n + 4) 5) as Hdiv.
  pose proof (Nat.mod_upper_bound (n + 4) 5) as Hmod.
  lia.
Qed.

Section BundleFacts.
Variable W : Type.
Variable connection : Connection W.
Variable jito : JitoLibrary W.
Variable keypair : Keypair.

(** Logging the submissions changes neither the result nor the world. *)
Lemma bundle_loop_observed
      (submit : list VersionedTransaction -> Keypair -> Async W bool) txs :
  forall indices successNum w log0,
    outcome (bundle_loop (observed_call submit) txs keypair indices
                         successNum (w, log0))
    = fst (bundle_loop submit txs keypair indices successNum w).
Proof.
  induction indices as [| i later IH]; intros successNum w log0;
    [reflexivity |].
  rewrite bundle_loop_step. cbn [bundle_loop]. unfold bind.
  destruct (submit (bundle_newTxs txs i) keypair w) as [[success | e] w1];
    [apply IH | reflexivity].
Qed.

Lemma bundle_with_observed
      (submit : list VersionedTransaction -> Keypair -> Async W bool) txs w :
  outcome (bundle_with (observed_call submit) txs keypair (w, []))
  = fst (bundle_with submit txs keypair w).
Proof.
  pose proof (bundle_loop_observed submit txs
                (seq 0 (Math_ceil_div5 (length txs))) 0 w []) as Hloop.
  unfold bundle_with, try_catch, bind, outcome in *.
  destruct (bundle_loop (observed_call submit) txs keypair
              (seq 0 (Math_ceil_div5 (length txs))) 0 (w, []))
    as [[n1 | e1] [w1 log1]];
    destruct (bundle_loop submit txs keypair
                (seq 0 (Math_ceil_div5 (length txs))) 0 w)
      as [[n2 | e2] w2];
    simpl in *; try discriminate; [| reflexivity].
  now injection Hloop as ->.
Qed.

(** C7. For every list of transactions, [bundle] hands bull_dozer
    [ceil (n / 5)] sub-bundles, one after the other; the k-th is the slice
    [txs.slice(5k, 5k + 5)], of one to five transactions, and together, in
    order, they are the input list.  [bundle] returns true exactly when
    every one of these calls of bull_dozer returned true, that is when an
    acceptance arrived for every sub-bundle. *)
Theorem bundle_splits_into_sub_bundles (txs : list VersionedTransaction) (w : W) :
  let run := bundle_with (observed_call (bull_dozer connection jito))
                         txs keypair (w, []) in
  let submitted := map fst (calls run) in
  length submitted = (length txs + 4) / 5 /\
  concat submitted = txs /\
  (forall k sub, nth_error submitted k = Some sub ->
                 sub = slice txs (5 * k) (5 * k + 5) /\
                 1 <= length sub <= 5) /\
  exists results,
    map snd (calls run) = map Return results /\
    fst (bundle connection jito txs keypair w)
      = Return (forallb (fun accepted : bool => accepted) results).
Proof.
  intros run submitted.
  destruct (@bundle_with_trace W (bull_dozer connection jito)
              (bull_dozer_returns connection jito) txs keypair w)
    as (results & Hlen & Hcalls & Hout).
  fold run in Hcalls, Hout.
  pose proof (Math_ceil_div5_bounds (length txs)) as Hceil.
  assert (Hsub : submitted
                 = map (bundle_newTxs txs) (seq 0 (Math_ceil_div5 (length txs)))).
  { unfold submitted. rewrite Hcalls. apply map_fst_combine_same.
    now rewrite !length_map, length_seq. }
  rewrite Hsub. split; [now rewrite length_map, length_seq |].
  split; [| split].
  - rewrite sub_bundles_concat. simpl. apply firstn_all2. lia.
  - intros k sub Hk.
    rewrite nth_error_map in Hk.
    destruct (nth_error (seq 0 (Math_ceil_div5 (length txs))) k)
      as [i |] eqn:Hi; [| discriminate].
    assert (Hlt : k < Math_ceil_div5 (length txs)).
    { rewrite <- (length_seq (Math_ceil_div5 (length txs)) 0).
      apply nth_error_Some. congruence. }
    assert (Hik : i = k).
    { apply nth_error_nth with (d := 0) in Hi.
      rewrite seq_nth in Hi by exact Hlt. lia. }
    subst i. simpl in Hk. injection Hk as <-.
    rewrite bundle_newTxs_slice.
    replace (k * 5) with (5 * k) by lia.
    split; [reflexivity |]. rewrite slice_length. lia.
  - exists results. split.
    + rewrite Hcalls. apply map_snd_combine_same.
      now rewrite !length_map, length_seq.
    + unfold bundle. rewrite <- bundle_with_observed. exact Hout.
Qed.

(** C9. With no transaction at all, [bundle] calls bull_dozer zero times,
    touches nothing and returns true. *)
Theorem bundle_of_nothing_succeeds (w : W) :
  bundle connection jito [] keypair w = (Return true, w) /\
  calls (bundle_with (observed_call (bull_dozer connection jito))
                     [] keypair (w, [])) = [].
Proof. split; reflexivity. Qed.

End BundleFacts.

(* ================================================================= *)
(** ** Choice of the tip account *)

Lemma floor_scaled_range (random : Q) (n : nat) :
  (0 <= random)%Q -> (random < 1)%Q -> 0 < n ->
  (0 <= floor_scaled random n < Z.of_nat n)%Z.
Proof.
  intros H0 H1 Hn. unfold floor_scaled.
  assert (Hpos : (0 < inject_Z (Z.of_nat n))%Q).
  { rewrite <- (Zlt_Qlt 0). lia. }
  split.
  - change 0%Z with (Qfloor 0). apply Qfloor_resp_le.
    apply Qmult_le_0_compat; [exact H0 | now apply Qlt_le_weak].
  - rewrite Zlt_Qlt.
    apply Qle_lt_trans with (y := (random * inject_Z (Z.of_nat n))%Q);
      [apply Qfloor_le |].
    rewrite <- (Qmult_1_l (inject_Z (Z.of_nat n))) at 2.
    now apply Qmult_lt_r.
Qed.

Lemma floor_scaled_hits (i n : nat) :
  i < n ->
  floor_scaled (Z.of_nat i # Pos.of_nat n) n = Z.of_nat i.
Proof.
  intros Hlt. unfold floor_scaled.
  transitivity (Qfloor (inject_Z (Z.of_nat i))); [| apply Qfloor_Z].
  apply Qfloor_comp.
  unfold Qeq, Qmult, inject_Z. cbn [Qnum Qden].
  rewrite Pos.mul_1_r, Z.mul_1_r.
  replace (Z.pos (Pos.of_nat n)) with (Z.of_nat n); [reflexivity |].
  destruct n as [| n]; [lia |].
  now rewrite <- Pos.of_nat_succ, Zpos_P_of_succ_nat, Nat2Z.inj_succ.
Qed.

Lemma fraction_in_unit_interval (i n : nat) :
  i < n -> (0 <= Z.of_nat i # Pos.of_nat n)%Q /\ (Z.of_nat i # Pos.of_nat n < 1)%Q.
Proof.
  intros Hlt. unfold Qle, Qlt. simpl.
  replace (Z.pos (Pos.of_nat n)) with (Z.of_nat n); [lia |].
  destruct n as [| n]; [lia |].
  now rewrite <- Pos.of_nat_succ, Zpos_P_of_succ_nat, Nat2Z.inj_succ.
Qed.

Lemma js_index_nat (A : Type) (l : list A) (i : nat) :
  js_index l (Z.of_nat i) = nth_error l i.
Proof.
  unfold js_index. destruct (Z.ltb_spec (Z.of_nat i) 0); [lia |].
  now rewrite Nat2Z.id.
Qed.

Lemma build_bundle_tipAccount_index (accounts : list string) (random : Q) :
  (0 <= random)%Q -> (random < 1)%Q -> accounts <> [] ->
  build_bundle_tipAccount accounts random
  = nth_error accounts
      (Nat.min (Z.to_nat (floor_scaled random (length accounts))) 3).
Proof.
  intros H0 H1 Hne. unfold build_bundle_tipAccount.
  assert (Hlen : 0 < length accounts) by (destruct accounts; simpl; [easy | lia]).
  pose proof (floor_scaled_range H0 H1 Hlen) as Hr.
  rewrite <- js_index_nat. f_equal. lia.
Qed.

Lemma In_firstn_nth_error (A : Type) (l : list A) (n : nat) (a : A) :
  In a (firstn n l) <-> exists i, i < n /\ nth_error l i = Some a.
Proof.
  split.
  - intros Hin. apply In_nth_error in Hin as [i Hi].
    assert (Hlt : i < length (firstn n l)) by (apply nth_error_Some; congruence).
    rewrite length_firstn in Hlt.
    exists i. split; [lia |].
    rewrite nth_error_firstn in Hi.
    destruct (Nat.ltb_spec i n); [exact Hi | lia].
  - intros (i & Hlt & Hi). apply nth_error_In with (n := i).
    rewrite nth_error_firstn.
    destruct (Nat.ltb_spec i n); [exact Hi | lia].
Qed.

(** C8, as the code has it.  jitoWithAxios draws from its fixed list of
    eight accounts: every draw in [0, 1) selects an element of the list and
    every element is selected by some draw.  build_bundle caps the index at
    3: on a list that is not empty every draw selects one of the first four
    entries, and each of the first four entries is selected by some draw. *)
Theorem tip_account_selection (accounts : list string) (random : Q) :
  (0 <= random)%Q -> (random < 1)%Q ->
  (exists a, jitoWithAxios_jitoFeeWallet random = Some a /\ In a tipAccounts) /\
  (forall a, In a tipAccounts ->
             exists r, (0 <= r)%Q /\ (r < 1)%Q /\
                       jitoWithAxios_jitoFeeWallet r = Some a) /\
  (accounts <> [] ->
   exists i a, i <= 3 /\ nth_error accounts i = Some a /\
               build_bundle_tipAccount accounts random = Some a) /\
  (forall a, In a (firstn 4 accounts) ->
             exists r, (0 <= r)%Q /\ (r < 1)%Q /\
                       build_bundle_tipAccount accounts r = Some a).
Proof.
  intros H0 H1.
  assert (Haxios : forall r, jitoWithAxios_jitoFeeWallet r
                             = js_index tipAccounts (floor_scaled r 8)).
  { intros r. unfold jitoWithAxios_jitoFeeWallet, floor_scaled.
    f_equal. apply Qfloor_comp. apply Qmult_comm. }
  split; [| split; [| split]].
  - rewrite Haxios.
    assert (Hr : (0 <= floor_scaled random 8 < Z.of_nat 8)%Z)
      by (apply floor_scaled_range; [assumption | assumption | lia]).
    rewrite <- (Z2Nat.id (floor_scaled random 8)) by lia.
    rewrite js_index_nat.
    destruct (nth_error tipAccounts (Z.to_nat (floor_scaled random 8)))
      as [a |] eqn:Ha.
    + exists a. split; [reflexivity | eapply nth_error_In; eassumption].
    + apply nth_error_None in Ha. simpl in Ha. lia.
  - intros a Hin. apply In_nth_error in Hin as [i Hi].
    assert (Hlt : i < 8).
    { change 8 with (length tipAccounts). apply nth_error_Some. congruence. }
    destruct (fraction_in_unit_interval Hlt) as [Hlo Hhi].
    exists (Z.of_nat i # Pos.of_nat 8)%Q.
    split; [exact Hlo | split; [exact Hhi |]].
    now rewrite Haxios, floor_scaled_hits, js_index_nat.
  - intros Hne. rewrite build_bundle_tipAccount_index by assumption.
    assert (Hlen : 0 < length accounts)
      by (destruct accounts; simpl; [easy | lia]).
    pose proof (floor_scaled_range H0 H1 Hlen) as Hr.
    set (i := Nat.min (Z.to_nat (floor_scaled random (length accounts))) 3).
    destruct (nth_error accounts i) as [a |] eqn:Ha.
    + exists i, a. split; [subst i; lia | split; [exact Ha | reflexivity]].
    + apply nth_error_None in Ha. subst i. lia.
  - intros a Hin. apply In_firstn_nth_error in Hin as (i & Hi4 & Hi).
    assert (Hlt : i < length accounts) by (apply nth_error_Some; congruence).
    destruct (fraction_in_unit_interval Hlt) as [Hlo Hhi].
    exists (Z.of_nat i # Pos.of_nat (length accounts))%Q.
    split; [exact Hlo | split; [exact Hhi |]].
    rewrite build_bundle_tipAccount_index;
      [| exact Hlo | exact Hhi | destruct accounts; simpl in *; [lia | discriminate]].
    rewrite floor_scaled_hits by exact Hlt.
    rewrite Nat2Z.id. rewrite Nat.min_l by lia. exact Hi.
Qed.

Lemma tip_account_selection_witness :
  (exists a, jitoWithAxios_jitoFeeWallet (1 # 2) = Some a /\ In a tipAccounts) /\
  (exists i a, i <= 3 /\ nth_error tipAccounts i = Some a /\
               build_bundle_tipAccount tipAccounts (1 # 2) = Some a).
Proof.
  destruct (@tip_account_selection tipAccounts (1 # 2))
    as (Haxios & _ & Hbuild & _).
  - unfold Qle. simpl. lia.
  - unfold Qlt. simpl. lia.
  - split; [exact Haxios | apply Hbuild; discriminate].
Defined.

(** C8 as stated fails for build_bundle: when the relay publishes the eight
    tip accounts, no draw selects the fifth one. *)
Lemma build_bundle_never_selects_fifth_account :
  In "HFqU5x63VTqvQss8hp11i4wVV8bD44PvwucfZ2bU7gRe" tipAccounts /\
  ~ exists random,
      (0 <= random)%Q /\ (random < 1)%Q /\
      build_bundle_tipAccount tipAccounts random
      = Some "HFqU5x63VTqvQss8hp11i4wVV8bD44PvwucfZ2bU7gRe".
Proof.
  split; [simpl; tauto |].
  intros (random & H0 & H1 & Hsel).
  rewrite build_bundle_tipAccount_index in Hsel;
    [| assumption | assumption | discriminate].
  destruct (Nat.min (Z.to_nat (floor_scaled random (length tipAccounts))) 3)
    as [| [| [| [| i]]]] eqn:Hi;
    try (simpl in Hsel; discriminate).
  lia.
Qed.

(* ================================================================= *)
(** ** Computations that do not touch the observation log *)

Create HintDb frame.

Section Frame.
Variables W L : Type.

Lemma keeps_ret (A : Type) (a : A) : keeps_log (@ret (W * L) A a).
Proof. intros w log. reflexivity. Qed.

Lemma keeps_throw (A : Type) (e : Thrown) : keeps_log (@throw (W * L) A e).
Proof. intros w log. reflexivity. Qed.

Lemma keeps_unobserved (A : Type) (fn : Async W A) :
  keeps_log (@unobserved W L A fn).
Proof.
  intros w log. unfold unobserved. simpl. now destruct (fn w).
Qed.

Lemma keeps_wait (sleep : nat -> W -> W) (ms : nat) :
  keeps_log (wait (@sleep_unobserved W L sleep) ms).
Proof. intros w log. reflexivity. Qed.

Lemma keeps_bind (A B : Type) (m : Async (W * L) A) (k : A -> Async (W * L) B) :
  keeps_log m -> (forall a, keeps_log (k a)) -> keeps_log (bind m k).
Proof.
  intros Hm Hk w log. unfold bind. specialize (Hm w log).
  destruct (m (w, log)) as [[a | e] [w1 log1]]; simpl in Hm; subst log1;
    [apply Hk | reflexivity].
Qed.

Lemma keeps_try_catch (A : Type) (m : Async (W * L) A)
      (handler : Thrown -> Async (W * L) A) :
  keeps_log m -> (forall e, keeps_log (handler e)) ->
  keeps_log (try_catch m handler).
Proof.
  intros Hm Hh w log. unfold try_catch. specialize (Hm w log).
  destruct (m (w, log)) as [[a | e] [w1 log1]]; simpl in Hm; subst log1;
    [reflexivity | apply Hh].
Qed.

End Frame.

#[local] Hint Resolve keeps_ret keeps_throw keeps_unobserved keeps_wait
  keeps_bind keeps_try_catch : frame.

Lemma keeps_retryAsync_from (W L A : Type) (sleep : nat -> W -> W)
      (fn : Async (W * L) A) (retries delayMs : nat) :
  keeps_log fn ->
  forall indices,
    keeps_log (retryAsync_from (sleep_unobserved sleep) fn retries delayMs indices).
Proof.
  intros Hfn. induction indices as [| i later IH]; cbn [retryAsync_from].
  - apply keeps_ret.
  - apply keeps_try_catch.
    + apply keeps_bind; [exact Hfn | intros a; apply keeps_ret].
    + intros e. destruct (i =? retries - 1); [apply keeps_throw |].
      apply keeps_bind; [apply keeps_wait | intros _; exact IH].
Qed.

(* ================================================================= *)
(** ** The sweep script: signers follow instructions *)

Lemma slice_map (A B : Type) (f : A -> B) (l : list A) (i j : nat) :
  slice (map f l) i j = map f (slice l i j).
Proof. unfold slice. now rewrite skipn_map, firstn_map. Qed.

Lemma batchArray_loop_map (A B : Type) (f : A -> B) (l : list A) (batchSize : nat) :
  forall fuel i acc,
    batchArray_loop fuel (map f l) batchSize i (map (map f) acc)
    = option_map (map (map f)) (batchArray_loop fuel l batchSize i acc).
Proof.
  induction fuel as [| fuel IH]; intros i acc; simpl; rewrite length_map;
    destruct (i <? length l); try reflexivity.
  rewrite <- IH, map_app, slice_map. reflexivity.
Qed.

Lemma batchArray_map (A B : Type) (f : A -> B) (l : list A) (batchSize : nat) :
  batchArray (map f l) batchSize
  = option_map (map (map f)) (batchArray l batchSize).
Proof.
  unfold batchArray. rewrite length_map.
  exact (batchArray_loop_map f l batchSize (length l) 0 []).
Qed.

Lemma batches_of_spec (T : Type) (array : list T) (batchSize : nat) :
  0 < batchSize -> batchArray array batchSize = Some (batches_of array batchSize).
Proof.
  intros Hpos. unfold batches_of.
  destruct (@batchArray_spec T array batchSize Hpos) as (batches & -> & _).
  reflexivity.
Qed.

Lemma map_eq_In (A B C : Type) (f : A -> C) (g : B -> C) :
  forall (l1 : list A) (l2 : list B),
    map f l1 = map g l2 ->
    forall x, In x l1 -> exists y, In y l2 /\ f x = g y.
Proof.
  induction l1 as [| a l1 IH]; intros [| b l2] Heq x Hin;
    try discriminate; [contradiction |].
  simpl in Heq. injection Heq as Hhead Htail.
  destruct Hin as [<- | Hin].
  - exists b. split; [now left | exact Hhead].
  - destruct (IH l2 Htail x Hin) as (y & Hy & Hxy).
    exists y. split; [now right | exact Hxy].
Qed.

Lemma map_eq_nth_error (A B C : Type) (f : A -> C) (g : B -> C) :
  forall (l1 : list A) (l2 : list B) i x y,
    map f l1 = map g l2 ->
    nth_error l1 i = Some x -> nth_error l2 i = Some y -> f x = g y.
Proof.
  intros l1 l2 i x y Heq Hx Hy.
  apply (map_nth_error f) in Hx. apply (map_nth_error g) in Hy.
  congruence.
Qed.

Section SweepFacts.
Variable W : Type.
Variable serialize : VersionedTransaction -> list Byte.byte.

Let signer_key (k : Keypair) : option PublicKey := Some (publicKey k).

(** Step 2 pushes to both arrays or to neither. *)
Lemma sweep_prepare_lockstep (connection : Connection W) destinationWallet :
  forall wallets transferInstructions signers w,
    map fromPubkey_of transferInstructions = map signer_key signers ->
    exists transferInstructions' signers' w',
      sweep_prepare connection destinationWallet wallets
                    transferInstructions signers w
      = (Return (transferInstructions', signers'), w') /\
      map fromPubkey_of transferInstructions' = map signer_key signers'.
Proof.
  induction wallets as [| wallet later IH];
    intros transferInstructions signers w Hlock.
  - exists transferInstructions, signers, w. split; [reflexivity | exact Hlock].
  - cbn [sweep_prepare]. unfold bind at 1. unfold try_catch, bind at 1.
    destruct (getBalance connection (publicKey wallet) w) as [[balance | e] w1].
    + destruct (balance <=? RENT_EXEMPT_MINIMUM + TRANSACTION_FEE)%Z.
      * apply IH. exact Hlock.
      * apply IH. cbn [ret fst snd]. rewrite !map_app, Hlock. reflexivity.
    + apply IH. exact Hlock.
Qed.

Lemma keeps_sweep_prepare (connection : Connection W) destinationWallet :
  forall wallets transferInstructions signers,
    keeps_log (sweep_prepare (sends_observed connection) destinationWallet
                             wallets transferInstructions signers).
Proof.
  induction wallets as [| wallet later IH]; intros transferInstructions signers;
    cbn [sweep_prepare]; [apply keeps_ret |].
  apply keeps_bind; [| intros arrays; apply IH].
  apply keeps_try_catch; [| intros e; apply keeps_ret].
  apply keeps_bind; [apply keeps_unobserved | intros balance].
  destruct (balance <=? RENT_EXEMPT_MINIMUM + TRANSACTION_FEE)%Z;
    apply keeps_ret.
Qed.

Lemma keeps_simulateAndGetLogs (connection : Connection W) transaction :
  keeps_log (simulateAndGetLogs (sends_observed connection) transaction).
Proof.
  unfold simulateAndGetLogs. cbn [sends_observed simulateTransaction].
  auto with frame.
Qed.

End SweepFacts.

Section SweepSendFacts.
Variable W : Type.
Variable serialize : VersionedTransaction -> list Byte.byte.
Variable connection : Connection W.
Variable payerWallet : Keypair.
Variable lookupTableAccount : AddressLookupTableAccount.
Variable instructionBatches : list (list TransactionInstruction).
Variable signerBatches : list (list Keypair).

Let batchTransaction batchInstructions batchSigners batchBlockhash :=
  {| payerKey := publicKey payerWallet;
     instructions := batchInstructions;
     recentBlockhash := batchBlockhash;
     addressLookupTableAccounts := [lookupTableAccount];
     signers := payerWallet :: batchSigners |}.

Let send_rest later :=
  sweep_send serialize (sends_observed connection) payerWallet
             lookupTableAccount instructionBatches signerBatches later.

(** One iteration of step 3 on a connection that logs what it sends. *)
Lemma sweep_send_step i later w log0 :
  send_rest (i :: later) (w, log0)
  = match nth_error instructionBatches i, nth_error signerBatches i with
    | Some batchInstructions, Some batchSigners =>
        match getLatestBlockhash connection "finalized" w with
        | (Throw e, w1) => (Throw e, (w1, log0))
        | (Return batchBlockhash, w1) =>
            let tx := batchTransaction batchInstructions batchSigners
                                       batchBlockhash in
            if 1232 <? length (serialize tx)
            then send_rest later (w1, log0)
            else
              match sendTransaction connection tx w1 with
              | (Return _, w2) => send_rest later (w2, log0 ++ [tx])
              | (Throw _, w2) =>
                  send_rest later
                    (snd (simulateTransaction connection tx w2), log0 ++ [tx])
              end
        end
    | _, _ =>
        (Throw (ErrorObj "TypeError: undefined is not iterable"), (w, log0))
    end.
Proof.
  unfold send_rest. cbn [sweep_send].
  destruct (nth_error instructionBatches i) as [batchInstructions |];
    [| reflexivity].
  destruct (nth_error signerBatches i) as [batchSigners |]; [| reflexivity].
  unfold bind at 1. cbn [sends_observed getLatestBlockhash].
  unfold unobserved at 1. cbn [fst snd].
  destruct (getLatestBlockhash connection "finalized" w)
    as [[batchBlockhash | e] w1]; [| reflexivity].
  fold (batchTransaction batchInstructions batchSigners batchBlockhash).
  destruct (1232 <? length (serialize (batchTransaction batchInstructions
                                         batchSigners batchBlockhash)));
    [reflexivity |].
  unfold bind at 1. unfold try_catch, bind at 1.
  cbn [sends_observed sendTransaction]. unfold observed_arg. cbn [fst snd].
  destruct (sendTransaction connection
              (batchTransaction batchInstructions batchSigners batchBlockhash) w1)
    as [[signature | e] w2]; [reflexivity |].
  unfold simulateAndGetLogs, try_catch, bind.
  cbn [sends_observed simulateTransaction]. unfold unobserved. cbn [fst snd].
  destruct (simulateTransaction connection
              (batchTransaction batchInstructions batchSigners batchBlockhash) w2)
    as [[logs | e'] w3]; reflexivity.
Qed.

Let whole_batch :=
  sweep_whole_batch serialize payerWallet instructionBatches signerBatches.

Lemma sweep_send_trace :
  forall n a w log0,
    a + n = length instructionBatches ->
    exists tr,
      calls (send_rest (seq a n) (w, log0)) = log0 ++ tr /\
      Forall whole_batch tr /\
      subsequence (map instructions tr) (skipn a instructionBatches).
Proof.
  induction n as [| n IH]; intros a w log0 Ha.
  - exists []. rewrite app_nil_r.
    split; [reflexivity | split; constructor].
  - cbn [seq]. rewrite sweep_send_step.
    destruct (nth_error instructionBatches a) as [batchInstructions |] eqn:Hib;
      [| exists []; rewrite app_nil_r;
         split; [now destruct (nth_error signerBatches a)
                | split; constructor]].
    rewrite (@skipn_nth_error_cons _ instructionBatches a _ Hib).
    destruct (nth_error signerBatches a) as [batchSigners |] eqn:Hsb;
      [| exists []; rewrite app_nil_r;
         split; [reflexivity | split; constructor]].
    destruct (getLatestBlockhash connection "finalized" w)
      as [[batchBlockhash | e] w1];
      [| exists []; rewrite app_nil_r;
         split; [reflexivity | split; constructor]].
    cbv zeta.
    set (tx := batchTransaction batchInstructions batchSigners batchBlockhash).
    destruct (Nat.ltb_spec 1232 (length (serialize tx))) as [Hbig | Hfits].
    + destruct (IH (S a) w1 log0) as (tr & Hcalls & Hall & Hsub); [lia |].
      exists tr. split; [exact Hcalls | split; [exact Hall |]].
      now apply subsequence_skip.
    + assert (Hsent : forall w2,
                 exists tr,
                   calls (send_rest (seq (S a) n) (w2, log0 ++ [tx]))
                     = log0 ++ tr /\
                   Forall whole_batch tr /\
                   subsequence (map instructions tr)
                     (batchInstructions :: skipn (S a) instructionBatches)).
      { intros w2.
        destruct (IH (S a) w2 (log0 ++ [tx])) as (tr & Hcalls & Hall & Hsub);
          [lia |].
        exists (tx :: tr). rewrite Hcalls, <- app_assoc.
        split; [reflexivity | split].
        - constructor; [| exact Hall].
          split; [exact Hfits |]. exists a, batchSigners. auto.
        - simpl. now apply subsequence_take. }
      destruct (sendTransaction connection tx w1) as [[signature | e] w2];
        apply Hsent.
Qed.

End SweepSendFacts.

Section SweepTheorems.
Variable W : Type.
Variable serialize : VersionedTransaction -> list Byte.byte.
Variable connection : Connection W.
Variables payerWallet destinationWallet : Keypair.
Variable lookupTableAccount : AddressLookupTableAccount.

Let signer_key (k : Keypair) : option PublicKey := Some (publicKey k).

(** The batches that come out of lockstep arrays correspond element by
    element. *)
Lemma lockstep_batches transferInstructions signers :
  map fromPubkey_of transferInstructions = map signer_key signers ->
  map (map fromPubkey_of)
      (batches_of transferInstructions MAX_WALLETS_PER_TRANSACTION)
  = map (map signer_key) (batches_of signers MAX_WALLETS_PER_TRANSACTION).
Proof.
  intros Hlock.
  assert (Hpos : 0 < MAX_WALLETS_PER_TRANSACTION) by (unfold MAX_WALLETS_PER_TRANSACTION; lia).
  pose proof (batchArray_map fromPubkey_of transferInstructions
                             MAX_WALLETS_PER_TRANSACTION) as Hi.
  pose proof (batchArray_map signer_key signers
                             MAX_WALLETS_PER_TRANSACTION) as Hs.
  rewrite (batches_of_spec transferInstructions Hpos) in Hi.
  rewrite (batches_of_spec signers Hpos) in Hs.
  rewrite Hlock, Hs in Hi. simpl in Hi. now injection Hi as <-.
Qed.

Lemma whole_batch_sources_sign instructionBatches signerBatches tx :
  map (map fromPubkey_of) instructionBatches
  = map (map signer_key) signerBatches ->
  sweep_whole_batch serialize payerWallet instructionBatches signerBatches tx ->
  sources_sign tx.
Proof.
  intros Hbatches (_ & i & batchSigners & Hib & Hsb & Hsigners)
         instruction Hin.
  pose proof (@map_eq_nth_error _ _ _ (map fromPubkey_of) (map signer_key)
                instructionBatches signerBatches i _ _ Hbatches Hib Hsb)
    as Hrow.
  destruct (map_eq_In _ _ _ _ Hrow instruction Hin) as (signer & Hs & Hkey).
  exists signer. rewrite Hsigners. split; [now right | exact Hkey].
Qed.

(** C10. In the sweep script the instruction array and the signer array
    grow in lockstep, so after [batchArray] with the same size the j-th
    signer of batch i is the source wallet of the j-th transfer of batch
    i; and every transaction the script hands to [sendTransaction] carries,
    for each of its transfers, the signature of the wallet the transfer
    takes the funds from. *)
Theorem sweep_signers_follow_instructions (wallets : list Keypair) (w : W) :
  (exists transferInstructions signers w' instructionBatches signerBatches,
      sweep_prepare connection destinationWallet wallets [] [] w
      = (Return (transferInstructions, signers), w') /\
      map fromPubkey_of transferInstructions
      = map (fun k => Some (publicKey k)) signers /\
      batchArray transferInstructions MAX_WALLETS_PER_TRANSACTION
      = Some instructionBatches /\
      batchArray signers MAX_WALLETS_PER_TRANSACTION = Some signerBatches /\
      map (map fromPubkey_of) instructionBatches
      = map (map (fun k => Some (publicKey k))) signerBatches) /\
  Forall sources_sign
    (calls (sweep serialize (sends_observed connection) payerWallet
                  destinationWallet wallets lookupTableAccount (w, []))).
Proof.
  assert (Hpos : 0 < MAX_WALLETS_PER_TRANSACTION)
    by (unfold MAX_WALLETS_PER_TRANSACTION; lia).
  split.
  - destruct (@sweep_prepare_lockstep W connection destinationWallet
                wallets [] [] w eq_refl)
      as (transferInstructions & signers & w' & Hrun & Hlock).
    exists transferInstructions, signers, w',
      (batches_of transferInstructions MAX_WALLETS_PER_TRANSACTION),
      (batches_of signers MAX_WALLETS_PER_TRANSACTION).
    split; [exact Hrun | split; [exact Hlock |]].
    split; [now apply batches_of_spec |].
    split; [now apply batches_of_spec | now apply lockstep_batches].
  - unfold sweep, bind at 1.
    destruct (@sweep_prepare_lockstep _ (sends_observed connection)
                destinationWallet wallets [] [] (w, []) eq_refl)
      as (transferInstructions & signers & [w' log'] & Hrun & Hlock).
    pose proof (@keeps_sweep_prepare W connection destinationWallet
                  wallets [] [] w []) as Hlog.
    rewrite Hrun in *. simpl in Hlog. subst log'. cbn [fst snd].
    destruct (length transferInstructions =? 0); [constructor |].
    destruct (@sweep_send_trace W serialize connection payerWallet
                lookupTableAccount
                (batches_of transferInstructions MAX_WALLETS_PER_TRANSACTION)
                (batches_of signers MAX_WALLETS_PER_TRANSACTION)
                (length (batches_of transferInstructions
                                    MAX_WALLETS_PER_TRANSACTION))
                0 w' [] eq_refl)
      as (tr & Hcalls & Hall & _).
    rewrite Hcalls. simpl.
    eapply Forall_impl; [| exact Hall].
    intros tx. apply whole_batch_sources_sign.
    now apply lockstep_batches.
Qed.

End SweepTheorems.

(* ================================================================= *)
(** ** Size ceiling of submitted batches *)

Section SellFacts.
Variable W : Type.
Variable serialize : VersionedTransaction -> list Byte.byte.
Variable sleep : nat -> W -> W.
Variable connection : Connection W.
Variable sdk : SellTools W.
Variable splTokenMint : PublicKey.
Variable altAuthority : Keypair.
Variable lookupTableAccount : AddressLookupTableAccount.

Lemma keeps_sell_collect :
  forall batch instructions validSigners,
    keeps_log (sell_collect (sends_observed connection)
                            (@sell_tools_unobserved W (list VersionedTransaction) sdk)
                            splTokenMint batch instructions validSigners).
Proof.
  induction batch as [| wallet later IH]; intros instructions validSigners;
    cbn [sell_collect]; [apply keeps_ret |].
  apply keeps_bind; [apply keeps_unobserved |].
  intros [amount |]; [| apply IH].
  destruct (Qeq_bool amount 0); [apply IH |].
  apply keeps_bind; [apply keeps_unobserved | intros sellInstructions; apply IH].
Qed.

(** The try block of step 6 hands the transaction to [sendTransaction]
    once and never throws. *)
Lemma sell_submit_logs transaction w log :
  exists w',
    sell_submit (sleep_unobserved sleep) (sends_observed connection)
                transaction (w, log)
    = (Return tt, (w', log ++ [transaction])).
Proof.
  unfold sell_submit, try_catch. unfold bind at 1.
  cbn [sends_observed sendTransaction]. unfold observed_arg. cbn [fst snd].
  destruct (sendTransaction connection transaction w) as [[txSignature | e] w1];
    [| eexists; reflexivity].
  assert (Hkeep : keeps_log
                    (retryAsync (@sleep_unobserved W (list VersionedTransaction) sleep)
                       (sell_confirm (sends_observed connection) txSignature)
                       5 2000)).
  { apply keeps_retryAsync_from. unfold sell_confirm.
    cbn [sends_observed getLatestBlockhash confirmTransaction].
    auto with frame. }
  specialize (Hkeep w1 (log ++ [transaction])). unfold bind.
  match type of Hkeep with
  | snd (snd ?run) = _ => destruct run as [[v | e] [w2 log2]]
  end;
    simpl in Hkeep; subst log2; eexists; reflexivity.
Qed.

Lemma sell_send_trace :
  forall walletBatches w log0,
    exists tr,
      calls (sell_send serialize (sleep_unobserved sleep)
               (sends_observed connection) (sell_tools_unobserved sdk)
               splTokenMint altAuthority lookupTableAccount
               walletBatches (w, log0))
        = log0 ++ tr /\
      Forall (fun tx => length (serialize tx) <= 1200) tr /\
      length tr <= length walletBatches.
Proof.
  induction walletBatches as [| batch later IH]; intros w log0.
  - exists []. rewrite app_nil_r.
    split; [reflexivity | split; [constructor | simpl; lia]].
  - assert (Hskip : forall w1,
               exists tr,
                 calls (sell_send serialize (sleep_unobserved sleep)
                          (sends_observed connection) (sell_tools_unobserved sdk)
                          splTokenMint altAuthority lookupTableAccount
                          later (w1, log0))
                   = log0 ++ tr /\
                 Forall (fun tx => length (serialize tx) <= 1200) tr /\
                 length tr <= length (batch :: later)).
    { intros w1. destruct (IH w1 log0) as (tr & Hcalls & Hall & Hlen).
      exists tr. split; [exact Hcalls | split; [exact Hall | simpl; lia]]. }
    assert (Hstop : forall (r : Completion unit * (W * list VersionedTransaction)),
               calls r = log0 ->
               exists tr,
                 calls r = log0 ++ tr /\
                 Forall (fun tx => length (serialize tx) <= 1200) tr /\
                 length tr <= length (batch :: later)).
    { intros r Hr. exists []. rewrite app_nil_r.
      split; [exact Hr | split; [constructor | simpl; lia]]. }
    cbn [sell_send]. unfold bind at 1.
    pose proof (keeps_sell_collect batch [] [] w log0) as Hkeep.
    destruct (sell_collect (sends_observed connection)
                (sell_tools_unobserved sdk) splTokenMint batch [] [] (w, log0))
      as [[arrays | e] [w1 log1]]; simpl in Hkeep; subst log1;
      [| now apply Hstop].
    destruct (length (fst arrays) =? 0); [apply Hskip |].
    unfold bind at 1. cbn [sends_observed getLatestBlockhash].
    unfold unobserved at 1. cbn [fst snd].
    destruct (getLatestBlockhash connection "confirmed" w1)
      as [[blockhash | e] w2]; [| now apply Hstop].
    match goal with
    | |- context [if 1200 <? length (serialize ?t) then _ else _] =>
        set (tx := t)
    end.
    destruct (Nat.ltb_spec 1200 (length (serialize tx))) as [Hbig | Hfits];
      [apply Hskip |].
    unfold bind at 1.
    destruct (sell_submit_logs tx w2 log0) as (w3 & ->).
    destruct (IH w3 (log0 ++ [tx])) as (tr & Hcalls & Hall & Hlen).
    exists (tx :: tr). rewrite Hcalls, <- app_assoc.
    split; [reflexivity | split; [| simpl; lia]].
    constructor; [exact Hfits | exact Hall].
Qed.

End SellFacts.

Section CeilingTheorem.
Variable W : Type.
Variable serialize : VersionedTransaction -> list Byte.byte.
Variable sleep : nat -> W -> W.
Variable connection : Connection W.
Variable sdk : SellTools W.
Variables payerWallet altAuthority : Keypair.
Variable splTokenMint : PublicKey.
Variable lookupTableAccount : AddressLookupTableAccount.


End CeilingTheorem.


(* ================================================================= *)
(** ** Runs on concrete inputs *)

Example batchArray_twelve_by_five :
  batchArray [1; 2; 3; 4; 5; 6; 7; 8; 9; 10; 11; 12] 5
  = Some [[1; 2; 3; 4; 5]; [6; 7; 8; 9; 10]; [11; 12]].
Proof. reflexivity. Qed.

Example batchArray_exact_multiple :
  batchArray [1; 2; 3; 4] 2 = Some [[1; 2]; [3; 4]].
Proof. reflexivity. Qed.

Example batchArray_empty : batchArray (@nil nat) 5 = Some [].
Proof. reflexivity. Qed.

(** With batch size 0 the loop variable never moves. *)
Example batchArray_zero_size_runs_out :
  batchArray [1; 2] 0 = None.
Proof. reflexivity. Qed.

Example includes_stale_slot :
  is_expired_slot stale_slot_error = true /\
  is_expired_slot (ErrorObj "insufficient funds for rent") = false /\
  is_expired_slot (OtherValue "not a recent slot") = false.
Proof. repeat split. Qed.

Example retryTransaction_stale_three_times :
  retryTransaction (observed always_stale) 3 (0, [])
  = (Throw stale_slot_error,
     (3, [Throw stale_slot_error; Throw stale_slot_error; Throw stale_slot_error])).
Proof. reflexivity. Qed.

Example retryTransaction_fatal_error_once :
  retryTransaction (observed always_broke) 3 (0, [])
  = (Throw (ErrorObj "insufficient funds for rent"),
     (1, [Throw (ErrorObj "insufficient funds for rent")])).
Proof. reflexivity. Qed.

Example retryTransaction_recovers :
  retryTransaction (observed (stale_until 1)) 3 (0, [])
  = (Return "signature", (2, [Throw stale_slot_error; Return "signature"])).
Proof. reflexivity. Qed.

Example retryAsync_stale_five_times :
  length (calls (retryAsync (sleep_unobserved no_sleep) (observed always_stale)
                            5 1000 (0, []))) = 5 /\
  outcome (retryAsync (sleep_unobserved no_sleep) (observed always_stale)
                      5 1000 (0, []))
  = Throw (ErrorObj ("Exceeded maximum retries for operation: "
                       ++ "failed to send transaction: 301 is not a recent slot")).
Proof. split; reflexivity. Qed.

Lemma retryTransaction_exhausts_witness :
  length (calls (retryTransaction (observed always_stale) 4 (0, []))) = 4.
Proof.
  apply (@retryTransaction_exhausts nat always_stale 4 0).
  intros w0. exists stale_slot_error. split; reflexivity.
Defined.


Example onBundleResult_values :
  onBundleResult [] = 0 /\
  onBundleResult [onResult rejection_message] = 0 /\
  onBundleResult [onResult rejection_message; onResult acceptance_message] = 1 /\
  onBundleResult [onResult acceptance_message; onResult acceptance_message] = 1.
Proof. repeat split. Qed.

Example build_bundle_high_draw_is_capped :
  build_bundle_tipAccount tipAccounts (7 # 8)
  = Some "3AVi9Tg9Uo68tJfuvoKvqKNWKkC5wPdSSdeBnizKZ6jT" /\
  jitoWithAxios_jitoFeeWallet (7 # 8)
  = Some "DfXygSm4jCyNCybVYYK6DwvWqjKee8pbDmJGcLWNDXjh" /\
  build_bundle_tipAccount [] (1 # 2) = None.
Proof. repeat split. Qed.


(* ================================================================= *)
(** * Further properties of the scripts *)

(* ================================================================= *)
(** ** batchArray: edge cases and composition *)

Lemma batchArray_loop_stuck (T : Type) (array : list T) :
  forall fuel i batches,
    i < length array -> batchArray_loop fuel array 0 i batches = None.
Proof.
  induction fuel as [| fuel IH]; intros i batches Hi; simpl;
    destruct (Nat.ltb_spec i (length array)); try lia; [reflexivity |].
  rewrite Nat.add_0_r. now apply IH.
Qed.

(** X1. With batch size 0 the loop variable of batchArray never moves: on
    an array that is not empty the loop is still running after any number of
    iterations, so the call never returns. *)
Theorem batchArray_zero_never_returns (T : Type) (array : list T) :
  array <> [] ->
  (forall fuel, batchArray_loop fuel array 0 0 [] = None) /\
  batchArray array 0 = None.
Proof.
  intros Hne.
  assert (Hlen : 0 < length array) by (destruct array; simpl; [easy | lia]).
  split; [intros fuel |]; now apply batchArray_loop_stuck.
Qed.

Lemma batchArray_zero_never_returns_witness :
  batchArray [1; 2; 3] 0 = None.
Proof.
  apply (@batchArray_zero_never_returns nat [1; 2; 3]). discriminate.
Defined.

(** X2. Batching commutes with mapping: the batches of [array.map(f)] are
    the batches of [array] with [f] applied to every element, whatever the
    batch size (also when the call does not return). *)
Theorem batchArray_commutes_with_map
        (A B : Type) (f : A -> B) (array : list A) (batchSize : nat) :
  batchArray (map f array) batchSize
  = option_map (map (map f)) (batchArray array batchSize).
Proof. apply batchArray_map. Qed.

(** X3. An array of at least one and at most [batchSize] elements comes back
    as a single batch, the array itself. *)
Theorem batchArray_short_array (T : Type) (array : list T) (batchSize : nat) :
  0 < length array <= batchSize ->
  batchArray array batchSize = Some [array].
Proof.
  intros [Hpos Hle].
  destruct (@batchArray_spec T array batchSize) as (batches & Hrun & Hcat & Hlen & _);
    [lia |].
  rewrite Hrun. f_equal.
  assert (Hone : (length array + batchSize - 1) / batchSize = 1).
  { symmetry. apply (Nat.div_unique _ _ 1 (length array - 1)); lia. }
  rewrite Hone in Hlen.
  destruct batches as [| b [| c rest]]; try discriminate.
  simpl in Hcat. rewrite app_nil_r in Hcat. now subst b.
Qed.

Lemma batchArray_short_array_witness :
  batchArray [1; 2; 3] 4 = Some [[1; 2; 3]].
Proof.
  apply (@batchArray_short_array nat [1; 2; 3] 4). simpl. lia.
Defined.

(* ================================================================= *)
(** ** The retry wrappers: what comes back *)

Section RetryOutcomes.
Variable W : Type.
Variable sleep : nat -> W -> W.

(** X6. retryTransaction returns a value exactly when its last call of the
    operation returned that value and every call before it failed with a
    recoverable error; it never makes more than [retries] calls. *)
Theorem retryTransaction_returns_first_success
        (fn : Async W string) (retries : nat) (w : W) :
  let run := retryTransaction (observed fn) retries (w, []) in
  length (calls run) <= retries /\
  forall v,
    outcome run = Return v <->
    exists pre, calls run = pre ++ [Return v] /\
                Forall recoverable_failure pre.
Proof.
  intros run.
  destruct (@retryTransaction_from_trace W fn retries retries 1 w [])
    as (tr & Hcalls & Hlen & _ & Hcases); [reflexivity |].
  fold (retryTransaction (observed fn) retries) in Hcalls, Hcases.
  fold run in Hcalls, Hcases. simpl in Hcalls. rewrite Hcalls.
  split; [exact Hlen |]. intros v.
  destruct Hcases as [(_ & -> & Hout) | (pre & last & -> & Hpre & Hout & _)].
  - rewrite Hout. split; [discriminate |].
    intros (pre & Heq & _). destruct pre; discriminate.
  - rewrite Hout. split.
    + intros ->. now exists pre.
    + intros (pre' & Heq & _). now apply app_inj_tail in Heq as [_ ->].
Qed.


(** X8. index.ts, fetchAndValidateALT polls the table at most [retries]
    times.  It returns exactly when its last poll found the table and every
    poll before it was unsuccessful; it throws exactly when it made
    [retries] polls, all unsuccessful, and then with its own error, which
    names the address. *)
Theorem fetchAndValidateALT_polls_until_found
        (connection : Connection W) (altAddress : PublicKey)
        (retries delayMs : nat) (w : W) :
  let run := fetchAndValidateALT (sleep_unobserved sleep)
               (polls_observed connection) altAddress retries delayMs (w, []) in
  length (calls run) <= retries /\
  (outcome run = Return tt <->
   exists pre value, calls run = pre ++ [Return (Some value)] /\
                     Forall unsuccessful_poll pre) /\
  (forall e,
      outcome run = Throw e <->
      e = fetchAndValidateALT_error altAddress /\
      length (calls run) = retries /\
      Forall unsuccessful_poll (calls run)).
Proof.
  intros run.
  pose proof (@fetchAndValidateALT_from_as_fetchLookupTable
                _ (sleep_unobserved sleep) altAddress
                (polls_observed connection) delayMs
                (seq 1 retries) (seq 0 retries) (w, [])) as Hsame.
  rewrite !length_seq in Hsame. specialize (Hsame eq_refl).
  fold (fetchAndValidateALT (sleep_unobserved sleep) (polls_observed connection)
          altAddress retries delayMs (w, [])) in Hsame.
  fold run in Hsame.
  destruct (@fetchLookupTable_from_trace W sleep connection altAddress delayMs
              (seq 0 retries) w []) as (tr & Hcalls & Hcases).
  rewrite length_seq in Hcases. simpl in Hcalls.
  unfold outcome, calls in *.
  destruct (fetchLookupTable_from (sleep_unobserved sleep)
              (polls_observed connection) altAddress delayMs
              (seq 0 retries) (w, [])) as [[value | e0] [w' log]];
    rewrite Hsame; simpl in *; subst log.
  - destruct Hcases as [(_ & _ & Hout) | (pre & v & -> & Hpre & Hlen & _)];
      [discriminate |].
    split; [exact Hlen |]. split.
    + split; [intros _; now exists pre, v | reflexivity].
    + intros e. split; [discriminate |].
      intros (_ & _ & Hall). apply Forall_app in Hall as [_ Hl].
      apply Forall_inv in Hl. contradiction.
  - destruct Hcases as [(Hall & Hlen & _) | (pre & v & _ & _ & _ & Hout)];
      [| discriminate].
    split; [lia |]. split.
    + split; [discriminate |].
      intros (pre & v & -> & _). apply Forall_app in Hall as [_ Hl].
      apply Forall_inv in Hl. contradiction.
    + intros e. unfold fetchAndValidateALT_error. split.
      * intros [= <-]. auto.
      * intros (-> & _). reflexivity.
Qed.

End RetryOutcomes.

(* ================================================================= *)
(** ** The result stream and bull_dozer *)

Lemma callbacks_after_settling (events : list StreamEvent) (p : ResultPromise) :
  isResolved p = true ->
  fold_left onBundleResult_callback events p = p.
Proof.
  intros Hres. induction events as [| ev events IH]; [reflexivity |].
  simpl. replace (onBundleResult_callback p ev) with p; [exact IH |].
  destruct ev as [result | e]; simpl; [now rewrite Hres | reflexivity].
Qed.

Lemma onBundleResult_value (events : list StreamEvent) :
  onBundleResult events = if existsb is_acceptance events then 1 else 0.
Proof.
  unfold onBundleResult.
  assert (Hgen : forall p,
             isResolved p = false ->
             fold_left onBundleResult_callback events p
             = if existsb is_acceptance events
               then {| first := first p + 1;
                       isResolved := true;
                       settled := resolve (first p + 1) (settled p) |}
               else p).
  { induction events as [| ev events IH]; intros p Hp; [reflexivity |].
    simpl. destruct ev as [result | e]; simpl.
    - rewrite Hp. destruct (accepted result) as [slot |]; simpl.
      + now apply callbacks_after_settling.
      + destruct (rejected result); now apply IH.
    - now apply IH. }
  rewrite (Hgen onBundleResult_start eq_refl).
  destruct (existsb is_acceptance events); reflexivity.
Qed.

(** X9. The promise of onBundleResult resolves to 1 when at least one
    acceptance arrives before the timer fires and to 0 otherwise: further
    acceptances, rejections and stream errors do not change the value. *)
Theorem onBundleResult_is_zero_or_one (events : list StreamEvent) :
  onBundleResult events = (if existsb is_acceptance events then 1 else 0) /\
  (forall more, existsb is_acceptance events = true ->
                onBundleResult (events ++ more) = onBundleResult events) /\
  onBundleResult events <= 1.
Proof.
  split; [apply onBundleResult_value |]. split.
  - intros more Hacc. rewrite !onBundleResult_value, existsb_app, Hacc.
    reflexivity.
  - rewrite onBundleResult_value. destruct (existsb is_acceptance events); lia.
Qed.

Section BullDozerFacts.
Variable W : Type.
Variable connection : Connection W.
Variable jito : JitoLibrary W.

(** X10. bull_dozer returns true exactly when the relay client could be
    created, build_bundle returned a bundle, and the result stream then
    delivered an acceptance before the timer fired; in every other case,
    including every thrown error, it returns false. *)
Theorem bull_dozer_true_iff_accepted
        (txs : list VersionedTransaction) (keypair : Keypair) (w : W) :
  (fst (bull_dozer connection jito txs keypair w) = Return true <->
   exists search w1 maybeBundle w2,
     searcherClient jito w = (Return search, w1) /\
     build_bundle connection jito search 5 txs keypair w1
     = (Return maybeBundle, w2) /\
     existsb is_acceptance (fst (bundleResultStream search w2)) = true) /\
  (fst (bull_dozer connection jito txs keypair w) = Return true \/
   fst (bull_dozer connection jito txs keypair w) = Return false).
Proof.
  unfold bull_dozer, try_catch, bind.
  destruct (searcherClient jito w) as [[search | e] w1] eqn:Hsearch.
  - destruct (build_bundle connection jito search 5 txs keypair w1)
      as [[maybeBundle | e] w2] eqn:Hbuild.
    + unfold await_onBundleResult.
      destruct (bundleResultStream search w2) as [events w3] eqn:Hstream.
      rewrite onBundleResult_value.
      destruct (existsb is_acceptance events) eqn:Hacc; simpl.
      * split; [| now left]. split; [| reflexivity].
        intros _. exists search, w1, maybeBundle, w2.
        rewrite Hstream. split; [reflexivity | split; [exact Hbuild | exact Hacc]].
      * split; [| now right]. split; [discriminate |].
        intros (s & w1' & b & w2' & [= <- <-] & Hb & Hex).
        rewrite Hbuild in Hb. injection Hb as <- <-.
        rewrite Hstream in Hex. simpl in Hex. congruence.
    + simpl. split; [| now right]. split; [discriminate |].
      intros (s & w1' & b & w2' & [= <- <-] & Hb & _).
      rewrite Hbuild in Hb. discriminate.
  - simpl. split; [| now right]. split; [discriminate |].
    intros (s & w1' & b & w2' & Hs & _). discriminate.
Qed.

End BullDozerFacts.

(* ================================================================= *)
(** ** Choice of the fee payer *)

(** X11. getRandomPayer returns a member of [payers] for every draw in
    [0, 1) when the list is not empty, every member is returned for some
    draw, and on an empty list it returns [undefined] whatever the draw. *)
Theorem getRandomPayer_uniform_choice (payers : list Keypair) (random : Q) :
  (0 <= random)%Q -> (random < 1)%Q ->
  (payers <> [] ->
   exists payer, getRandomPayer payers random = Some payer /\ In payer payers) /\
  (forall payer, In payer payers ->
                 exists r, (0 <= r)%Q /\ (r < 1)%Q /\
                           getRandomPayer payers r = Some payer) /\
  getRandomPayer [] random = None.
Proof.
  intros H0 H1. unfold getRandomPayer. split; [| split].
  - intros Hne.
    assert (Hlen : 0 < length payers) by (destruct payers; simpl; [easy | lia]).
    pose proof (floor_scaled_range H0 H1 Hlen) as Hr.
    rewrite <- (Z2Nat.id (floor_scaled random (length payers))) by lia.
    rewrite js_index_nat.
    destruct (nth_error payers (Z.to_nat (floor_scaled random (length payers))))
      as [payer |] eqn:Hp.
    + exists payer. split; [reflexivity | eapply nth_error_In; eassumption].
    + apply nth_error_None in Hp. lia.
  - intros payer Hin. apply In_nth_error in Hin as [i Hi].
    assert (Hlt : i < length payers) by (apply nth_error_Some; congruence).
    destruct (fraction_in_unit_interval Hlt) as [Hlo Hhi].
    exists (Z.of_nat i # Pos.of_nat (length payers))%Q.
    split; [exact Hlo | split; [exact Hhi |]].
    now rewrite floor_scaled_hits, js_index_nat.
  - unfold js_index. destruct (floor_scaled random (length (@nil Keypair)) <? 0)%Z;
      [reflexivity |].
    now destruct (Z.to_nat (floor_scaled random (length (@nil Keypair)))).
Qed.

Lemma getRandomPayer_uniform_choice_witness :
  exists payer, getRandomPayer [payer_keypair; payer_keypair] (1 # 2) = Some payer
                /\ In payer [payer_keypair; payer_keypair].
Proof.
  destruct (@getRandomPayer_uniform_choice [payer_keypair; payer_keypair] (1 # 2))
    as (Hmember & _ & _).
  - unfold Qle. simpl. lia.
  - unfold Qlt. simpl. lia.
  - apply Hmember. discriminate.
Defined.

(* ================================================================= *)
(** ** The sweep script: amounts, number of transactions, progress *)

Lemma subsequence_length (A : Type) (s l : list A) :
  subsequence s l -> length s <= length l.
Proof. induction 1; simpl; lia. Qed.

Lemma subsequence_app_skip (A : Type) (s l : list A) (x : A) :
  subsequence s l -> subsequence s (x :: l).
Proof. apply subsequence_skip. Qed.

Section SweepPrepareFacts.
Variable W : Type.
Variable connection : Connection W.
Variable destinationWallet : Keypair.

Lemma sweep_prepare_trace :
  forall wallets transferInstructions signers w,
    exists added_instructions added_signers w',
      sweep_prepare connection destinationWallet wallets
                    transferInstructions signers w
      = (Return (transferInstructions ++ added_instructions,
                 signers ++ added_signers), w') /\
      subsequence added_signers wallets /\
      Forall2 (sweep_transfer_of connection destinationWallet)
              added_instructions added_signers.
Proof.
  induction wallets as [| wallet later IH];
    intros transferInstructions signers w.
  - exists [], [], w. rewrite !app_nil_r.
    split; [reflexivity | split; constructor].
  - cbn [sweep_prepare]. unfold bind at 1. unfold try_catch, bind at 1.
    destruct (getBalance connection (publicKey wallet) w)
      as [[balance | e] w1] eqn:Hbal.
    + destruct (Z.leb_spec balance (RENT_EXEMPT_MINIMUM + TRANSACTION_FEE))
        as [Hlow | Hhigh].
      * cbn [ret fst snd].
        destruct (IH transferInstructions signers w1)
          as (ai & asg & w' & Hrun & Hsub & Hall).
        exists ai, asg, w'.
        split; [exact Hrun | split; [now apply subsequence_skip | exact Hall]].
      * cbn [ret fst snd].
        destruct (IH (transferInstructions ++
                        [SystemProgram_transfer (publicKey wallet)
                           (publicKey destinationWallet)
                           (sweep_transferAmount balance)])
                     (signers ++ [wallet]) w1)
          as (ai & asg & w' & Hrun & Hsub & Hall).
        exists (SystemProgram_transfer (publicKey wallet)
                  (publicKey destinationWallet)
                  (sweep_transferAmount balance) :: ai),
          (wallet :: asg), w'.
        rewrite Hrun, <- !app_assoc.
        split; [reflexivity | split; [now apply subsequence_take |]].
        constructor; [| exact Hall].
        exists balance, w, w1. split; [exact Hbal | split; [exact Hhigh |]].
        reflexivity.
    + cbn [ret fst snd].
      destruct (IH transferInstructions signers w1)
        as (ai & asg & w' & Hrun & Hsub & Hall).
      exists ai, asg, w'.
      split; [exact Hrun | split; [now apply subsequence_skip | exact Hall]].
Qed.

(** X12. Step 2 of the sweep script never fails.  The wallets it keeps are
    a subsequence of the wallets it was given, and for each of them it
    builds one transfer, from that wallet to the destination, of the balance
    the node reported minus 2,044,280 lamports (rent-exempt minimum plus
    fee); a wallet is kept only when that amount is positive, so a query
    that throws or a balance at or under the threshold skips the wallet. *)
Theorem sweep_prepare_amounts (wallets : list Keypair) (w : W) :
  exists transferInstructions signers w',
    sweep_prepare connection destinationWallet wallets [] [] w
    = (Return (transferInstructions, signers), w') /\
    subsequence signers wallets /\
    Forall2 (sweep_transfer_of connection destinationWallet)
            transferInstructions signers /\
    Forall (fun instruction =>
              exists source amount,
                instruction = SystemProgram_transfer
                                source (publicKey destinationWallet) amount /\
                (0 < amount)%Z)
           transferInstructions.
Proof.
  destruct (sweep_prepare_trace wallets [] [] w)
    as (ti & s & w' & Hrun & Hsub & Hall).
  exists ti, s, w'. simpl in Hrun.
  split; [exact Hrun | split; [exact Hsub | split; [exact Hall |]]].
  clear Hrun Hsub. induction Hall as [| ins signer ti s Hone _ IH];
    constructor; [| exact IH].
  destruct Hone as (balance & w0 & w1 & _ & Hhigh & ->).
  exists (publicKey signer),
    (balance - RENT_EXEMPT_MINIMUM - TRANSACTION_FEE)%Z.
  split; [reflexivity | lia].
Qed.

End SweepPrepareFacts.

Section SweepCountFacts.
Variable W : Type.
Variable serialize : VersionedTransaction -> list Byte.byte.
Variable connection : Connection W.
Variables payerWallet destinationWallet : Keypair.
Variable lookupTableAccount : AddressLookupTableAccount.

(** X13. For [n] wallets the sweep script hands at most [ceil (n / 6)]
    transactions to [sendTransaction], and each of them carries between one
    and six transfers. *)
Theorem sweep_sends_at_most_one_per_six_wallets (wallets : list Keypair) (w : W) :
  let sent := calls (sweep serialize (sends_observed connection) payerWallet
                           destinationWallet wallets lookupTableAccount (w, [])) in
  length sent <= (length wallets + 5) / 6 /\
  Forall (fun tx => 1 <= length (instructions tx) <= 6) sent.
Proof.
  intros sent.
  destruct (@sweep_prepare_trace _ (sends_observed connection)
              destinationWallet wallets [] [] (w, []))
    as (ti & s & [w' log'] & Hrun & Hsub & Hall).
  pose proof (@keeps_sweep_prepare W connection destinationWallet
                wallets [] [] w []) as Hlog.
  simpl in Hrun. rewrite Hrun in Hlog. simpl in Hlog. subst log'.
  assert (Hsweep :
            sweep serialize (sends_observed connection) payerWallet
                  destinationWallet wallets lookupTableAccount (w, [])
            = (if length ti =? 0 then ret tt
               else sweep_send serialize (sends_observed connection)
                      payerWallet lookupTableAccount
                      (batches_of ti MAX_WALLETS_PER_TRANSACTION)
                      (batches_of s MAX_WALLETS_PER_TRANSACTION)
                      (seq 0 (length (batches_of ti MAX_WALLETS_PER_TRANSACTION))))
                (w', [])).
  { unfold sweep, bind. rewrite Hrun. reflexivity. }
  unfold sent. rewrite Hsweep. clear Hsweep.
  destruct (length ti =? 0); [simpl; split; [lia | constructor] |].
  assert (Hpos : 0 < MAX_WALLETS_PER_TRANSACTION)
    by (unfold MAX_WALLETS_PER_TRANSACTION; lia).
  destruct (@batchArray_spec _ ti MAX_WALLETS_PER_TRANSACTION Hpos)
    as (batches & Hbatches & _ & Hcount & Hfull).
  assert (Hib : batches_of ti MAX_WALLETS_PER_TRANSACTION = batches).
  { unfold batches_of. now rewrite Hbatches. }
  rewrite Hib.
  destruct (@sweep_send_trace W serialize connection payerWallet
              lookupTableAccount batches
              (batches_of s MAX_WALLETS_PER_TRANSACTION)
              (length batches) 0 w' [] eq_refl)
    as (tr & Hcalls & Hwhole & Hseq).
  rewrite Hcalls. cbn [app]. simpl in Hseq. split.
  - apply subsequence_length in Hseq. rewrite length_map in Hseq.
    rewrite Hcount in Hseq. unfold MAX_WALLETS_PER_TRANSACTION in Hseq.
    apply subsequence_length in Hsub.
    apply Forall2_length in Hall.
    etransitivity; [exact Hseq |].
    apply Nat.Div0.div_le_mono. lia.
  - eapply Forall_impl; [| exact Hwhole].
    intros tx (_ & i & bs & Hi & _).
    destruct (@full_but_last_nth _ MAX_WALLETS_PER_TRANSACTION batches Hpos
                Hfull i _ Hi) as [Hlen _].
    unfold MAX_WALLETS_PER_TRANSACTION in Hlen. lia.
Qed.

End SweepCountFacts.

Section SweepProgressFacts.
Variable W : Type.
Variable serialize : VersionedTransaction -> list Byte.byte.
Variable connection : Connection W.
Variable payerWallet : Keypair.
Variable lookupTableAccount : AddressLookupTableAccount.
Variable instructionBatches : list (list TransactionInstruction).
Variable signerBatches : list (list Keypair).

Hypothesis blockhash_available :
  forall w, exists blockhash w',
      getLatestBlockhash connection "finalized" w = (Return blockhash, w').
Hypothesis all_fit : forall tx, length (serialize tx) <= 1232.

Lemma sweep_send_all_sent :
  forall n a w log0,
    a + n = length instructionBatches ->
    length instructionBatches <= length signerBatches ->
    exists tr,
      calls (sweep_send serialize (sends_observed connection) payerWallet
               lookupTableAccount instructionBatches signerBatches
               (seq a n) (w, log0)) = log0 ++ tr /\
      outcome (sweep_send serialize (sends_observed connection) payerWallet
                 lookupTableAccount instructionBatches signerBatches
                 (seq a n) (w, log0)) = Return tt /\
      map instructions tr = skipn a instructionBatches /\
      map signers tr
      = map (cons payerWallet) (firstn n (skipn a signerBatches)).
Proof.
  induction n as [| n IH]; intros a w log0 Ha Hlen.
  - exists []. rewrite app_nil_r, skipn_all2 by lia. repeat split.
  - cbn [seq]. rewrite sweep_send_step.
    destruct (nth_error instructionBatches a) as [batchInstructions |] eqn:Hib;
      [| apply nth_error_None in Hib; lia].
    destruct (nth_error signerBatches a) as [batchSigners |] eqn:Hsb;
      [| apply nth_error_None in Hsb; lia].
    rewrite (@skipn_nth_error_cons _ instructionBatches a _ Hib).
    rewrite (@skipn_nth_error_cons _ signerBatches a _ Hsb).
    destruct (blockhash_available w) as (blockhash & w1 & ->).
    cbv zeta.
    match goal with
    | |- context [if 1232 <? length (serialize ?t) then _ else _] =>
        set (tx := t)
    end.
    destruct (Nat.ltb_spec 1232 (length (serialize tx))) as [Hbig | _];
      [pose proof (all_fit tx); lia |].
    assert (Hnext : forall w2,
               exists tr,
                 calls (sweep_send serialize (sends_observed connection)
                          payerWallet lookupTableAccount instructionBatches
                          signerBatches (seq (S a) n) (w2, log0 ++ [tx]))
                 = log0 ++ tr /\
                 outcome (sweep_send serialize (sends_observed connection)
                            payerWallet lookupTableAccount instructionBatches
                            signerBatches (seq (S a) n) (w2, log0 ++ [tx]))
                 = Return tt /\
                 map instructions tr
                 = batchInstructions :: skipn (S a) instructionBatches /\
                 map signers tr
                 = map (cons payerWallet)
                       (firstn (S n) (batchSigners :: skipn (S a) signerBatches))).
    { intros w2.
      destruct (IH (S a) w2 (log0 ++ [tx])) as (tr & Hcalls & Hout & Hi & Hs);
        [lia | lia |].
      exists (tx :: tr). rewrite Hcalls, <- app_assoc.
      split; [reflexivity | split; [exact Hout |]].
      simpl. now rewrite Hi, Hs. }
    destruct (sendTransaction connection tx w1) as [[signature | e] w2];
      apply Hnext.
Qed.


End SweepProgressFacts.


(* ================================================================= *)
(** ** The sell script: what is sent *)

Lemma subsequence_refl (A : Type) (l : list A) : subsequence l l.
Proof. induction l; constructor; assumption. Qed.

Section SellShapeFacts.
Variable W : Type.
Variable serialize : VersionedTransaction -> list Byte.byte.
Variable sleep : nat -> W -> W.
Variable connection : Connection W.
Variable sdk : SellTools W.
Variable splTokenMint : PublicKey.
Variable altAuthority : Keypair.
Variable lookupTableAccount : AddressLookupTableAccount.

(** The wallets the inner loop keeps are wallets of the batch, in order. *)
Lemma sell_collect_signers (W' : Type) (c : Connection W') (tools : SellTools W') :
  forall batch instructions validSigners w arrays w',
    sell_collect c tools splTokenMint batch instructions validSigners w
    = (Return arrays, w') ->
    exists added, snd arrays = validSigners ++ added /\ subsequence added batch.
Proof.
  induction batch as [| wallet later IH];
    intros instructions validSigners w arrays w' Hrun.
  - injection Hrun as <- _. exists []. rewrite app_nil_r.
    split; [reflexivity | constructor].
  - cbn [sell_collect] in Hrun. unfold bind at 1 in Hrun.
    destruct (getSPLBalance tools splTokenMint (publicKey wallet) w)
      as [[[amount |] | e] w1]; [| | discriminate].
    + destruct (Qeq_bool amount 0).
      * destruct (IH _ _ _ _ _ Hrun) as (added & Heq & Hsub).
        exists added. split; [exact Heq | now apply subsequence_skip].
      * unfold bind at 1 in Hrun.
        destruct (getSellInstructionsByTokenAmount tools (publicKey wallet)
                    splTokenMint amount w1) as [[sellInstructions | e] w2];
          [| discriminate].
        destruct (IH _ _ _ _ _ Hrun) as (added & Heq & Hsub).
        exists (wallet :: added). rewrite Heq, <- app_assoc.
        split; [reflexivity | now apply subsequence_take].
    + destruct (IH _ _ _ _ _ Hrun) as (added & Heq & Hsub).
      exists added. split; [exact Heq | now apply subsequence_skip].
Qed.

Lemma sell_send_shape :
  forall walletBatches w log0,
    exists tr,
      calls (sell_send serialize (sleep_unobserved sleep)
               (sends_observed connection) (sell_tools_unobserved sdk)
               splTokenMint altAuthority lookupTableAccount
               walletBatches (w, log0))
        = log0 ++ tr /\
      Forall (sell_transaction_shape altAuthority walletBatches) tr.
Proof.
  induction walletBatches as [| batch later IH]; intros w log0.
  - exists []. rewrite app_nil_r. split; [reflexivity | constructor].
  - assert (Hweak : forall tr,
               Forall (sell_transaction_shape altAuthority later) tr ->
               Forall (sell_transaction_shape altAuthority (batch :: later)) tr).
    { intros tr. apply Forall_impl.
      intros tx (Hp & Hi & b & vs & Hin & Hsub & Hs).
      split; [exact Hp | split; [exact Hi |]].
      exists b, vs. split; [now right | split; assumption]. }
    assert (Hskip : forall w1,
               exists tr,
                 calls (sell_send serialize (sleep_unobserved sleep)
                          (sends_observed connection) (sell_tools_unobserved sdk)
                          splTokenMint altAuthority lookupTableAccount
                          later (w1, log0))
                   = log0 ++ tr /\
                 Forall (sell_transaction_shape altAuthority (batch :: later)) tr).
    { intros w1. destruct (IH w1 log0) as (tr & Hcalls & Hall).
      exists tr. split; [exact Hcalls | now apply Hweak]. }
    assert (Hstop : forall (r : Completion unit * (W * list VersionedTransaction)),
               calls r = log0 ->
               exists tr,
                 calls r = log0 ++ tr /\
                 Forall (sell_transaction_shape altAuthority (batch :: later)) tr).
    { intros r Hr. exists []. rewrite app_nil_r.
      split; [exact Hr | constructor]. }
    cbn [sell_send]. unfold bind at 1.
    pose proof (keeps_sell_collect connection sdk splTokenMint batch [] [] w log0)
      as Hkeep.
    destruct (sell_collect (sends_observed connection)
                (sell_tools_unobserved sdk) splTokenMint batch [] [] (w, log0))
      as [[arrays | e] [w1 log1]] eqn:Hcollect; simpl in Hkeep; subst log1;
      [| now apply Hstop].
    destruct (sell_collect_signers _ _ _ _ _ _ Hcollect)
      as (added & Hadded & Hsub). simpl in Hadded.
    destruct (Nat.eqb_spec (length (fst arrays)) 0) as [Hnone | Hsome];
      [apply Hskip |].
    unfold bind at 1. cbn [sends_observed getLatestBlockhash].
    unfold unobserved at 1. cbn [fst snd].
    destruct (getLatestBlockhash connection "confirmed" w1)
      as [[blockhash | e] w2]; [| now apply Hstop].
    match goal with
    | |- context [if 1200 <? length (serialize ?t) then _ else _] =>
        set (tx := t)
    end.
    destruct (1200 <? length (serialize tx)); [apply Hskip |].
    unfold bind at 1.
    destruct (@sell_submit_logs W sleep connection tx w2 log0) as (w3 & ->).
    destruct (IH w3 (log0 ++ [tx])) as (tr & Hcalls & Hall).
    exists (tx :: tr). rewrite Hcalls, <- app_assoc.
    split; [reflexivity |].
    constructor; [| now apply Hweak].
    split; [reflexivity | split].
    + simpl. intros Hnil. apply Hsome. now rewrite Hnil.
    + exists batch, added. split; [now left | split; [exact Hsub |]].
      simpl. now rewrite Hadded.
Qed.

(** X15. Every transaction the sell script hands to [sendTransaction] is
    paid by the lookup-table authority, carries at least one instruction,
    and is signed by the authority followed by wallets of a single wallet
    batch in the order of the batch, so by at most five signers; a batch
    in which no wallet has tokens to sell is not sent. *)
Theorem sell_sends_authority_signed_batches (sellerWallets : list Keypair) (w : W) :
  let walletBatches := batches_of sellerWallets MAX_WALLETS_PER_TX in
  let sold :=
    calls (sell serialize (sleep_unobserved sleep) (sends_observed connection)
             (sell_tools_unobserved sdk) splTokenMint sellerWallets
             altAuthority lookupTableAccount (w, [])) in
  Forall (sell_transaction_shape altAuthority walletBatches) sold /\
  Forall (fun tx => length (signers tx) <= 5) sold.
Proof.
  intros walletBatches sold.
  destruct (sell_send_shape walletBatches w []) as (tr & Hcalls & Hall).
  assert (Hsold : sold = tr) by exact Hcalls.
  rewrite Hsold. clear Hsold Hcalls.
  split; [exact Hall |].
  eapply Forall_impl; [| exact Hall].
  intros tx (_ & _ & batch & vs & Hin & Hsub & ->).
  assert (Hpos : 0 < MAX_WALLETS_PER_TX) by (unfold MAX_WALLETS_PER_TX; lia).
  destruct (@batchArray_spec _ sellerWallets MAX_WALLETS_PER_TX Hpos)
    as (batches & Hbatches & _ & _ & Hfull).
  assert (Hwb : walletBatches = batches).
  { unfold walletBatches, batches_of. now rewrite Hbatches. }
  rewrite Hwb in Hin. apply In_nth_error in Hin as [i Hi].
  destruct (@full_but_last_nth _ MAX_WALLETS_PER_TX batches Hpos Hfull i _ Hi)
    as [Hlen _].
  apply subsequence_length in Hsub.
  unfold MAX_WALLETS_PER_TX in Hlen. simpl. lia.
Qed.

End SellShapeFacts.

(* ================================================================= *)
(** ** index.ts: the launcher buy loop *)

Section BuyFacts.
Variable W : Type.
Variable connection : Connection W.
Variable sdk : BuyTools W.
Variables devBag mint : Keypair.

Lemma buy_collect_signers (W' : Type) (tools : BuyTools W') :
  forall batch transactionInstructions signers_ w arrays w',
    buy_collect tools mint batch transactionInstructions signers_ w
    = (Return arrays, w') ->
    snd arrays = signers_ ++ batch.
Proof.
  induction batch as [| launcher later IH];
    intros transactionInstructions signers_ w arrays w' Hrun.
  - injection Hrun as <- _. simpl. now rewrite app_nil_r.
  - cbn [buy_collect] in Hrun. unfold bind at 1, lift in Hrun.
    destruct (lamports_of tools (buy_solAmount tools launcher))
      as [lamportsAmount | e]; [| discriminate].
    unfold bind at 1 in Hrun.
    destruct (getBuyInstructionsBySolAmount tools (publicKey launcher)
                (publicKey mint) lamportsAmount w) as [[ix | e] w1];
      [| discriminate].
    rewrite (IH _ _ _ _ _ Hrun), <- app_assoc. reflexivity.
Qed.

Lemma keeps_buy_collect :
  forall batch transactionInstructions signers_,
    keeps_log (buy_collect (@buy_tools_unobserved W (list VersionedTransaction) sdk)
                           mint batch transactionInstructions signers_).
Proof.
  induction batch as [| launcher later IH];
    intros transactionInstructions signers_; cbn [buy_collect];
    [apply keeps_ret |].
  apply keeps_bind.
  - intros w log. unfold lift. reflexivity.
  - intros lamportsAmount. apply keeps_bind; [apply keeps_unobserved |].
    intros ix. apply IH.
Qed.

Lemma buy_send_step batch later w log0 :
  buy_send (sends_observed connection) (buy_tools_unobserved sdk)
           devBag mint (batch :: later) (w, log0)
  = match buy_collect (buy_tools_unobserved sdk) mint batch [] [devBag]
                      (w, log0) with
    | (Throw e, wl) => (Throw e, wl)
    | (Return arrays, (w1, log1)) =>
        match getLatestBlockhash connection "confirmed" w1 with
        | (Throw e, w2) => (Throw e, (w2, log1))
        | (Return blockhash, w2) =>
            let tx := {| payerKey := publicKey devBag;
                         instructions := fst arrays;
                         recentBlockhash := blockhash;
                         addressLookupTableAccounts := [];
                         signers := snd arrays |} in
            buy_send (sends_observed connection) (buy_tools_unobserved sdk)
                     devBag mint later
                     (snd (sendTransaction connection tx w2), log1 ++ [tx])
        end
    end.
Proof.
  cbn [buy_send]. unfold bind at 1.
  destruct (buy_collect (buy_tools_unobserved sdk) mint batch [] [devBag]
                        (w, log0)) as [[arrays | e] [w1 log1]]; [| reflexivity].
  unfold bind at 1. cbn [sends_observed getLatestBlockhash].
  unfold unobserved at 1. cbn [fst snd].
  destruct (getLatestBlockhash connection "confirmed" w1)
    as [[blockhash | e] w2]; [| reflexivity].
  unfold bind at 1. unfold try_catch, bind at 1.
  cbn [sends_observed sendTransaction]. unfold observed_arg. cbn [fst snd].
  destruct (sendTransaction connection _ w2) as [[sig | e] w3]; reflexivity.
Qed.

Lemma buy_send_trace :
  forall launcherBatches w log0,
    exists k tr,
      calls (buy_send (sends_observed connection) (buy_tools_unobserved sdk)
                      devBag mint launcherBatches (w, log0))
        = log0 ++ tr /\
      k <= length launcherBatches /\
      map signers tr = map (cons devBag) (firstn k launcherBatches) /\
      Forall (fun tx => payerKey tx = publicKey devBag /\
                        addressLookupTableAccounts tx = []) tr /\
      (outcome (buy_send (sends_observed connection) (buy_tools_unobserved sdk)
                         devBag mint launcherBatches (w, log0)) = Return tt ->
       k = length launcherBatches).
Proof.
  induction launcherBatches as [| batch later IH]; intros w log0.
  - exists 0, []. rewrite app_nil_r.
    split; [reflexivity | split; [lia | split; [reflexivity |]]].
    split; [constructor | reflexivity].
  - assert (Hstop : forall (r : Completion unit * (W * list VersionedTransaction)),
               calls r = log0 -> is_Throw (outcome r) = true ->
               exists k tr,
                 calls r = log0 ++ tr /\
                 k <= length (batch :: later) /\
                 map signers tr = map (cons devBag) (firstn k (batch :: later)) /\
                 Forall (fun tx => payerKey tx = publicKey devBag /\
                                   addressLookupTableAccounts tx = []) tr /\
                 (outcome r = Return tt -> k = length (batch :: later))).
    { intros r Hr Hthrow. exists 0, []. rewrite app_nil_r.
      split; [exact Hr | split; [simpl; lia | split; [reflexivity |]]].
      split; [constructor |].
      intros Hret. rewrite Hret in Hthrow. discriminate. }
    rewrite buy_send_step.
    pose proof (keeps_buy_collect batch [] [devBag] w log0) as Hkeep.
    destruct (buy_collect (buy_tools_unobserved sdk) mint batch [] [devBag]
                          (w, log0))
      as [[arrays | e] [w1 log1]] eqn:Hcollect; simpl in Hkeep; subst log1;
      [| now apply Hstop].
    pose proof (buy_collect_signers _ _ _ _ _ Hcollect) as Hsigners.
    simpl in Hsigners.
    destruct (getLatestBlockhash connection "confirmed" w1)
      as [[blockhash | e] w2]; [| now apply Hstop].
    cbv zeta.
    set (tx := {| payerKey := publicKey devBag;
                  instructions := fst arrays;
                  recentBlockhash := blockhash;
                  addressLookupTableAccounts := [];
                  signers := snd arrays |}).
    destruct (IH (snd (sendTransaction connection tx w2)) (log0 ++ [tx]))
      as (k & tr & Hcalls & Hk & Hs & Hall & Hend).
    exists (S k), (tx :: tr). rewrite Hcalls, <- app_assoc.
    split; [reflexivity | split; [simpl; lia | split]].
    + simpl. rewrite Hs, Hsigners. reflexivity.
    + split; [constructor; [split; reflexivity | exact Hall] |].
      intros Hret. simpl. f_equal. now apply Hend.
Qed.

(** X16. In the buy loop of index.ts every transaction handed to
    [sendTransaction] is paid by devBag, is signed by devBag followed by all
    the launchers of one batch, and references no lookup table; the batches
    are sent in order, whatever the size of their transactions, until a
    blockhash request, an amount conversion or the SDK throws, and a run that
    ends normally has sent every batch. *)
Theorem buy_loop_sends_every_batch (launcherWallets : list Keypair) (w : W) :
  let launcherBatches := batches_of launcherWallets TRANSACTION_BATCH_SIZE in
  let run := buy (sends_observed connection) (buy_tools_unobserved sdk)
                 devBag mint launcherWallets (w, []) in
  (exists k, k <= length launcherBatches /\
             map signers (calls run)
             = map (cons devBag) (firstn k launcherBatches)) /\
  Forall (fun tx => payerKey tx = publicKey devBag /\
                    addressLookupTableAccounts tx = []) (calls run) /\
  (outcome run = Return tt ->
   map signers (calls run) = map (cons devBag) launcherBatches).
Proof.
  intros launcherBatches run.
  destruct (buy_send_trace launcherBatches w [])
    as (k & tr & Hcalls & Hk & Hs & Hall & Hend).
  assert (Hrun : calls run = tr) by exact Hcalls.
  rewrite Hrun. split; [exists k; auto | split; [exact Hall |]].
  intros Hret. rewrite Hs, (Hend Hret). now rewrite firstn_all.
Qed.

End BuyFacts.

(* ================================================================= *)
(** ** The one-to-many script: one transfer per recipient *)

Section OneToManyFacts.
Variables payerWallet sourceWallet : Keypair.
Variable lookupTableAccount : AddressLookupTableAccount.
Variable blockhash : string.

Let build :=
  oneToMany_transaction payerWallet sourceWallet lookupTableAccount blockhash.

(** The loop of step 3 is batchArray's loop with a transaction built from
    every slice. *)
Lemma oneToMany_loop_as_batches transferInstructions batchSize :
  forall fuel i batches,
    oneToMany_loop fuel payerWallet sourceWallet lookupTableAccount blockhash
                   transferInstructions batchSize i (map build batches)
    = option_map (map build)
                 (batchArray_loop fuel transferInstructions batchSize i batches).
Proof.
  induction fuel as [| fuel IH]; intros i batches; simpl;
    destruct (i <? length transferInstructions); try reflexivity.
  rewrite <- IH, map_app. reflexivity.
Qed.

(** X17. For every list of recipients the one-to-many script builds
    [ceil (n / 5)] transactions; read in order, their instructions are one
    transfer of 10,000,000 lamports from the source wallet to each recipient,
    in the order of the recipients; every transaction carries one to five of
    them, is paid by the payer, uses the one blockhash fetched before the loop
    and is signed by the payer and the source wallet. *)
Theorem oneToMany_one_transfer_per_recipient (recipients : list PublicKey) :
  exists transactions_,
    oneToMany_transactions payerWallet sourceWallet lookupTableAccount
                           blockhash recipients = Some transactions_ /\
    length transactions_ = (length recipients + 4) / 5 /\
    concat (map instructions transactions_)
    = map (fun recipient =>
             SystemProgram_transfer (publicKey sourceWallet) recipient 10000000)
          recipients /\
    Forall (fun tx =>
              1 <= length (instructions tx) <= 5 /\
              payerKey tx = publicKey payerWallet /\
              recentBlockhash tx = blockhash /\
              signers tx = [payerWallet; sourceWallet])
           transactions_.
Proof.
  unfold oneToMany_transactions.
  set (ti := oneToMany_transferInstructions sourceWallet recipients).
  destruct (@batchArray_spec _ ti 5) as (batches & Hrun & Hcat & Hlen & Hfull);
    [lia |].
  pose proof (oneToMany_loop_as_batches ti 5 (length ti) 0 []) as Hloop.
  simpl map in Hloop. fold (batchArray ti 5) in Hloop. rewrite Hrun in Hloop.
  exists (map build batches). split; [exact Hloop |].
  assert (Hti : length ti = length recipients).
  { unfold ti, oneToMany_transferInstructions. apply length_map. }
  split; [| split].
  - rewrite length_map, Hlen, Hti. f_equal. lia.
  - rewrite map_map. simpl. rewrite map_id. exact Hcat.
  - apply Forall_forall. intros tx Hin.
    apply in_map_iff in Hin as (b & <- & Hb).
    apply In_nth_error in Hb as [i Hi].
    destruct (@full_but_last_nth _ 5 batches ltac:(lia) Hfull i b Hi)
      as [Hsize _].
    simpl. repeat split; lia.
Qed.

End OneToManyFacts.

(* ================================================================= *)
(** ** jitoWithAxios *)

Section JitoWithAxiosFacts.
Variable W : Type.
Variable connection : Connection W.
Variable relay : JitoAxios W.
Variable transactions_ : list VersionedTransaction.
Variable payer : Keypair.
Variable checkBundleStatus : bool.

Lemma jitoFeeWallet_in_list (random : Q) (text : string) :
  jitoWithAxios_jitoFeeWallet random = Some text -> In text tipAccounts.
Proof.
  unfold jitoWithAxios_jitoFeeWallet, js_index.
  destruct (_ <? 0)%Z; [discriminate |]. apply nth_error_In.
Qed.

Lemma jitoFeeWallet_defined (random : Q) :
  (0 <= random)%Q -> (random < 1)%Q ->
  exists text, jitoWithAxios_jitoFeeWallet random = Some text.
Proof.
  intros H0 H1.
  assert (Haxios : jitoWithAxios_jitoFeeWallet random
                   = js_index tipAccounts (floor_scaled random 8)).
  { unfold jitoWithAxios_jitoFeeWallet, floor_scaled.
    f_equal. apply Qfloor_comp. apply Qmult_comm. }
  rewrite Haxios.
  assert (Hr : (0 <= floor_scaled random 8 < Z.of_nat 8)%Z)
    by (apply floor_scaled_range; [assumption | assumption | lia]).
  rewrite <- (Z2Nat.id (floor_scaled random 8)) by lia.
  rewrite js_index_nat.
  destruct (nth_error tipAccounts (Z.to_nat (floor_scaled random 8)))
    as [a |] eqn:Ha.
  - now exists a.
  - apply nth_error_None in Ha. simpl in Ha. lia.
Qed.

(** X18. jitoWithAxios posts at most one "sendBundle" request.  Its payload
    is the encoded tip transaction followed by the encoded transactions in
    the order given, and the tip transaction is a single transfer of the
    configured fee from the payer to one of the eight hard-coded tip
    accounts, paid and signed by the payer alone.  The only transaction it
    asks to confirm is that tip transaction, and only after the post. *)
Theorem jitoWithAxios_posts_tip_first (w : W) :
  let sent := calls (jitoWithAxios (connection_unobserved connection)
                       (axios_observed relay) transactions_ payer
                       checkBundleStatus (w, [])) in
  sent = [] \/
  exists jitoFeeWallet blockhash,
    In jitoFeeWallet tipAccounts /\
    let tip := jitoFeeTx_of relay payer jitoFeeWallet blockhash in
    let payload := base58_serialize relay tip
                   :: map (base58_serialize relay) transactions_ in
    sent = [posted payload] \/ sent = [posted payload; confirming tip].
Proof.
  intros sent.
  pose (shape := fun sent : list AxiosCall =>
          sent = [] \/
          exists jitoFeeWallet blockhash,
            In jitoFeeWallet tipAccounts /\
            let tip := jitoFeeTx_of relay payer jitoFeeWallet blockhash in
            let payload := base58_serialize relay tip
                           :: map (base58_serialize relay) transactions_ in
            sent = [posted payload] \/ sent = [posted payload; confirming tip]).
  change (shape sent). subst sent.
  unfold jitoWithAxios, bind at 1. cbn [axios_observed axios_random fst snd].
  destruct (axios_random relay w) as [random w1].
  unfold bind at 1, lift.
  destruct (jitoWithAxios_jitoFeeWallet random) as [jitoFeeWallet |] eqn:Hwallet;
    [| now left].
  apply jitoFeeWallet_in_list in Hwallet.
  unfold try_catch, bind at 1.
  cbn [connection_unobserved getLatestBlockhash]. unfold unobserved at 1.
  cbn [fst snd].
  destruct (getLatestBlockhash connection "" w1) as [[blockhash | e] w2];
    [| now left].
  assert (Hpost : forall l, l = [posted (base58_serialize relay
                                   (jitoFeeTx_of relay payer jitoFeeWallet
                                                 blockhash)
                                 :: map (base58_serialize relay) transactions_)]
                            -> shape l).
  { intros l ->. right. exists jitoFeeWallet, blockhash.
    split; [exact Hwallet | now left]. }
  assert (Hboth : forall l, l = [posted (base58_serialize relay
                                   (jitoFeeTx_of relay payer jitoFeeWallet
                                                 blockhash)
                                 :: map (base58_serialize relay) transactions_);
                                 confirming (jitoFeeTx_of relay payer
                                               jitoFeeWallet blockhash)]
                            -> shape l).
  { intros l ->. right. exists jitoFeeWallet, blockhash.
    split; [exact Hwallet | now right]. }
  clearbody shape.
  unfold bind at 1. cbn [axios_observed post_sendBundle base58_serialize fst snd].
  match goal with
  | |- context [post_sendBundle relay ?payload w2] =>
      destruct (post_sendBundle relay payload w2)
        as [[response_result | e] w3]; [| now apply Hpost]
  end.
  destruct (truthy_string response_result) as [bundleId_ |];
    [| now apply Hpost].
  unfold bind at 1. cbn [axios_observed confirm_tip fst snd].
  match goal with
  | |- context [confirm_tip relay ?tip blockhash w3] =>
      destruct (confirm_tip relay tip blockhash w3)
        as [[err | e] w4]; [| now apply Hboth]
  end.
  destruct checkBundleStatus; [| now apply Hboth].
  unfold bind, getBundleStatuses, try_catch.
  cbn [axios_observed post_getBundleStatuses]. unfold unobserved. cbn [fst snd].
  destruct (post_getBundleStatuses relay bundleId_ w4) as [[status | e] w5];
    now apply Hboth.
Qed.

Hypothesis draw_in_unit_interval :
  forall w, (0 <= fst (axios_random relay w))%Q /\
            (fst (axios_random relay w) < 1)%Q.

(** X19. With [Math.random] in [0, 1), jitoWithAxios never throws: it
    returns an object.  [confirmed] is true only together with a bundle id
    that is not empty; when there is no bundle id, because the relay gave
    none or because something threw, [confirmed] is false and there is no
    bundle status; a bundle status is present only when it was asked for. *)
Theorem jitoWithAxios_always_returns (w : W) :
  exists result w',
    jitoWithAxios connection relay transactions_ payer checkBundleStatus w
    = (Return result, w') /\
    (confirmed result = true ->
     exists id, result_bundleId result = Some id /\ id <> "") /\
    (result_bundleId result = None ->
     confirmed result = false /\ bundleStatus result = None) /\
    (bundleStatus result <> None -> checkBundleStatus = true).
Proof.
  assert (Hnone : forall w' : W,
             exists result (w'' : W),
               (Return jito_not_confirmed, w') = (Return result, w'') /\
               (confirmed result = true ->
                exists id, result_bundleId result = Some id /\ id <> "") /\
               (result_bundleId result = None ->
                confirmed result = false /\ bundleStatus result = None) /\
               (bundleStatus result <> None -> checkBundleStatus = true)).
  { intros w'. exists jito_not_confirmed, w'. simpl.
    split; [reflexivity | split; [discriminate | split; [auto | congruence]]]. }
  unfold jitoWithAxios, bind at 1.
  destruct (draw_in_unit_interval w) as [H0 H1].
  destruct (axios_random relay w) as [random w1]. simpl in H0, H1.
  unfold bind at 1, lift.
  destruct (jitoFeeWallet_defined H0 H1) as (jitoFeeWallet & ->).
  unfold try_catch, bind at 1.
  destruct (getLatestBlockhash connection "" w1) as [[blockhash | e] w2];
    [| apply Hnone].
  unfold bind at 1.
  match goal with
  | |- context [post_sendBundle relay ?payload w2] =>
      destruct (post_sendBundle relay payload w2)
        as [[response_result | e] w3]; [| apply Hnone]
  end.
  destruct (truthy_string response_result) as [bundleId_ |] eqn:Hid;
    [| apply Hnone].
  assert (Hne : bundleId_ <> "").
  { unfold truthy_string in Hid. destruct response_result as [text |];
      [| discriminate].
    destruct (String.eqb_spec text ""); [discriminate |]. congruence. }
  unfold bind at 1.
  match goal with
  | |- context [confirm_tip relay ?tip blockhash w3] =>
      destruct (confirm_tip relay tip blockhash w3)
        as [[err | e] w4]; [| apply Hnone]
  end.
  destruct checkBundleStatus.
  - unfold bind, getBundleStatuses, try_catch.
    destruct (post_getBundleStatuses relay bundleId_ w4) as [[status | e] w5];
      eexists; eexists; (split; [reflexivity |]); simpl;
      (split; [intros _; now exists bundleId_
              | split; [discriminate | reflexivity]]).
  - eexists; eexists; (split; [reflexivity |]); simpl.
    split; [intros _; now exists bundleId_ | split; [discriminate | congruence]].
Qed.

End JitoWithAxiosFacts.

Lemma jitoWithAxios_always_returns_witness :
  exists result w',
    jitoWithAxios quiet_connection relay_accepting [] payer_keypair true tt
    = (Return result, w') /\
    (confirmed result = true ->
     exists id, result_bundleId result = Some id /\ id <> "") /\
    (result_bundleId result = None ->
     confirmed result = false /\ bundleStatus result = None) /\
    (bundleStatus result <> None -> true = true).
Proof.
  apply (@jitoWithAxios_always_returns unit quiet_connection relay_accepting
           [] payer_keypair true).
  intros w. simpl. split; unfold Qle, Qlt; simpl; lia.
Defined.

(* ================================================================= *)
(** ** The create-and-buy script *)

Section CreateAndBuyFacts.
Variable W : Type.
Variable connection : Connection W.
Variable serialize : VersionedTransaction -> list Byte.byte.

(** One call of the helper adds nothing to the log and throws, or adds the
    one transaction it built, which is within the limit. *)
Lemma sendTransaction_helper_logs (payer : Keypair)
      (instructions_ : list TransactionInstruction)
      (lookupTableAccount : list AddressLookupTableAccount)
      (signers_ : list Keypair) (w : W) (log : list VersionedTransaction) :
  let run := sendTransaction_helper (sends_observed connection) serialize
               payer instructions_ lookupTableAccount signers_ (w, log) in
  (calls run = log /\ is_Throw (outcome run) = true) \/
  (exists blockhash,
      let tx := helper_transaction payer instructions_ lookupTableAccount
                                   signers_ blockhash in
      length (serialize tx) <= MAX_TRANSACTION_SIZE /\
      calls run = log ++ [tx]).
Proof.
  intros run. subst run. unfold sendTransaction_helper, bind.
  cbn [sends_observed getLatestBlockhash sendTransaction].
  unfold unobserved, observed_arg. cbn [fst snd].
  destruct (getLatestBlockhash connection "" w) as [[blockhash | e] w1];
    [| now left].
  destruct (Nat.ltb_spec MAX_TRANSACTION_SIZE
              (length (serialize (helper_transaction payer instructions_
                                    lookupTableAccount signers_ blockhash))))
    as [Hbig | Hfits]; [now left |].
  right. exists blockhash. cbn zeta. split; [exact Hfits |].
  unfold calls. cbn [fst snd].
  now destruct (sendTransaction connection
                  (helper_transaction payer instructions_ lookupTableAccount
                                      signers_ blockhash) w1)
    as [[signature | e] w2].
Qed.


Variable sdk : CreateAndBuyTools W.
Variables devBag mint : Keypair.
Variables feeRecipient lookupTableAddress : PublicKey.

Lemma createAndBuy_buys_trace (launcherWallets : list Keypair) :
  forall (w : W) (log : list VersionedTransaction),
    let run := createAndBuy_buys (sends_observed connection) serialize
                 (createAndBuy_tools_unobserved sdk) devBag mint
                 feeRecipient lookupTableAddress launcherWallets (w, log) in
    exists k tr,
      k <= length launcherWallets /\
      calls run = log ++ tr /\
      map (@signers) tr
      = map (fun launcher => [devBag; launcher]) (firstn k launcherWallets) /\
      Forall (fun tx => length (serialize tx) <= 1232 /\
                        payerKey tx = publicKey devBag /\
                        length (addressLookupTableAccounts tx) = 1) tr /\
      (outcome run = Return tt -> k = length launcherWallets).
Proof.
  induction launcherWallets as [| launcher later IH]; intros w log; cbv zeta.
  - exists 0, []. cbn. rewrite app_nil_r. repeat split; constructor.
  - destruct (createAndBuy_buys (sends_observed connection) serialize
                (createAndBuy_tools_unobserved sdk) devBag mint feeRecipient
                lookupTableAddress (launcher :: later) (w, log))
      as [r [w' log']] eqn:Hrun.
    unfold calls, outcome. cbn [fst snd].
    assert (Hstop : r <> Return tt -> log' = log ->
                    exists k tr,
                      k <= length (launcher :: later) /\
                      log' = log ++ tr /\
                      map (@signers) tr
                      = map (fun launcher => [devBag; launcher])
                            (firstn k (launcher :: later)) /\
                      Forall (fun tx => length (serialize tx) <= 1232 /\
                                        payerKey tx = publicKey devBag /\
                                        length (addressLookupTableAccounts tx)
                                        = 1) tr /\
                      (r = Return tt -> k = length (launcher :: later))).
    { intros Hr ->. exists 0, []. cbn. rewrite app_nil_r.
      split; [lia | split; [reflexivity | split; [reflexivity |
      split; [constructor | intros; contradiction]]]]. }
    cbn [createAndBuy_buys] in Hrun. unfold bind at 1, lift in Hrun.
    cbn [createAndBuy_tools_unobserved to_lamports] in Hrun.
    destruct (to_lamports sdk _) as [lamportsAmount | e];
      [| inversion Hrun; subst; apply Hstop; [discriminate | reflexivity]].
    unfold bind at 1 in Hrun.
    cbn [createAndBuy_tools_unobserved getBuyInstructions] in Hrun.
    unfold unobserved at 1 in Hrun. cbn [fst snd] in Hrun.
    destruct (getBuyInstructions sdk (publicKey launcher) (publicKey mint)
                feeRecipient lamportsAmount lamportsAmount w)
      as [[buyInstructions | e] w1];
      [| inversion Hrun; subst; apply Hstop; [discriminate | reflexivity]].
    unfold bind at 1, fetchLookupTable_once, bind at 1 in Hrun.
    cbn [sends_observed getAddressLookupTable] in Hrun.
    unfold unobserved at 1 in Hrun. cbn [fst snd] in Hrun.
    destruct (getAddressLookupTable connection lookupTableAddress w1)
      as [[[table |] | e] w2];
      [| inversion Hrun; subst; apply Hstop; [discriminate | reflexivity]
       | inversion Hrun; subst; apply Hstop; [discriminate | reflexivity]].
    unfold ret at 1, bind at 1 in Hrun.
    pose proof (sendTransaction_helper_logs devBag buyInstructions [table]
                  [launcher] w2 log) as Hlogs.
    cbv zeta in Hlogs.
    destruct (sendTransaction_helper (sends_observed connection) serialize
                devBag buyInstructions [table] [launcher] (w2, log))
      as [r3 [w3 log3]].
    unfold calls, outcome in Hlogs. cbn [fst snd] in Hlogs.
    destruct Hlogs as [[-> Hthrow] | (blockhash & Hfits & ->)].
    + destruct r3 as [signature | e]; [discriminate |].
      inversion Hrun; subst. apply Hstop; [discriminate | reflexivity].
    + clear Hstop.
      set (tx := helper_transaction devBag buyInstructions [table] [launcher]
                                    blockhash) in *.
      assert (Htx : length (serialize tx) <= 1232 /\
                    payerKey tx = publicKey devBag /\
                    length (addressLookupTableAccounts tx) = 1)
        by (split; [exact Hfits | split; reflexivity]).
      destruct r3 as [signature | e].
      * specialize (IH w3 (log ++ [tx])). cbv zeta in IH. rewrite Hrun in IH.
        unfold calls, outcome in IH. cbn [fst snd] in IH.
        destruct IH as (k & tr & Hk & Hcalls & Hsigners & Hall & Hdone).
        exists (S k), (tx :: tr). cbn [length firstn map].
        split; [lia |].
        split; [rewrite Hcalls, <- app_assoc; reflexivity |].
        split; [rewrite Hsigners; reflexivity |].
        split; [constructor; assumption |].
        intros Hr. f_equal. apply Hdone. exact Hr.
      * inversion Hrun; subst. exists 1, [tx]. cbn [length firstn map].
        split; [lia |].
        split; [reflexivity |].
        split; [reflexivity |].
        split; [constructor; [exact Htx | constructor] |].
        discriminate.
Qed.

(** X21. The buy loop of the create-and-buy script stops at the first
    failure: the transactions it hands to the connection are for a leading
    part of the launcher list, one per launcher and in the order of the
    list, each paid by DevBag, signed by DevBag and then that launcher,
    compiled against one lookup table and at most 1232 bytes long; the loop
    ends normally only when one was handed over for every launcher. *)
Theorem createAndBuy_buys_stop_at_first_failure
        (launcherWallets : list Keypair) (w : W) :
  let run := createAndBuy_buys (sends_observed connection) serialize
               (createAndBuy_tools_unobserved sdk) devBag mint
               feeRecipient lookupTableAddress launcherWallets (w, []) in
  exists k,
    k <= length launcherWallets /\
    map (@signers) (calls run)
    = map (fun launcher => [devBag; launcher]) (firstn k launcherWallets) /\
    Forall (fun tx => length (serialize tx) <= 1232 /\
                      payerKey tx = publicKey devBag /\
                      length (addressLookupTableAccounts tx) = 1)
           (calls run) /\
    (outcome run = Return tt -> k = length launcherWallets).
Proof.
  intros run.
  destruct (createAndBuy_buys_trace launcherWallets w [])
    as (k & tr & Hk & Hcalls & Hsigners & Hall & Hdone).
  fold run in Hcalls, Hdone. cbn [app] in Hcalls.
  exists k. rewrite Hcalls. repeat split; assumption.
Qed.

End CreateAndBuyFacts.

(* ================================================================= *)
(** ** The bonding-curve script: retries of one launcher *)

Section BondingRetryFacts.
Variable W : Type.
Variable connection : Connection W.
Variable sdk : BondingTools W.
Variables launcher mint : Keypair.
Variable lamportsAmount : Z.

Lemma bonding_retry_trace (retries : list nat) :
  forall (w : W) (log : list (Z * Completion bool)),
  exists success w' tr,
    bonding_retry (connection_unobserved connection) (buys_observed sdk)
                  launcher mint lamportsAmount retries (w, log)
    = (Return success, (w', log ++ tr)) /\
    subsequence (map fst tr) (map dynamicSlippage_of retries) /\
    (success = true ->
     exists earlier slippage, tr = earlier ++ [(slippage, Return true)]).
Proof.
  induction retries as [| retry later IH]; intros w log.
  - exists false, w, []. cbn. rewrite app_nil_r.
    split; [reflexivity | split; [constructor | discriminate]].
  - cbn [bonding_retry]. unfold bind at 1, try_catch, bind at 1.
    cbn [connection_unobserved getBalance]. unfold unobserved at 1.
    cbn [fst snd].
    assert (Hnext : forall w1 result,
               exists success w' tr,
                 bonding_retry (connection_unobserved connection)
                               (buys_observed sdk) launcher mint
                               lamportsAmount later
                               (w1, log ++ [(dynamicSlippage_of retry, result)])
                 = (Return success, (w', log ++ tr)) /\
                 subsequence (map fst tr)
                             (map dynamicSlippage_of (retry :: later)) /\
                 (success = true ->
                  exists earlier slippage,
                    tr = earlier ++ [(slippage, Return true)])).
    { intros w1 result.
      destruct (IH w1 (log ++ [(dynamicSlippage_of retry, result)]))
        as (success & w' & tr & Hrun & Hslip & Hlast).
      exists success, w', ((dynamicSlippage_of retry, result) :: tr).
      split; [rewrite Hrun, <- app_assoc; reflexivity |].
      split; [cbn [map fst]; now apply subsequence_take |].
      intros Hs. destruct (Hlast Hs) as (earlier & slippage & ->).
      now exists ((dynamicSlippage_of retry, result) :: earlier), slippage. }
    destruct (getBalance connection (publicKey launcher) w)
      as [[walletBalance | e] w1].
    + destruct (walletBalance <? lamportsAmount)%Z.
      * exists false, w1, []. cbn. rewrite app_nil_r.
        split; [reflexivity | split; [constructor | discriminate]].
      * unfold bind at 1. cbn [buys_observed sdk_buy fst snd].
        destruct (sdk_buy sdk launcher (publicKey mint) lamportsAmount
                          (dynamicSlippage_of retry) w1)
          as [[[|] | e] w2]; [| apply Hnext | apply Hnext].
        unfold bind at 1. cbn [buys_observed printSPLBalance].
        unfold unobserved at 1. cbn [fst snd].
        destruct (printSPLBalance sdk (publicKey mint) (publicKey launcher) w2)
          as [[[] | e] w3]; [| apply Hnext].
        exists true, w3, [(dynamicSlippage_of retry, Return true)].
        split; [reflexivity |].
        split; [cbn [map fst]; apply subsequence_take; constructor |].
        intros _. now exists [], (dynamicSlippage_of retry).
    + unfold ret at 1. cbn beta iota.
      destruct (IH w1 log) as (success & w' & tr & Hrun & Hslip & Hlast).
      exists success, w', tr.
      split; [exact Hrun | split; [| exact Hlast]].
      cbn [map]. now apply subsequence_skip.
Qed.


Hypothesis balance_suffices :
  forall w, exists walletBalance w',
      getBalance connection (publicKey launcher) w = (Return walletBalance, w')
      /\ (lamportsAmount <= walletBalance)%Z.
Hypothesis buy_succeeds :
  forall slippage w, exists w',
    sdk_buy sdk launcher (publicKey mint) lamportsAmount slippage w
    = (Return true, w').
Hypothesis print_throws :
  forall w, exists e w',
      printSPLBalance sdk (publicKey mint) (publicKey launcher) w
      = (Throw e, w').

(** X23. In the bonding-curve script a buy counts only once the balance
    print after it has returned: when the balance suffices and every buy
    succeeds but printSPLBalance throws, the error is caught, [success] is
    not set, and the loop buys again; the launcher buys three times, at 100,
    200 and 300 basis points, and is reported as failed. *)
Theorem bonding_buy_repeats_when_print_throws (w : W) :
  exists w',
    bonding_buy (connection_unobserved connection) (buys_observed sdk)
                launcher mint lamportsAmount (w, [])
    = (Return false,
       (w', [(100, Return true); (200, Return true); (300, Return true)]%Z)).
Proof.
  assert (Hstep : forall retry later log w0,
             exists w1,
               bonding_retry (connection_unobserved connection)
                             (buys_observed sdk) launcher mint lamportsAmount
                             (retry :: later) (w0, log)
               = bonding_retry (connection_unobserved connection)
                               (buys_observed sdk) launcher mint
                               lamportsAmount later
                               (w1, log ++ [(dynamicSlippage_of retry,
                                            Return true)])).
  { intros retry later log w0. cbn [bonding_retry].
    unfold bind at 1, try_catch, bind at 1.
    cbn [connection_unobserved getBalance]. unfold unobserved at 1.
    cbn [fst snd].
    destruct (balance_suffices w0) as (walletBalance & w1 & -> & Henough).
    apply Z.ltb_ge in Henough. rewrite Henough.
    unfold bind at 1. cbn [buys_observed sdk_buy fst snd].
    destruct (buy_succeeds (dynamicSlippage_of retry) w1) as (w2 & ->).
    unfold bind at 1. cbn [buys_observed printSPLBalance].
    unfold unobserved at 1. cbn [fst snd].
    destruct (print_throws w2) as (e & w3 & ->). now exists w3. }
  unfold bonding_buy. cbn [seq].
  destruct (Hstep 0 [1; 2] [] w) as (w1 & ->).
  destruct (Hstep 1 [2] ([] ++ [(dynamicSlippage_of 0, Return true)]) w1)
    as (w2 & ->).
  destruct (Hstep 2 [] (([] ++ [(dynamicSlippage_of 0, Return true)])
                          ++ [(dynamicSlippage_of 1, Return true)]) w2)
    as (w3 & ->).
  now exists w3.
Qed.

End BondingRetryFacts.

Lemma bonding_buy_repeats_when_print_throws_witness :
  exists w',
    bonding_buy (connection_unobserved quiet_connection)
                (buys_observed sdk_print_fails) launcher_1 launcher_2 0
                (tt, [])
    = (Return false,
       (w', [(100, Return true); (200, Return true); (300, Return true)]%Z)).
Proof.
  apply (@bonding_buy_repeats_when_print_throws unit quiet_connection
           sdk_print_fails launcher_1 launcher_2 0%Z).
  - intros []. exists 0%Z, tt. split; [reflexivity | lia].
  - intros slippage []. now exists tt.
  - intros []. eexists. now exists tt.
Defined.

(* ================================================================= *)
(** ** The wallet console: updateConfig *)

Section UpdateConfigFacts.
Variable V : Type.
Variable truthy : V -> bool.
Variable null : V.
Variable inherited : string -> bool.

Lemma own_assign (object : JsObject V) (key name : string) (value : V) :
  own (assign object key value) name
  = if String.eqb key name then Some value else own object name.
Proof.
  induction object as [| [k old] rest IH]; cbn [assign own].
  - reflexivity.
  - destruct (String.eqb_spec k key) as [-> | Hk]; cbn [own].
    + destruct (String.eqb_spec key name); reflexivity.
    + rewrite IH. destruct (String.eqb_spec k name) as [-> | Hn].
      * destruct (String.eqb_spec key name); [congruence | reflexivity].
      * reflexivity.
Qed.

Lemma own_delete (object : JsObject V) (key name : string) :
  own (delete object key) name
  = if String.eqb key name then None else own object name.
Proof.
  induction object as [| [k old] rest IH]; cbn [delete filter own fst].
  - now destruct (String.eqb key name).
  - fold (delete rest key).
    destruct (String.eqb_spec k key) as [-> | Hk]; cbn [negb own].
    + rewrite IH. destruct (String.eqb_spec key name); reflexivity.
    + rewrite IH. destruct (String.eqb_spec k name) as [-> | Hn].
      * destruct (String.eqb_spec key name); [congruence | reflexivity].
      * reflexivity.
Qed.

Lemma own_In_names (object : JsObject V) (name : string) (value : V) :
  own object name = Some value -> In name (map fst object).
Proof.
  induction object as [| [k old] rest IH]; cbn [own map fst]; [discriminate |].
  destruct (String.eqb_spec k name) as [-> | Hn]; [now left |].
  intros H. right. now apply IH.
Qed.

Lemma kept_amount_idempotent (key : string) (before : option V) :
  kept_amount truthy null inherited key
              (kept_amount truthy null inherited key before)
  = kept_amount truthy null inherited key before.
Proof.
  destruct before as [value |]; cbn [kept_amount].
  - destruct (truthy value) eqn:Hv; [now rewrite Hv |].
    now destruct (truthy null).
  - destruct (inherited key) eqn:Hi; cbn [kept_amount]; [now rewrite Hi |].
    now destruct (truthy null).
Qed.

Lemma own_updateConfig_fill (launchers : list string) :
  forall (amounts : JsObject V) (name : string),
    own (updateConfig_fill truthy null inherited launchers amounts) name
    = if existsb (String.eqb name) launchers
      then kept_amount truthy null inherited name (own amounts name)
      else own amounts name.
Proof.
  unfold updateConfig_fill.
  induction launchers as [| launcher later IH]; intros amounts name;
    cbn [fold_left existsb]; [reflexivity |].
  rewrite IH.
  assert (Hstep : own (if lacks truthy inherited amounts launcher
                       then assign amounts launcher null else amounts) name
                  = if String.eqb name launcher
                    then kept_amount truthy null inherited name
                                     (own amounts name)
                    else own amounts name).
  { unfold lacks. destruct (String.eqb_spec name launcher) as [-> | Hn].
    - destruct (own amounts launcher) as [value |] eqn:Hown; cbn [kept_amount].
      + destruct (truthy value); cbn [negb].
        * exact Hown.
        * rewrite own_assign, String.eqb_refl. reflexivity.
      + destruct (inherited launcher); cbn [negb].
        * exact Hown.
        * rewrite own_assign, String.eqb_refl. reflexivity.
    - destruct (match own amounts launcher with
                | Some value => negb (truthy value)
                | None => negb (inherited launcher)
                end); [| reflexivity].
      rewrite own_assign.
      destruct (String.eqb_spec launcher name); [congruence | reflexivity]. }
  rewrite Hstep.
  destruct (String.eqb name launcher); cbn [orb].
  - destruct (existsb (String.eqb name) later);
      [apply kept_amount_idempotent | reflexivity].
  - reflexivity.
Qed.

Lemma own_prune_names (launchers names : list string) :
  forall (object : JsObject V) (name : string),
    own (fold_left (fun object publicKey_ =>
                      if existsb (String.eqb publicKey_) launchers
                      then object
                      else delete object publicKey_)
                   names object) name
    = if existsb (String.eqb name) names
         && negb (existsb (String.eqb name) launchers)
      then None
      else own object name.
Proof.
  induction names as [| key later IH]; intros object name;
    cbn [fold_left existsb andb]; [reflexivity |].
  rewrite IH.
  destruct (String.eqb_spec name key) as [-> | Hn]; cbn [orb andb].
  - destruct (existsb (String.eqb key) launchers) eqn:Hin; cbn [negb].
    + now rewrite andb_false_r.
    + rewrite own_delete, String.eqb_refl.
      now destruct (existsb (String.eqb key) later && true).
  - destruct (existsb (String.eqb key) launchers).
    + reflexivity.
    + rewrite own_delete.
      destruct (String.eqb_spec key name); [congruence | reflexivity].
Qed.

Lemma own_updateConfig_prune (launchers : list string)
      (amounts : JsObject V) (name : string) :
  own (updateConfig_prune launchers amounts) name
  = if existsb (String.eqb name) launchers then own amounts name else None.
Proof.
  unfold updateConfig_prune. rewrite own_prune_names.
  destruct (existsb (String.eqb name) launchers); cbn [negb].
  - now rewrite andb_false_r.
  - rewrite andb_true_r.
    destruct (existsb (String.eqb name) (map fst amounts)) eqn:Hnames;
      [reflexivity |].
    destruct (own amounts name) as [value |] eqn:Hown; [| reflexivity].
    apply own_In_names in Hown.
    assert (Hex : existsb (String.eqb name) (map fst amounts) = true).
    { apply existsb_exists. exists name. split; [exact Hown |].
      apply String.eqb_refl. }
    congruence.
Qed.

Lemma own_updateConfig_amounts (launchers : list string)
      (amounts : JsObject V) (name : string) :
  own (updateConfig_amounts truthy null inherited launchers amounts) name
  = if existsb (String.eqb name) launchers
    then kept_amount truthy null inherited name (own amounts name)
    else None.
Proof.
  unfold updateConfig_amounts.
  rewrite own_updateConfig_prune, own_updateConfig_fill.
  now destruct (existsb (String.eqb name) launchers).
Qed.

(** X24. What updateConfig writes back as [launcherWalletSolAmounts]: a key
    is present only if it is the public key of a launcher; under a
    launcher's key a truthy amount is kept as it was, a missing or falsy
    one (null, 0) becomes null, except that a key naming a property of
    [Object.prototype] with no own entry gets none; and a second run changes
    no entry. *)
Theorem updateConfig_amounts_follow_launchers (launchers : list string)
        (amounts : JsObject V) (name : string) :
  let updated := updateConfig_amounts truthy null inherited launchers amounts in
  (forall value, own updated name = Some value -> In name launchers) /\
  (In name launchers ->
   own updated name
   = match own amounts name with
     | Some value => Some (if truthy value then value else null)
     | None => if inherited name then None else Some null
     end) /\
  own (updateConfig_amounts truthy null inherited launchers updated) name
  = own updated name.
Proof.
  intros updated. subst updated.
  rewrite !own_updateConfig_amounts.
  destruct (existsb (String.eqb name) launchers) eqn:Hin.
  - apply existsb_exists in Hin as (launcher & Hl & Heq).
    apply String.eqb_eq in Heq. subst launcher.
    split; [intros _ _; exact Hl |].
    split; [intros _; reflexivity | apply kept_amount_idempotent].
  - split; [discriminate |].
    split; [| reflexivity].
    intros Hl.
    assert (Hex : existsb (String.eqb name) launchers = true).
    { apply existsb_exists. exists name. split; [exact Hl |].
      apply String.eqb_refl. }
    congruence.
Qed.

End UpdateConfigFacts.

(* ================================================================= *)
(** ** raydiumSwapTokens *)

Section RaydiumSwapFacts.
Variables W Pool Tx : Type.
Variable raydium : RaydiumTools W Pool Tx.
Variable params : SwapParams.

(** Past the validation: a signature comes from the one send made, and
    whatever is thrown is wrapped. *)
Lemma raydiumSwapTokens_validated (w : W) :
  (is_empty (rpcEndpoint params) || is_empty (privateKey params)
   || is_empty (inputMint params) || is_empty (outputMint params)
   || le_zero (amountIn params)) = false ->
  (le_zero (slippage params) || gt_hundred (slippage params)) = false ->
  exists r w' log,
    raydiumSwapTokens (raydium_observed raydium) params (w, [])
    = (r, (w', log)) /\
    ((exists signature transaction,
         r = Return signature /\
         sends_of log = [(transaction, Return signature)]) \/
     (exists m, r = Throw (ErrorObj ("Raydium Swap failed: " ++ m)) /\
                length (sends_of log) <= 1)).
Proof.
  intros Hparams Hslip. unfold raydiumSwapTokens. rewrite Hparams, Hslip.
  unfold try_catch, bind at 1, lift.
  cbn [raydium_observed open_wallet].
  destruct (open_wallet raydium (rpcEndpoint params) (privateKey params))
    as [wallet | e].
  2:{ eexists; eexists; eexists; split; [reflexivity |].
      right. eexists. split; [reflexivity | cbn; lia]. }
  unfold bind at 1. cbn [raydium_observed Raydium_load fst snd].
  destruct (Raydium_load raydium wallet w) as [[[] | e] w1].
  2:{ eexists; eexists; eexists; split; [reflexivity |].
      right. eexists. split; [reflexivity | cbn; lia]. }
  unfold bind at 1. cbn [raydium_observed fetchPoolByMints fst snd].
  destruct (fetchPoolByMints raydium (inputMint params) (outputMint params) w1)
    as [[[pool |] | e] w2].
  2,3: eexists; eexists; eexists; (split; [reflexivity |]);
       right; eexists; (split; [reflexivity | cbn; lia]).
  unfold bind at 1.
  cbn [raydium_observed buildSwapTransaction amountOutMin_of fst snd].
  destruct (buildSwapTransaction raydium pool (amountIn params)
              (amountOutMin_of raydium (slippage params) pool)
              (publicKey wallet) w2)
    as [[[transaction |] | e] w3].
  2,3: eexists; eexists; eexists; (split; [reflexivity |]);
       right; eexists; (split; [reflexivity | cbn; lia]).
  unfold bind. cbn [raydium_observed swap_sendTransaction fst snd].
  destruct (swap_sendTransaction raydium transaction wallet w3)
    as [[signature | e] w4].
  - eexists; eexists; eexists; split; [reflexivity |].
    left. exists signature, transaction. split; reflexivity.
  - eexists; eexists; eexists; split; [reflexivity |].
    right. eexists. split; [reflexivity | cbn; lia].
Qed.


End RaydiumSwapFacts.

(* ================================================================= *)
(** ** The bundles handed to the relay *)

Section BundlesSent.
Variable W : Type.
Variable connection : Connection W.
Variable jito : JitoLibrary W.
Variable txs : list VersionedTransaction.
Variable keypair : Keypair.

(** X26. bull_dozer hands at most one bundle to the relay: the bundle that
    [addTipTx] returned for a bundle of limit 5 to which the given
    transactions were added, with the configured fee.  When [addTipTx]
    answers with an Error value nothing is sent, and bull_dozer returns true
    only after a bundle was sent. *)
Theorem bull_dozer_sends_one_tipped_bundle (w : W) :
  let run := bull_dozer (connection_unobserved connection)
               (bundles_observed jito) txs keypair (w, []) in
  (calls run = [] \/
   exists tipAccount blockhash maybeBundle,
     addTipTx jito
       (addTransactions jito {| transactions := []; transactionLimit := 5 |}
                        txs)
       keypair (JITO_FEE jito) tipAccount blockhash = inl maybeBundle /\
     calls run = [maybeBundle]) /\
  (outcome run = Return true -> calls run <> []).
Proof.
  intros run.
  destruct (bull_dozer (connection_unobserved connection)
              (bundles_observed jito) txs keypair (w, []))
    as [r [w' log]] eqn:Hrun.
  subst run. unfold calls, outcome. cbn [fst snd].
  unfold bull_dozer, try_catch, bind at 1 in Hrun.
  cbn [bundles_observed searcherClient fst snd] in Hrun.
  destruct (searcherClient jito w) as [[search | e] w1];
    [| inversion Hrun; subst; split; [now left | discriminate]].
  unfold bind at 1, build_bundle, try_catch, bind at 1 in Hrun.
  cbn [client_bundles_observed getTipAccounts] in Hrun.
  unfold unobserved at 1 in Hrun. cbn [fst snd] in Hrun.
  destruct (getTipAccounts search w1) as [[accounts | e] w2];
    [| inversion Hrun; subst; split; [now left | discriminate]].
  unfold bind at 1 in Hrun.
  cbn [bundles_observed Math_random fst snd] in Hrun.
  destruct (Math_random jito w2) as [random w3].
  unfold bind at 1, lift in Hrun.
  cbn [bundles_observed new_PublicKey] in Hrun.
  destruct (new_PublicKey jito (build_bundle_tipAccount accounts random))
    as [tipAccount | e];
    [| inversion Hrun; subst; split; [now left | discriminate]].
  unfold bind at 1 in Hrun.
  cbn [connection_unobserved getLatestBlockhash] in Hrun.
  unfold unobserved at 1 in Hrun. cbn [fst snd] in Hrun.
  destruct (getLatestBlockhash connection "processed" w3)
    as [[blockhash | e] w4];
    [| inversion Hrun; subst; split; [now left | discriminate]].
  cbn [bundles_observed addTipTx addTransactions JITO_FEE] in Hrun.
  destruct (addTipTx jito
              (addTransactions jito
                 {| transactions := []; transactionLimit := 5 |} txs)
              keypair (JITO_FEE jito) tipAccount blockhash)
    as [maybeBundle | error] eqn:Htip;
    [| inversion Hrun; subst; split; [now left | discriminate]].
  assert (Hsent : log = [maybeBundle]).
  { unfold bind at 1 in Hrun.
    cbn [client_bundles_observed sendBundle] in Hrun.
    unfold observed_arg in Hrun. cbn [fst snd app] in Hrun.
    destruct (sendBundle search maybeBundle w4) as [[id | e] w5].
    - unfold ret at 1, bind at 1, await_onBundleResult in Hrun.
      cbn [client_bundles_observed bundleResultStream fst snd] in Hrun.
      destruct (bundleResultStream search w5) as [events w6].
      unfold bind in Hrun.
      destruct (0 <? onBundleResult events); inversion Hrun; reflexivity.
    - inversion Hrun; reflexivity. }
  subst log. split; [| discriminate].
  right. exists tipAccount, blockhash, maybeBundle. split; [exact Htip | reflexivity].
Qed.

End BundlesSent.
